(** * claw-screener: the Compounding Machine pipeline (src/compoundingMachine.ts)

    A shallow embedding of the acquisition-and-derivation pipeline of
    [compoundingMachine.ts] and the properties its specification states.

    Numbers.  Every numeric field of a snapshot went through [toNumber]
    (finite values only) before it was stored, so a JS [number] is modelled
    as an exact rational [Q] and [number | undefined] as [option Q].
    Arithmetic on [Q] is exact: the rounding, overflow and underflow of
    doubles are not modelled.  A number that comes unchecked from the command line
    ([--concurrency]) may be NaN or infinite and is a [JsNum].
    Counters and array lengths are [nat].  [Math.pow] with an exponent that
    is an integer by construction is the exact power [x ^ n]; with the
    fractional exponent [1 / periods] of a growth rate it has no rational
    counterpart, and the functions that call it take it as the section
    variable [Math_pow].

    Strings.  [localeCompare] is a parameter too; the properties of
    [dedupeByDate] assume only that it is a consistent comparator.

    Effects.  The fetch layer runs in a state-and-exception monad over a
    [World]: the clock, the cache table, the answers of the data source, the
    values of [Math.random], the outcome of each write of the cache file and
    the trace of requests, sleeps and log lines.  A cache record holds
    whatever text the table has: a snapshot, the text [null], another JSON
    value, or text that does not parse; and a date that may be invalid.

    Concurrency.  The worker pool is a step relation in which any runner may
    take the next step, a step being what a runner does between two
    suspension points of the single-threaded event loop.  A call to the
    worker is fulfilled or rejected; a rejected call ends its runner and
    rejects the pool. *)

From Stdlib Require Import QArith Qround Qabs Lia Lqa.
From stdpp Require Import gmap strings list sorting.

Open Scope Q_scope.

(** ** JavaScript primitives *)

(** [a < b] on numbers, as a boolean. *)
Definition Qltb (a b : Q) : bool :=
  match a ?= b with Lt => true | _ => false end.

(** [a <= b] on numbers, as a boolean. *)
Definition Qleb (a b : Q) : bool :=
  match a ?= b with Gt => false | _ => true end.

(** A relational operator applied to possibly-[undefined] operands:
    [undefined] converts to NaN and every comparison with NaN is false. *)
Definition js_rel (rel : Q -> Q -> bool) (a b : option Q) : bool :=
  match a, b with
  | Some x, Some y => rel x y
  | _, _ => false
  end.

(** [Number.isFinite].  Every modelled number is finite: exact arithmetic
    neither overflows nor yields NaN, so a guard on a computed value fires
    here only for its other tests. *)
Definition Number_isFinite (v : Q) : bool := true.

(** [Math.round]: nearest integer, ties towards plus infinity. *)
Definition Math_round (v : Q) : Q := inject_Z (Qfloor (v + (1 # 2))).

(** [Math.max] and [Math.min] on two numbers. *)
Definition Math_max (a b : Q) : Q := if Qltb a b then b else a.
Definition Math_min (a b : Q) : Q := if Qltb b a then b else a.

(** A counter or a length used as a number. *)
Definition num (n : nat) : Q := inject_Z (Z.of_nat n).

(** A number that need not be finite: what the data source delivers and
    what [Number(text)] makes of a command-line argument. *)
Inductive JsNum :=
| JsFinite (v : Q)
| JsNaN
| JsInfinity (negative : bool).

(** Truncation towards zero. *)
Definition Q_truncate (v : Q) : Z := if Qltb v 0 then Qceiling v else Qfloor v.

(** [arr.slice(-n)]: the last [n] elements. *)
Definition slice_last {A} (n : nat) (l : list A) : list A :=
  drop (length l - n) l.

(** [arr[arr.length - 1]]; [undefined] on an empty array. *)
Definition last_elem {A} (l : list A) : option A :=
  match l with
  | [] => None
  | _ => l !! (length l - 1)%nat
  end.

(** [a ?? b]. *)
Definition nullish {A} (a b : option A) : option A :=
  match a with Some _ => a | None => b end.

Infix "??" := nullish (at level 61, left associativity).

(** [.filter] with a boolean callback. *)
Definition js_filter {A} (f : A -> bool) (l : list A) : list A := List.filter f l.

(** [function clamp(value, min, max)]. *)
Definition clamp (value min max : Q) : Q := Math_max min (Math_min max value).

(** ** Data model *)

Record AnnualFinancialPoint := {
  af_date : string;
  totalRevenue : option Q;
  netIncome : option Q;
  dilutedEPS : option Q;
  basicEPS : option Q;
  dilutedAverageShares : option Q
}.

Record AnnualBalanceSheetPoint := {
  bs_date : string;
  stockholdersEquity : option Q;
  longTermDebt : option Q;
  longTermDebtAndCapitalLeaseObligation : option Q;
  totalDebt : option Q;
  cashAndCashEquivalents : option Q;
  cashCashEquivalentsAndShortTermInvestments : option Q
}.

Record AnnualCashFlowPoint := {
  cf_date : string;
  operatingCashFlow : option Q;
  capitalExpenditure : option Q;
  freeCashFlow : option Q
}.

Record QuarterlySharesPoint := {
  qs_date : string;
  ordinarySharesNumber : option Q;
  shareIssued : option Q
}.

Record YieldYearPoint := {
  year : Z;
  yield : Q
}.

Record TickerSnapshot := {
  schemaVersion : Z;
  ticker : string;
  annualFinancials : list AnnualFinancialPoint;
  annualBalanceSheet : list AnnualBalanceSheetPoint;
  annualCashFlow : list AnnualCashFlowPoint;
  quarterlyShares : list QuarterlySharesPoint;
  operatingMargins : option Q;
  dividendYield : option Q;
  sharesOutstanding : option Q;
  currentPrice : option Q;
  marketCap : option Q;
  yearlyDividendYields : list YieldYearPoint
}.

Record GrowthStats := {
  positiveCount : nat;
  intervals : nat;
  cagrPercent : option Q
}.

Record DcfResult := {
  intrinsicValuePerShare : option Q;
  upsidePercent : option Q
}.

Record CompounderRow := {
  row_ticker : string;
  revenueGrowth : GrowthStats;
  netIncomeGrowth : GrowthStats;
  epsGrowth : GrowthStats;
  roicPercent : option Q;
  latestFcf : option Q;
  fcfGrowthPercent : option Q;
  sharesChange3yPercent : option Q;
  operatingMarginPercent : option Q;
  currentYieldPercent : option Q;
  avgYield5yPercent : option Q;
  yieldVs5yAvgPercent : option Q;
  dcfIntrinsicValuePerShare : option Q;
  dcfUpsidePercent : option Q;
  carlsonQualityScore : Q
}.

Inductive Market := us | bk.
Inductive OutputFormat := text | json.

Record CliOptions := {
  market : Market;
  tickers : option (list string);
  maxTickers : option nat;
  topN : nat;
  concurrency : JsNum;
  format : OutputFormat;
  dbPath : string;
  ttlDays : Q;
  minRoic : Q;
  minOperatingMargin : Q;
  minBuybackPercent : Q;
  showRejected : bool
}.

Record FilterEvaluation := {
  pass : bool;
  revenuePass : bool;
  netIncomePass : bool;
  roicPass : bool;
  buybackPass : bool;
  marginPass : bool;
  revenueRequired : Q;
  netIncomeRequired : Q
}.

(** ** GrowthAnalyzer *)

Section WithPow.

(** [Math.pow], supplied by the JavaScript runtime. *)
Variable Math_pow : Q -> Q -> Q.

(** The body of the [for (let i = 1; i < values.length; i++)] loop. *)
Definition growthStats_step (values : list Q) (positiveCount i : nat) : nat :=
  if js_rel (fun a b => Qltb b a) (values !! i) (values !! (i - 1)%nat)
  then (positiveCount + 1)%nat else positiveCount.

Definition growthStats (values : list Q) : GrowthStats :=
  if (length values <? 2)%nat then
    {| positiveCount := 0; intervals := 0; cagrPercent := None |}
  else
    let intervals := (length values - 1)%nat in
    let positiveCount :=
      fold_left (growthStats_step values) (seq 1 (length values - 1)) 0%nat in
    let first := values !! 0%nat in
    let last := values !! (length values - 1)%nat in
    let cagrPercent :=
      match first, last with
      | Some first, Some last =>
          if Qltb 0 first && Qltb 0 last && (0 <? intervals)%nat
          then Some ((Math_pow (last / first) (1 / num intervals) - 1) * 100)
          else None
      | _, _ => None
      end in
    {| positiveCount := positiveCount; intervals := intervals;
       cagrPercent := cagrPercent |}.

(** ** ValuationEngine *)

(** [.filter((v): v is number => v !== undefined && p(v))]. *)
Definition filter_defined (p : Q -> bool) (l : list (option Q)) : list Q :=
  omap (fun v => match v with
                 | Some x => if p x then Some x else None
                 | None => None
                 end) l.

Definition computeRoicPercent (snapshot : TickerSnapshot) : option Q :=
  let latestBalance := last_elem (annualBalanceSheet snapshot) in
  let latestNetIncome :=
    match last_elem (annualFinancials snapshot) with
    | Some f => netIncome f
    | None => None
    end in
  match latestBalance, latestNetIncome with
  | Some latestBalance, Some latestNetIncome =>
      let equity := stockholdersEquity latestBalance in
      let debt :=
        default 0 (longTermDebtAndCapitalLeaseObligation latestBalance
                   ?? longTermDebt latestBalance
                   ?? totalDebt latestBalance) in
      let cash :=
        default 0 (cashCashEquivalentsAndShortTermInvestments latestBalance
                   ?? cashAndCashEquivalents latestBalance) in
      match equity with
      | None => None
      | Some equity =>
          let investedCapital := equity + debt - cash in
          if negb (Number_isFinite investedCapital) || Qleb investedCapital 0
          then None
          else Some ((latestNetIncome / investedCapital) * 100)
      end
  | _, _ => None
  end.

(** One iteration of the [for (const row of snapshot.annualCashFlow)] loop
    of [computeAnnualFcfSeries]; [values] is the array built so far. *)
Definition computeAnnualFcfSeries_step
    (values : list Q) (row : AnnualCashFlowPoint) : list Q :=
  let derived :=
    match operatingCashFlow row, capitalExpenditure row with
    | Some operatingCashFlow, Some capex =>
        let computed :=
          if Qltb capex 0 then operatingCashFlow + capex
          else operatingCashFlow - capex in
        values ++ [computed]
    | _, _ => values
    end in
  match freeCashFlow row with
  | Some fcfFromField =>
      if Number_isFinite fcfFromField then values ++ [fcfFromField] else derived
  | None => derived
  end.

(** The loop of [computeAnnualFcfSeries] over the given rows. *)
Definition fcfSeriesOf (rows : list AnnualCashFlowPoint) : list Q :=
  fold_left computeAnnualFcfSeries_step rows [].

Definition computeAnnualFcfSeries (snapshot : TickerSnapshot) : list Q :=
  fcfSeriesOf (annualCashFlow snapshot).

(** [((latest / threeYearsAgo) - 1) * 100] when the series has at least
    [back] points and the earlier one is positive. *)
Definition sharesChange_over (series : list Q) (back : nat) : option Q :=
  if (back <=? length series)%nat then
    match series !! (length series - 1)%nat, series !! (length series - back)%nat with
    | Some latest, Some threeYearsAgo =>
        if Qltb 0 threeYearsAgo
        then Some (((latest / threeYearsAgo) - 1) * 100)
        else None
    | _, _ => None
    end
  else None.

Definition computeSharesChange3y (snapshot : TickerSnapshot) : option Q :=
  let quarterlySeries :=
    filter_defined (fun v => Number_isFinite v && Qltb 0 v)
      (map (fun q => ordinarySharesNumber q ?? shareIssued q)
           (quarterlyShares snapshot)) in
  match sharesChange_over quarterlySeries 13 with
  | Some r => Some r
  | None =>
      let annualShareSeries :=
        filter_defined (fun v => Number_isFinite v && Qltb 0 v)
          (map dilutedAverageShares (annualFinancials snapshot)) in
      sharesChange_over annualShareSeries 4
  end.

Definition computeOperatingMarginPercent (snapshot : TickerSnapshot) : option Q :=
  match operatingMargins snapshot with
  | None => None
  | Some value => Some (if Qleb value 1 then value * 100 else value)
  end.

Record YieldMetrics := {
  ym_currentYieldPercent : option Q;
  ym_avgYield5yPercent : option Q;
  ym_yieldVs5yAvgPercent : option Q
}.

Definition computeYieldMetrics (snapshot : TickerSnapshot) : YieldMetrics :=
  let currentYieldPercent :=
    match dividendYield snapshot with
    | Some dy => Some (if Qleb dy 1 then dy * 100 else dy)
    | None => None
    end in
  let yields :=
    js_filter (fun x => Qleb 0 x) (map yield (yearlyDividendYields snapshot)) in
  let avgYield :=
    if (0 <? length yields)%nat
    then Some (fold_left Qplus yields 0 / num (length yields))
    else None in
  let avgYield5yPercent :=
    match avgYield with Some a => Some (a * 100) | None => None end in
  let yieldVs5yAvgPercent :=
    match currentYieldPercent, avgYield5yPercent with
    | Some c, Some a => Some (c - a)
    | _, _ => None
    end in
  {| ym_currentYieldPercent := currentYieldPercent;
     ym_avgYield5yPercent := avgYield5yPercent;
     ym_yieldVs5yAvgPercent := yieldVs5yAvgPercent |}.

(** The growth assumption of [computeDcf]: the local [growth] after the
    [clamp], computed from the FCF series. *)
Definition dcfGrowth (fcfSeries : list Q) : Q :=
  let trailing := js_filter (fun v => Qltb 0 v) (slice_last 3 fcfSeries) in
  let growth :=
    if (2 <=? length trailing)%nat then
      match trailing !! 0%nat, trailing !! (length trailing - 1)%nat with
      | Some first, Some last =>
          let periods := (length trailing - 1)%nat in
          Math_pow (last / first) (1 / num periods) - 1
      | _, _ => 0.04 (* not reached: both indices are in range *)
      end
    else 0.04 in
  clamp growth (-0.05) 0.20.

(** One year of the projection loop: the state is [(pv, projectedFcf)]. *)
Definition dcf_year (growth discountRate : Q) (st : Q * Q) (year : nat) : Q * Q :=
  let projectedFcf := snd st * (1 + growth) in
  (fst st + projectedFcf / (1 + discountRate) ^ Z.of_nat year, projectedFcf).

(** The part of [computeDcf] after its guards: the projection from the
    latest FCF at the given growth rate. *)
Definition dcfProject (currentPrice : option Q)
    (latestFcf sharesOutstanding growth : Q) : DcfResult :=
  let discountRate := 0.10 in
  let terminalGrowth := 0.025 in
  let '(pv, projectedFcf) :=
    fold_left (dcf_year growth discountRate) (seq 1 10) (0, latestFcf) in
  let terminalValue :=
    (projectedFcf * (1 + terminalGrowth))
    / Math_max 0.0001 (discountRate - terminalGrowth) in
  let discountedTerminal := terminalValue / (1 + discountRate) ^ 10 in
  let intrinsicEquityValue := pv + discountedTerminal in
  let intrinsicValuePerShare := intrinsicEquityValue / sharesOutstanding in
  if negb (Number_isFinite intrinsicValuePerShare) || Qleb intrinsicValuePerShare 0
  then {| intrinsicValuePerShare := None; upsidePercent := None |}
  else
    let upsidePercent :=
      match currentPrice with
      | Some currentPrice =>
          if Qltb 0 currentPrice
          then Some (((intrinsicValuePerShare / currentPrice) - 1) * 100)
          else None
      | None => None
      end in
    {| intrinsicValuePerShare := Some intrinsicValuePerShare;
       upsidePercent := upsidePercent |}.

(** The share count [computeDcf] divides by. *)
Definition dcfShares (snapshot : TickerSnapshot) : option Q :=
  sharesOutstanding snapshot
  ?? (match last_elem (quarterlyShares snapshot) with
      | Some q => ordinarySharesNumber q
      | None => None
      end)
  ?? (match last_elem (quarterlyShares snapshot) with
      | Some q => shareIssued q
      | None => None
      end).

Definition computeDcf (snapshot : TickerSnapshot) (fcfSeries : list Q) : DcfResult :=
  if (length fcfSeries <? 2)%nat
  then {| intrinsicValuePerShare := None; upsidePercent := None |}
  else
    let sharesOutstanding := dcfShares snapshot in
    let currentPrice := currentPrice snapshot in
    let latestFcf := last_elem fcfSeries in
    match latestFcf, sharesOutstanding with
    | Some latestFcf, Some sharesOutstanding =>
        if Qleb latestFcf 0 || Qleb sharesOutstanding 0
        then {| intrinsicValuePerShare := None; upsidePercent := None |}
        else dcfProject currentPrice latestFcf sharesOutstanding (dcfGrowth fcfSeries)
    | _, _ => {| intrinsicValuePerShare := None; upsidePercent := None |}
    end.

(** ** QualityScorer *)

Definition normalizedGrowthScore (stats : GrowthStats) (weight : Q) : Q :=
  if (intervals stats <=? 0)%nat then 0
  else (num (positiveCount stats) / num (intervals stats)) * weight.

Definition computeCarlsonScore
    (revenueGrowth netIncomeGrowth epsGrowth : GrowthStats)
    (roicPercent latestFcf fcfGrowthPercent
     sharesChange3yPercent operatingMarginPercent : option Q) : Q :=
  let score := 0 in
  let score := score + normalizedGrowthScore revenueGrowth 20 in
  let score := score + normalizedGrowthScore netIncomeGrowth 20 in
  let score := score + normalizedGrowthScore epsGrowth 10 in
  let score :=
    match roicPercent with
    | Some r => score + clamp ((r - 5) / 20) 0 1 * 20
    | None => score
    end in
  let score :=
    match latestFcf with
    | Some f => if Qltb 0 f then score + 5 else score
    | None => score
    end in
  let score :=
    match fcfGrowthPercent with
    | Some g => score + clamp ((g + 5) / 20) 0 1 * 5
    | None => score
    end in
  let score :=
    match sharesChange3yPercent with
    | Some c => score + clamp ((- c) / 8) 0 1 * 10
    | None => score
    end in
  let score :=
    match operatingMarginPercent with
    | Some m => score + clamp ((m - 10) / 20) 0 1 * 10
    | None => score
    end in
  clamp (Math_round score) 1 100.

Definition buildRow (snapshot : TickerSnapshot) : CompounderRow :=
  let revenueSeries :=
    slice_last 6
      (filter_defined (fun v => Number_isFinite v && Qltb 0 v)
         (map totalRevenue (annualFinancials snapshot))) in
  let netIncomeSeries :=
    slice_last 6
      (filter_defined (fun v => Number_isFinite v)
         (map netIncome (annualFinancials snapshot))) in
  let epsSeries :=
    slice_last 6
      (filter_defined (fun v => Number_isFinite v)
         (map (fun f => dilutedEPS f ?? basicEPS f) (annualFinancials snapshot))) in
  let revenueGrowth := growthStats revenueSeries in
  let netIncomeGrowth := growthStats netIncomeSeries in
  let epsGrowth := growthStats epsSeries in
  let roicPercent := computeRoicPercent snapshot in
  let fcfSeries := computeAnnualFcfSeries snapshot in
  let latestFcf := last_elem fcfSeries in
  let fcfGrowth := growthStats (slice_last 4 fcfSeries) in
  let sharesChange3yPercent := computeSharesChange3y snapshot in
  let operatingMarginPercent := computeOperatingMarginPercent snapshot in
  let yieldMetrics := computeYieldMetrics snapshot in
  let dcf := computeDcf snapshot fcfSeries in
  let carlsonQualityScore :=
    computeCarlsonScore revenueGrowth netIncomeGrowth epsGrowth roicPercent
      latestFcf (cagrPercent fcfGrowth) sharesChange3yPercent
      operatingMarginPercent in
  {| row_ticker := ticker snapshot;
     revenueGrowth := revenueGrowth;
     netIncomeGrowth := netIncomeGrowth;
     epsGrowth := epsGrowth;
     roicPercent := roicPercent;
     latestFcf := latestFcf;
     fcfGrowthPercent := cagrPercent fcfGrowth;
     sharesChange3yPercent := sharesChange3yPercent;
     operatingMarginPercent := operatingMarginPercent;
     currentYieldPercent := ym_currentYieldPercent yieldMetrics;
     avgYield5yPercent := ym_avgYield5yPercent yieldMetrics;
     yieldVs5yAvgPercent := ym_yieldVs5yAvgPercent yieldMetrics;
     dcfIntrinsicValuePerShare := intrinsicValuePerShare dcf;
     dcfUpsidePercent := upsidePercent dcf;
     carlsonQualityScore := carlsonQualityScore |}.

End WithPow.

(** ** FilterEvaluator *)

Definition requiredFromIntervals (intervals : nat) : Q :=
  Math_max 1 (Math_round (num intervals * 0.8)).

Definition evaluateCarlsonFilters (row : CompounderRow) (options : CliOptions)
  : FilterEvaluation :=
  let revenueRequired := requiredFromIntervals (intervals (revenueGrowth row)) in
  let netIncomeRequired := requiredFromIntervals (intervals (netIncomeGrowth row)) in
  let revenuePass :=
    (3 <=? intervals (revenueGrowth row))%nat
    && Qleb revenueRequired (num (positiveCount (revenueGrowth row))) in
  let netIncomePass :=
    (3 <=? intervals (netIncomeGrowth row))%nat
    && Qleb netIncomeRequired (num (positiveCount (netIncomeGrowth row))) in
  let roicPass :=
    match roicPercent row with
    | Some r => Qltb (minRoic options) r
    | None => false
    end in
  let buybackPass :=
    match sharesChange3yPercent row with
    | Some c => Qleb c (- Qabs (minBuybackPercent options))
    | None => false
    end in
  let marginPass :=
    match operatingMarginPercent row with
    | Some m => Qltb (minOperatingMargin options) m
    | None => false
    end in
  {| pass := revenuePass && netIncomePass && roicPass && buybackPass && marginPass;
     revenuePass := revenuePass;
     netIncomePass := netIncomePass;
     roicPass := roicPass;
     buybackPass := buybackPass;
     marginPass := marginPass;
     revenueRequired := revenueRequired;
     netIncomeRequired := netIncomeRequired |}.

(** ** MetricsDeriver: date-keyed deduplication *)

(** [T extends { date: string }]. *)
Class Dated (T : Type) := date : T -> string.

#[global] Instance AnnualFinancialPoint_dated : Dated AnnualFinancialPoint := af_date.
#[global] Instance AnnualBalanceSheetPoint_dated : Dated AnnualBalanceSheetPoint := bs_date.
#[global] Instance AnnualCashFlowPoint_dated : Dated AnnualCashFlowPoint := cf_date.
#[global] Instance QuarterlySharesPoint_dated : Dated QuarterlySharesPoint := qs_date.

(** [Array.prototype.sort(compareFn)]: the specification fixes the result to
    be the stable ordering, which insertion from the right computes. *)
Fixpoint sort_insert {T} (compareFn : T -> T -> comparison) (x : T) (l : list T)
  : list T :=
  match l with
  | [] => [x]
  | y :: l' =>
      match compareFn x y with
      | Gt => y :: sort_insert compareFn x l'
      | _ => x :: l
      end
  end.

Definition Array_sort {T} (compareFn : T -> T -> comparison) (l : list T) : list T :=
  foldr (sort_insert compareFn) [] l.

(** A JavaScript [Map<string, V>]: entries in insertion order, one per key.
    [Map_set] overwrites the value of an existing key in place and appends
    a new key at the end. *)
Fixpoint Map_set {V} (k : string) (v : V) (m : list (string * V)) : list (string * V) :=
  match m with
  | [] => [(k, v)]
  | (k', v') :: m' =>
      if String.eqb k k' then (k, v) :: m' else (k', v') :: Map_set k v m'
  end.

Definition Map_values {V} (m : list (string * V)) : list V := snd <$> m.

Section Dedupe.
Context {T : Type} `{Dated T}.

(** [a.localeCompare(b)], by its sign; supplied by the JavaScript runtime. *)
Variable localeCompare : string -> string -> comparison.

Definition sortByDateAsc (rows : list T) : list T :=
  Array_sort (fun a b => localeCompare (date a) (date b)) rows.

(** The [map] of [dedupeByDate] after its [for (const row of rows)] loop. *)
Definition Map_of_rows (rows : list T) : list (string * T) :=
  fold_left (fun m row => Map_set (date row) row m) rows [].

Definition dedupeByDate (rows : list T) : list T :=
  let map := Map_of_rows rows in
  sortByDateAsc (Map_values map).

(** Ascending order of rows by date: [a] does not compare after [b]. *)
Definition date_le (a b : T) : Prop := localeCompare (date a) (date b) <> Gt.

End Dedupe.

(** ** Effects: clock, cache file, data source, randomness, console *)

(** What a run leaves behind, in order. *)
Inductive Event :=
| ApiRequest (ticker : string)
| Sleep (ms : Q)
| ConsoleError (line : string)
| CacheSave.

(** The text of a [payload_json] column, by what [JSON.parse] makes of it:
    an object with the shape of a snapshot, [null], any other value, or a
    syntax error.  For another value [currentVersion] tells whether it is an
    object whose [schemaVersion] is 1. *)
Inductive PayloadText :=
| ValidPayload (snapshot : TickerSnapshot)
| NullPayload
| ForeignPayload (currentVersion : bool)
| MalformedPayload.

(** What the cache hands out under the type [TickerSnapshot]: the cast of
    [JSON.parse(...) as TickerSnapshot] is not checked. *)
Inductive Cached :=
| CachedSnapshot (snapshot : TickerSnapshot)
| CachedForeign (currentVersion : bool).

(** [cached.schemaVersion === 1]. *)
Definition current_version (cached : Cached) : bool :=
  match cached with
  | CachedSnapshot snapshot => (schemaVersion snapshot =? 1)%Z
  | CachedForeign currentVersion => currentVersion
  end.

(** A row of the [compounder_data] table.  [fetched_at] is
    [new Date(row.fetched_at).getTime()] in epoch milliseconds, [None] when
    the text is not a date and the time is NaN. *)
Record CacheRecord := {
  payload_json : PayloadText;
  fetched_at : option Z
}.

(** The result of one request batch against the data source. *)
Inductive ApiOutcome :=
| ApiData (snapshot : TickerSnapshot)
| ApiError (message : string).

(** The world of a run.  [write_error n] is the error [writeFileSync]
    throws at the [n]-th write of the cache file, if it throws. *)
Record World := {
  clock : Z;
  db : option (gmap string CacheRecord);
  api : string -> nat -> ApiOutcome;
  api_calls : nat;
  random : nat -> Q;
  random_calls : nat;
  write_error : nat -> option string;
  writes : nat;
  events : list Event
}.

(** How an [async] function ends: a value or a thrown error. *)
Inductive Outcome (A : Type) :=
| Return (a : A)
| Throw (message : string).
Arguments Return {A} a.
Arguments Throw {A} message.

Definition Async (A : Type) : Type := World -> Outcome A * World.

#[global] Instance Async_ret : MRet Async := fun A a w => (Return a, w).

#[global] Instance Async_bind : MBind Async := fun A B f c w =>
  match c w with
  | (Return a, w') => f a w'
  | (Throw message, w') => (Throw message, w')
  end.


Definition throw {A} (message : string) : Async A := fun w => (Throw message, w).

(** [try { body } catch (error) { handler(error.message) }]. *)
Definition try_catch {A} (body : Async A) (handler : string -> Async A) : Async A :=
  fun w =>
    match body w with
    | (Return a, w') => (Return a, w')
    | (Throw message, w') => handler message w'
    end.

(** The world after one more event, one more draw of the generator, one
    more answer of the data source, one more write of the file, or a change
    of the table. *)
Definition add_event (e : Event) (w : World) : World :=
  {| clock := clock w; db := db w; api := api w; api_calls := api_calls w;
     random := random w; random_calls := random_calls w;
     write_error := write_error w; writes := writes w;
     events := events w ++ [e] |}.

Definition next_random (w : World) : World :=
  {| clock := clock w; db := db w; api := api w; api_calls := api_calls w;
     random := random w; random_calls := S (random_calls w);
     write_error := write_error w; writes := writes w;
     events := events w |}.

Definition next_api_call (w : World) : World :=
  {| clock := clock w; db := db w; api := api w; api_calls := S (api_calls w);
     random := random w; random_calls := random_calls w;
     write_error := write_error w; writes := writes w;
     events := events w |}.

Definition next_write (w : World) : World :=
  {| clock := clock w; db := db w; api := api w; api_calls := api_calls w;
     random := random w; random_calls := random_calls w;
     write_error := write_error w; writes := S (writes w);
     events := events w |}.

Definition with_db (d : option (gmap string CacheRecord)) (w : World) : World :=
  {| clock := clock w; db := d; api := api w; api_calls := api_calls w;
     random := random w; random_calls := random_calls w;
     write_error := write_error w; writes := writes w;
     events := events w |}.

Definition emit (e : Event) : Async unit := fun w => (Return (), add_event e w).

Definition sleep (ms : Q) : Async unit := emit (Sleep ms).

Definition console_error (line : string) : Async unit := emit (ConsoleError line).

Definition Date_now : Async Z := fun w => (Return (clock w), w).

(** [Math.random()]: the next value of the generator, in [0, 1). *)
Definition Math_random : Async Q := fun w =>
  (Return (random w (random_calls w)), next_random w).

Definition get_db : Async (option (gmap string CacheRecord)) := fun w =>
  (Return (db w), w).

Definition put_db (d : option (gmap string CacheRecord)) : Async unit := fun w =>
  (Return (), with_db d w).

(** The next answer of the data source for [ticker]. *)
Definition api_next (ticker : string) : Async ApiOutcome := fun w =>
  (Return (api w ticker (api_calls w)), next_api_call w).

(** [JSON.parse(row.payload_json) as TickerSnapshot]; [None] is [null]. *)
Definition JSON_parse (t : PayloadText) : Async (option Cached) :=
  match t with
  | ValidPayload snapshot => mret (Some (CachedSnapshot snapshot))
  | NullPayload => mret None
  | ForeignPayload currentVersion => mret (Some (CachedForeign currentVersion))
  | MalformedPayload => throw "SyntaxError: JSON Parse error"
  end.

(** [writeFileSync(this.dbPath, buffer)]: the write is attempted, and may
    throw. *)
Definition writeFileSync : Async unit := fun w =>
  (match write_error w (writes w) with
   | None => Return ()
   | Some message => Throw message
   end,
   next_write (add_event CacheSave w)).

(** ** SnapshotCache and RetryingFetcher *)

Section Fetcher.

(** The fields of [CompounderDataCache] and [StockDataFetcher]. *)
Variable ttlMs : Q.
Variable requestDelayMs : Q.
Variable maxRetries : nat.

(** [age > this.ttlMs] for the age [now - fetched_at]: a comparison with
    NaN is false. *)
Definition too_old (now : Z) (row : CacheRecord) : bool :=
  match fetched_at row with
  | Some fetched => Qltb ttlMs (inject_Z (now - fetched))
  | None => false
  end.

(** [CompounderDataCache.get].  [stmt.free()] in the [finally] block has no
    effect on the result: an error thrown inside [try] still propagates. *)
Definition CompounderDataCache_get (ticker : string) : Async (option Cached) :=
  d ← get_db;
  match d with
  | None => mret None
  | Some table =>
      match table !! ticker with
      | None => mret None
      | Some row =>
          now ← Date_now;
          if too_old now row then mret None
          else JSON_parse (payload_json row)
      end
  end.

(** [CompounderDataCache.save]. *)
Definition CompounderDataCache_save : Async unit :=
  d ← get_db;
  match d with
  | None => mret ()
  | Some _ => writeFileSync
  end.

(** [CompounderDataCache.set]: upsert with the current time, then save. *)
Definition CompounderDataCache_set (ticker : string) (snapshot : TickerSnapshot)
  : Async unit :=
  d ← get_db;
  match d with
  | None => mret ()
  | Some table =>
      now ← Date_now;
      put_db (Some (<[ticker := {| payload_json := ValidPayload snapshot;
                                   fetched_at := Some now |}]> table));;
      CompounderDataCache_save
  end.

(** [fetchFromApi]: issue the requests, wait [requestDelayMs], then either
    all requests succeeded and the normalized snapshot is returned, or one of
    them failed and its error is thrown. *)
Definition fetchFromApi (ticker : string) : Async TickerSnapshot :=
  emit (ApiRequest ticker);;
  sleep requestDelayMs;;
  outcome ← api_next ticker;
  match outcome with
  | ApiData snapshot => mret snapshot
  | ApiError message => throw message
  end.

(** The line [fetchWithRetry] logs when it gives up. *)
Definition failure_line (ticker message : string) : string :=
  "  " +:+ ticker +:+ ": failed after retries (" +:+ message +:+ ")".

(** The [while (attempt <= this.maxRetries)] loop of [fetchWithRetry];
    [remaining] is [maxRetries + 1 - attempt], the number of iterations the
    loop condition still admits. *)
Fixpoint fetchWithRetry_loop (ticker : string) (remaining attempt : nat)
  : Async (option TickerSnapshot) :=
  match remaining with
  | O => mret None
  | S remaining' =>
      try_catch
        (data ← fetchFromApi ticker; mret (Some data))
        (fun message =>
           let isLast := (maxRetries <=? attempt)%nat in
           if isLast then
             console_error (failure_line ticker message);;
             mret None
           else
             r ← Math_random;
             let backoff :=
               Math_round (requestDelayMs * 2 ^ Z.of_nat attempt + r * 250) in
             sleep backoff;;
             fetchWithRetry_loop ticker remaining' (S attempt))
  end.

Definition fetchWithRetry (ticker : string) : Async (option TickerSnapshot) :=
  fetchWithRetry_loop ticker (S maxRetries) 0.

(** The tail of [fetchTickerSnapshot], taken on a cache miss. *)
Definition fetchAndStore (ticker : string) : Async (option Cached) :=
  snapshot ← fetchWithRetry ticker;
  match snapshot with
  | Some s => CompounderDataCache_set ticker s;; mret (Some (CachedSnapshot s))
  | None => mret None
  end.

Definition fetchTickerSnapshot (ticker : string) : Async (option Cached) :=
  cached ← CompounderDataCache_get ticker;
  match cached with
  | Some c =>
      if current_version c then mret (Some c) else fetchAndStore ticker
  | None => fetchAndStore ticker
  end.

End Fetcher.

(** ** ConcurrencyLimiter *)

(** [Math.max(1, concurrency)]: NaN when [concurrency] is NaN. *)
Definition safeConcurrency (concurrency : JsNum) : JsNum :=
  match concurrency with
  | JsFinite v => JsFinite (Math_max 1 v)
  | JsNaN => JsNaN
  | JsInfinity negative => if negative then JsFinite 1 else JsInfinity false
  end.

(** The number of elements of [Array.from({ length }, ...)]: [length]
    truncated to an integer, NaN and negative values counting as 0; [None]
    where creating the array throws a RangeError, the length exceeding
    [2^32 - 1]. *)
Definition Array_from_length (length : JsNum) : option nat :=
  match length with
  | JsFinite v =>
      let n := Q_truncate v in
      if (n <=? 0)%Z then Some 0%nat
      else if (n <=? 4294967295)%Z then Some (Z.to_nat n)
      else None
  | JsNaN => Some 0%nat
  | JsInfinity negative => if negative then Some 0%nat else None
  end.

(** Where one of the [runners] of [mapWithConcurrency] stands: about to test
    the loop condition, suspended in [await worker(items[current], current)],
    returned, or ended by the rejection of the call it awaited. *)
Inductive Runner :=
| Ready
| Awaiting (current : nat)
| Finished
| Rejected.

#[global] Instance Runner_eq_dec : EqDecision Runner.
Proof. solve_decision. Defined.

Section Pool.
Context {T : Type} (items : list T).

(** Whether the call [worker(items[i], i)] ends in a rejection. *)
Variable rejects : nat -> bool.

(** [nextIndex] is the shared cursor; [invoked] lists the calls
    [worker(items[current], current)] in the order they were made, [settled]
    the indices whose call has been fulfilled, in completion order, and
    [failed] those whose call has been rejected. *)
Record Pool := {
  nextIndex : nat;
  runners : list Runner;
  invoked : list (option T * nat);
  settled : list nat;
  failed : list nat
}.

(** The pool of [n] runners before any of them has moved. *)
Definition initial_pool (n : nat) : Pool :=
  {| nextIndex := 0;
     runners := replicate n Ready;
     invoked := [];
     settled := [];
     failed := [] |}.

(** The start of [mapWithConcurrency]; [None] when [Array.from] throws. *)
Definition mapWithConcurrency_init (concurrency : JsNum) : option Pool :=
  initial_pool <$> Array_from_length (safeConcurrency concurrency).

(** Runner [r] runs until its next suspension point.  JavaScript is
    single-threaded: the test [nextIndex < items.length], the claim
    [current = nextIndex++] and the call of [worker] happen without
    interruption.  There is no [try] around the [await]: a rejected call
    ends the runner. *)
Definition runner_step (r : nat) (p : Pool) : option Pool :=
  match runners p !! r with
  | Some Ready =>
      if (nextIndex p <? length items)%nat then
        let current := nextIndex p in
        Some {| nextIndex := S (nextIndex p);
                runners := <[r := Awaiting current]> (runners p);
                invoked := invoked p ++ [(items !! current, current)];
                settled := settled p;
                failed := failed p |}
      else
        Some {| nextIndex := nextIndex p;
                runners := <[r := Finished]> (runners p);
                invoked := invoked p;
                settled := settled p;
                failed := failed p |}
  | Some (Awaiting current) =>
      if rejects current then
        Some {| nextIndex := nextIndex p;
                runners := <[r := Rejected]> (runners p);
                invoked := invoked p;
                settled := settled p;
                failed := failed p ++ [current] |}
      else
        Some {| nextIndex := nextIndex p;
                runners := <[r := Ready]> (runners p);
                invoked := invoked p;
                settled := settled p ++ [current];
                failed := failed p |}
  | Some Finished => None
  | Some Rejected => None
  | None => None
  end.

(** One scheduling step: some runner advances. *)
Definition pool_step (p p' : Pool) : Prop := ∃ r, runner_step r p = Some p'.

(** [await Promise.all(runners)] has resolved: every runner has returned. *)
Definition all_finished (p : Pool) : Prop := Forall (eq Finished) (runners p).


(** A schedule names the runner that advances at each step. *)
Fixpoint run_schedule (schedule : list nat) (p : Pool) : option Pool :=
  match schedule with
  | [] => Some p
  | r :: schedule' =>
      match runner_step r p with
      | Some p' => run_schedule schedule' p'
      | None => None
      end
  end.



(** The indices whose [worker] call is still pending. *)
Definition awaited (r : Runner) : option nat :=
  match r with Awaiting current => Some current | _ => None end.

Definition awaiting_indices (rs : list Runner) : list nat := omap awaited rs.

Definition is_rejected (r : Runner) : bool :=
  match r with Rejected => true | _ => false end.

(** What every reachable pool state satisfies: the calls made so far are
    those for the indices below the cursor, in order; each of these indices
    is either fulfilled, rejected or awaited by exactly one runner; a runner
    only returns once the cursor has reached the end; and the runners ended
    by a rejection are as many as the rejected calls. *)
Record pool_invariant (p : Pool) : Prop := {
  inv_cursor : (nextIndex p <= length items)%nat;
  inv_invoked : invoked p = (fun i => (items !! i, i)) <$> seq 0 (nextIndex p);
  inv_pending :
    settled p ++ failed p ++ awaiting_indices (runners p) ≡ₚ seq 0 (nextIndex p);
  inv_finished : Finished ∈ runners p -> nextIndex p = length items;
  inv_settled : Forall (fun i => rejects i = false) (settled p);
  inv_failed : Forall (fun i => rejects i = true) (failed p);
  inv_rejected : length (failed p) = length (List.filter is_rejected (runners p))
}.

End Pool.

(** ** Reference definitions

    What the properties below are stated with. *)

(** The consecutive pairs [(earlier, later)] of a series. *)
Definition consecutive_pairs (values : list Q) : list (Q * Q) :=
  zip values (tail values).

(** The number of consecutive pairs whose later value strictly exceeds the
    earlier one, as the specification words [positiveCount]. *)
Definition rising_pairs (values : list Q) : nat :=
  length (List.filter (fun p => Qltb (fst p) (snd p)) (consecutive_pairs values)).



(** The record stored for a ticker, if the database is open and has one. *)
Definition cache_record (w : World) (ticker : string) : option CacheRecord :=
  match db w with
  | Some table => table !! ticker
  | None => None
  end.


(** The growth assumption as the specification words it: the CAGR of the
    trailing up to 3 positive FCF points if at least 2 such points exist,
    else 4%; clamped to [-5%, 20%]. *)
Definition dcfGrowth_as_stated (Math_pow : Q -> Q -> Q) (fcfSeries : list Q) : Q :=
  let positive := List.filter (fun v => Qltb 0 v) fcfSeries in
  let trailing := skipn (length positive - 3) positive in
  let growth :=
    match trailing with
    | first :: _ :: _ =>
        Math_pow (List.last trailing 0 / first) (1 / num (length trailing - 1)) - 1
    | _ => 0.04
    end in
  Math_max (-0.05) (Math_min 0.20 growth).

(** The cash flow projected for a year: the latest FCF grown once per year. *)
Fixpoint projected_fcf (latestFcf growth : Q) (year : nat) : Q :=
  match year with
  | O => latestFcf
  | S earlier => projected_fcf latestFcf growth earlier * (1 + growth)
  end.

(** The value today of the cash flows of the years 1 to [years], each
    discounted at 10% a year. *)
Fixpoint present_value (latestFcf growth : Q) (years : nat) : Q :=
  match years with
  | O => 0
  | S earlier =>
      present_value latestFcf growth earlier
      + projected_fcf latestFcf growth years / (1 + 0.10) ^ Z.of_nat years
  end.

(** The intrinsic value per share as the specification words it: ten
    projected years discounted at 10%, plus the Gordon terminal value at a
    terminal growth of 2.5% on the cash flow of year 10, discounted back ten
    years, the total divided by the shares outstanding. *)
Definition intrinsic_value_as_stated (latestFcf shares growth : Q) : Q :=
  (present_value latestFcf growth 10
   + projected_fcf latestFcf growth 10 * (1 + 0.025) / (0.10 - 0.025)
     / (1 + 0.10) ^ 10)
  / shares.

(** ** Concrete inputs *)

(** [Math.pow] on integral exponents, where it is exact.  The statements
    evaluated with it either have an integral exponent or do not depend on
    the value of the power. *)
Definition Math_pow_integral (x y : Q) : Q := x ^ Qfloor y.

Definition financial_year (d : string) (revenue income : Q) : AnnualFinancialPoint :=
  {| af_date := d; totalRevenue := Some revenue; netIncome := Some income;
     dilutedEPS := None; basicEPS := None; dilutedAverageShares := None |}.

Definition cash_flow_year (d : string) (ocf capex fcf : option Q) : AnnualCashFlowPoint :=
  {| cf_date := d; operatingCashFlow := ocf; capitalExpenditure := capex;
     freeCashFlow := fcf |}.

(** The snapshot of the end-to-end scenario: four fiscal years. *)
Definition scenario_snapshot : TickerSnapshot :=
  {| schemaVersion := 1;
     ticker := "ACME";
     annualFinancials :=
       [financial_year "2020-12-31" 100 10;
        financial_year "2021-12-31" 110 (-5);
        financial_year "2022-12-31" 121 12;
        financial_year "2023-12-31" 133 15];
     annualBalanceSheet := [];
     annualCashFlow :=
       [cash_flow_year "2022-12-31" (Some 200) (Some (-50)) None;
        cash_flow_year "2023-12-31" (Some 200) (Some 50) None];
     quarterlyShares := [];
     operatingMargins := Some 1;
     dividendYield := Some 1;
     sharesOutstanding := Some 1000;
     currentPrice := Some 10;
     marketCap := None;
     yearlyDividendYields := [] |}.

(** The defaults of [parseArgs]. *)
Definition default_options : CliOptions :=
  {| market := us; tickers := None; maxTickers := None; topN := 25;
     concurrency := JsFinite 4; format := text; dbPath := "sec_cache.db"; ttlDays := 7;
     minRoic := 15; minOperatingMargin := 20; minBuybackPercent := 2;
     showRejected := false |}.

(** A row that sits on all three thresholds of [default_options]. *)
Definition boundary_row : CompounderRow :=
  {| row_ticker := "EDGE";
     revenueGrowth := {| positiveCount := 3; intervals := 3; cagrPercent := None |};
     netIncomeGrowth := {| positiveCount := 3; intervals := 3; cagrPercent := None |};
     epsGrowth := {| positiveCount := 0; intervals := 0; cagrPercent := None |};
     roicPercent := Some 15;
     latestFcf := None;
     fcfGrowthPercent := None;
     sharesChange3yPercent := Some (-2);
     operatingMarginPercent := Some 20;
     currentYieldPercent := None;
     avgYield5yPercent := None;
     yieldVs5yAvgPercent := None;
     dcfIntrinsicValuePerShare := None;
     dcfUpsidePercent := None;
     carlsonQualityScore := 1 |}.

(** The order of UTF-16 code units.  On the canonical [YYYY-MM-DD] dates
    that [normalizeDate] produces, [localeCompare] agrees with it. *)
Definition code_unit_compare (a b : string) : comparison := String.compare a b.

(** Ten tickers for a pool of three workers, and one interleaving of the
    three runners that drains them. *)
Definition ten_tickers : list string :=
  ["AAPL"; "MSFT"; "NVDA"; "GOOGL"; "AMZN"; "META"; "TSLA"; "AVGO"; "COST"; "ADBE"].


(** Rows as they leave [toAnnualCashFlowPoints]: two reports for 2022, the
    later one restated, and one for 2021 that arrived last. *)
Definition raw_cash_flow_rows : list AnnualCashFlowPoint :=
  [{| cf_date := "2022-12-31"; operatingCashFlow := Some 200;
      capitalExpenditure := Some (-50); freeCashFlow := None |};
   {| cf_date := "2022-12-31"; operatingCashFlow := Some 210;
      capitalExpenditure := Some (-50); freeCashFlow := None |};
   {| cf_date := "2021-12-31"; operatingCashFlow := Some 180;
      capitalExpenditure := Some (-40); freeCashFlow := None |}].

(** Seven days in milliseconds, the default [ttlMs]. *)
Definition week_ms : Q := 7 * 24 * 60 * 60 * 1000.

(** A data source that rejects every request, with a generator stuck just
    below 1. *)
Definition failing_world : World :=
  {| clock := 1000;
     db := Some ∅;
     api := fun _ _ => ApiError "Too Many Requests";
     api_calls := 0;
     random := fun _ => 0.999;
     random_calls := 0;
     write_error := fun _ => None;
     writes := 0;
     events := [] |}.



(** * The rest of the pipeline *)

(** ** Raw values of the data source *)

(** A field of a raw row: absent, a number, or a value of another type. *)
Inductive JsValue :=
| JsUndefined
| JsNumber (n : JsNum)
| JsOther.

Definition toNumber (value : JsValue) : option Q :=
  match value with
  | JsNumber (JsFinite v) => Some v
  | _ => None
  end.

(** The [date] field of a raw row: [Date | number | string | undefined].  A
    [Date] is given by its [getTime()], [None] standing for NaN. *)
Inductive RawDate :=
| NoDate
| DateObject (time : option Z)
| DateNumber (value : JsNum)
| DateString (value : string).

Record RawFundamentalsPoint := {
  raw_date : RawDate;
  raw_totalRevenue : JsValue;
  raw_operatingRevenue : JsValue;
  raw_netIncome : JsValue;
  raw_netIncomeCommonStockholders : JsValue;
  raw_dilutedEPS : JsValue;
  raw_basicEPS : JsValue;
  raw_dilutedAverageShares : JsValue;
  raw_stockholdersEquity : JsValue;
  raw_longTermDebt : JsValue;
  raw_longTermDebtAndCapitalLeaseObligation : JsValue;
  raw_totalDebt : JsValue;
  raw_cashAndCashEquivalents : JsValue;
  raw_cashCashEquivalentsAndShortTermInvestments : JsValue;
  raw_operatingCashFlow : JsValue;
  raw_capitalExpenditure : JsValue;
  raw_freeCashFlow : JsValue;
  raw_ordinarySharesNumber : JsValue;
  raw_shareIssued : JsValue
}.

Record HistoricalPoint := {
  hp_date : RawDate;
  hp_close : JsValue;
  hp_dividends : JsValue
}.

(** [!value] for a number: zero and NaN are falsy. *)
Definition JsNum_falsy (n : JsNum) : bool :=
  match n with
  | JsFinite v => Qeq_bool v 0
  | JsNaN => true
  | JsInfinity _ => false
  end.

(** [value > bound] for a finite [bound]. *)
Definition JsNum_gt (n : JsNum) (bound : Q) : bool :=
  match n with
  | JsFinite v => Qltb bound v
  | JsNaN => false
  | JsInfinity negative => negb negative
  end.

(** [value * factor] for a positive finite [factor]. *)
Definition JsNum_scale (n : JsNum) (factor : Q) : JsNum :=
  match n with
  | JsFinite v => JsFinite (v * factor)
  | other => other
  end.

(** [new Date(millis).getTime()]: the time value is clipped to
    [-8.64e15, 8.64e15] and truncated to an integer; outside that range, or
    for NaN and the infinities, the date is invalid. *)
Definition Date_of_millis (millis : JsNum) : option Z :=
  match millis with
  | JsFinite v =>
      if Qltb 8640000000000000 (Qabs v) then None else Some (Q_truncate v)
  | _ => None
  end.

(** [o === undefined]. *)
Definition undefined_ {A} (o : option A) : bool :=
  match o with None => true | Some _ => false end.

(** The fields [fetchFromApi] reads from the quote summary; a field whose
    enclosing module is missing is [JsUndefined]. *)
Record QuoteSummarySubset := {
  financialData_operatingMargins : JsValue;
  financialData_currentPrice : JsValue;
  defaultKeyStatistics_sharesOutstanding : JsValue;
  summaryDetail_dividendYield : JsValue;
  summaryDetail_marketCap : JsValue;
  price_regularMarketPrice : JsValue
}.

(** ** MetricsDeriver: normalization of raw rows *)

Section Normalizer.

(** [date.toISOString().slice(0, 10)] of a valid date, by its time value;
    [new Date(text).getTime()] of a string, [None] standing for NaN;
    [date.getUTCFullYear()]; and [localeCompare]. *)
Variable isoDay : Z -> string.
Variable Date_parse : string -> option Z.
Variable getUTCFullYear : Z -> Z.
Variable localeCompare : string -> string -> comparison.

Definition normalizeDate (value : RawDate) : option string :=
  match value with
  | NoDate => None
  | DateObject time =>
      match time with
      | None => None
      | Some t => Some (isoDay t)
      end
  | DateNumber value =>
      if JsNum_falsy value then None
      else
        let millis :=
          if JsNum_gt value 1000000000000 then value
          else JsNum_scale value 1000 in
        match Date_of_millis millis with
        | None => None
        | Some t => Some (isoDay t)
        end
  | DateString value =>
      if String.eqb value "" then None
      else
        match Date_parse value with
        | None => None
        | Some t => Some (isoDay t)
        end
  end.

(** [normalizeDate(row.date)] followed by [if (!date) continue]: the date of
    a row that is kept. *)
Definition row_date (row : RawFundamentalsPoint) : option string :=
  match normalizeDate (raw_date row) with
  | Some date => if String.eqb date "" then None else Some date
  | None => None
  end.

(** The loop shared by the four [to...Points] functions: [point] is the loop
    body, [None] where it [continue]s and the pushed point otherwise. *)
Definition collect_points {P} (point : RawFundamentalsPoint -> option P)
    (raw : list RawFundamentalsPoint) : list P :=
  fold_left (fun points row =>
               match point row with
               | Some p => points ++ [p]
               | None => points
               end) raw [].

Definition financial_point (row : RawFundamentalsPoint)
  : option AnnualFinancialPoint :=
  match row_date row with
  | None => None
  | Some date =>
      let totalRevenue :=
        toNumber (raw_totalRevenue row) ?? toNumber (raw_operatingRevenue row) in
      let netIncome :=
        toNumber (raw_netIncomeCommonStockholders row)
        ?? toNumber (raw_netIncome row) in
      let dilutedEPS := toNumber (raw_dilutedEPS row) in
      let basicEPS := toNumber (raw_basicEPS row) in
      let dilutedAverageShares := toNumber (raw_dilutedAverageShares row) in
      if undefined_ totalRevenue && undefined_ netIncome && undefined_ dilutedEPS
         && undefined_ basicEPS && undefined_ dilutedAverageShares
      then None
      else Some {| af_date := date;
                   totalRevenue := totalRevenue;
                   netIncome := netIncome;
                   dilutedEPS := dilutedEPS;
                   basicEPS := basicEPS;
                   dilutedAverageShares := dilutedAverageShares |}
  end.

Definition toAnnualFinancialPoints (raw : list RawFundamentalsPoint)
  : list AnnualFinancialPoint :=
  dedupeByDate localeCompare (collect_points financial_point raw).

Definition balance_sheet_point (row : RawFundamentalsPoint)
  : option AnnualBalanceSheetPoint :=
  match row_date row with
  | None => None
  | Some date =>
      let stockholdersEquity := toNumber (raw_stockholdersEquity row) in
      let longTermDebt := toNumber (raw_longTermDebt row) in
      let longTermDebtAndCapitalLeaseObligation :=
        toNumber (raw_longTermDebtAndCapitalLeaseObligation row) in
      let totalDebt := toNumber (raw_totalDebt row) in
      let cashAndCashEquivalents := toNumber (raw_cashAndCashEquivalents row) in
      let cashCashEquivalentsAndShortTermInvestments :=
        toNumber (raw_cashCashEquivalentsAndShortTermInvestments row) in
      if undefined_ stockholdersEquity && undefined_ longTermDebt
         && undefined_ longTermDebtAndCapitalLeaseObligation
         && undefined_ totalDebt && undefined_ cashAndCashEquivalents
         && undefined_ cashCashEquivalentsAndShortTermInvestments
      then None
      else Some {| bs_date := date;
                   stockholdersEquity := stockholdersEquity;
                   longTermDebt := longTermDebt;
                   longTermDebtAndCapitalLeaseObligation :=
                     longTermDebtAndCapitalLeaseObligation;
                   totalDebt := totalDebt;
                   cashAndCashEquivalents := cashAndCashEquivalents;
                   cashCashEquivalentsAndShortTermInvestments :=
                     cashCashEquivalentsAndShortTermInvestments |}
  end.

Definition toAnnualBalanceSheetPoints (raw : list RawFundamentalsPoint)
  : list AnnualBalanceSheetPoint :=
  dedupeByDate localeCompare (collect_points balance_sheet_point raw).

Definition cash_flow_point (row : RawFundamentalsPoint)
  : option AnnualCashFlowPoint :=
  match row_date row with
  | None => None
  | Some date =>
      let operatingCashFlow := toNumber (raw_operatingCashFlow row) in
      let capitalExpenditure := toNumber (raw_capitalExpenditure row) in
      let freeCashFlow := toNumber (raw_freeCashFlow row) in
      if undefined_ operatingCashFlow && undefined_ capitalExpenditure
         && undefined_ freeCashFlow
      then None
      else Some {| cf_date := date;
                   operatingCashFlow := operatingCashFlow;
                   capitalExpenditure := capitalExpenditure;
                   freeCashFlow := freeCashFlow |}
  end.

Definition toAnnualCashFlowPoints (raw : list RawFundamentalsPoint)
  : list AnnualCashFlowPoint :=
  dedupeByDate localeCompare (collect_points cash_flow_point raw).

Definition quarterly_shares_point (row : RawFundamentalsPoint)
  : option QuarterlySharesPoint :=
  match row_date row with
  | None => None
  | Some date =>
      let ordinarySharesNumber := toNumber (raw_ordinarySharesNumber row) in
      let shareIssued := toNumber (raw_shareIssued row) in
      if undefined_ ordinarySharesNumber && undefined_ shareIssued
      then None
      else Some {| qs_date := date;
                   ordinarySharesNumber := ordinarySharesNumber;
                   shareIssued := shareIssued |}
  end.

Definition toQuarterlySharesPoints (raw : list RawFundamentalsPoint)
  : list QuarterlySharesPoint :=
  dedupeByDate localeCompare (collect_points quarterly_shares_point raw).

(** *** Yearly dividend yield *)

(** An entry of the [byYear] map of [computeYearlyDividendYields]. *)
Record YearTotals := {
  closeSum : Q;
  closeCount : nat;
  divSum : Q
}.

(** The [byYear] map, entries in insertion order.  [byYear_update year f]
    creates the entry of [year] with zero totals when it is missing and then
    applies [f] to it in place. *)
Fixpoint byYear_update (year : Z) (f : YearTotals -> YearTotals)
    (m : list (Z * YearTotals)) : list (Z * YearTotals) :=
  match m with
  | [] => [(year, f {| closeSum := 0; closeCount := 0; divSum := 0 |})]
  | (y, totals) :: m' =>
      if (y =? year)%Z then (y, f totals) :: m'
      else (y, totals) :: byYear_update year f m'
  end.

(** What one observation adds to the totals of its year. *)
Definition add_observation (close : option Q) (dividends : Q)
    (row : YearTotals) : YearTotals :=
  let row :=
    match close with
    | Some close =>
        if Qltb 0 close
        then {| closeSum := closeSum row + close;
                closeCount := closeCount row + 1;
                divSum := divSum row |}
        else row
    | None => row
    end in
  {| closeSum := closeSum row;
     closeCount := closeCount row;
     divSum := divSum row + dividends |}.

(** The body of the [for (const item of history)] loop. *)
Definition byYear_step (byYear : list (Z * YearTotals)) (item : HistoricalPoint)
  : list (Z * YearTotals) :=
  match hp_date item with
  | DateObject (Some t) =>
      let year := getUTCFullYear t in
      let close := toNumber (hp_close item) in
      let dividends := default 0 (toNumber (hp_dividends item)) in
      byYear_update year (add_observation close dividends) byYear
  | _ => byYear
  end.

(** The body of the [for (const [year, row] of byYear.entries())] loop. *)
Definition yield_step (result : list YieldYearPoint) (entry : Z * YearTotals)
  : list YieldYearPoint :=
  let '(year, row) := entry in
  if (closeCount row =? 0)%nat then result
  else
    let avgPrice := closeSum row / num (closeCount row) in
    if Qleb avgPrice 0 then result
    else result ++ [{| year := year; yield := divSum row / avgPrice |}].

Definition computeYearlyDividendYields (history : list HistoricalPoint)
  : list YieldYearPoint :=
  let byYear := fold_left byYear_step history [] in
  let result := fold_left yield_step byYear [] in
  let result := Array_sort (fun a b => (year a ?= year b)%Z) result in
  slice_last 5 result.

(** The snapshot [fetchFromApi] returns once all six requests have
    resolved. *)
Definition fetchFromApi_snapshot (ticker : string)
    (quoteSummary : QuoteSummarySubset)
    (annualFinancialsRaw annualBalanceSheetRaw annualCashFlowRaw
     quarterlyBalanceSheetRaw : list RawFundamentalsPoint)
    (history : list HistoricalPoint) : TickerSnapshot :=
  let annualFinancials := toAnnualFinancialPoints annualFinancialsRaw in
  let annualBalanceSheet := toAnnualBalanceSheetPoints annualBalanceSheetRaw in
  let annualCashFlow := toAnnualCashFlowPoints annualCashFlowRaw in
  let quarterlyShares := toQuarterlySharesPoints quarterlyBalanceSheetRaw in
  let yearlyDividendYields := computeYearlyDividendYields history in
  let operatingMargins := toNumber (financialData_operatingMargins quoteSummary) in
  let dividendYield := toNumber (summaryDetail_dividendYield quoteSummary) in
  let sharesOutstanding :=
    toNumber (defaultKeyStatistics_sharesOutstanding quoteSummary) in
  let currentPrice :=
    toNumber (price_regularMarketPrice quoteSummary)
    ?? toNumber (financialData_currentPrice quoteSummary) in
  let marketCap := toNumber (summaryDetail_marketCap quoteSummary) in
  {| schemaVersion := 1;
     ticker := ticker;
     annualFinancials := annualFinancials;
     annualBalanceSheet := annualBalanceSheet;
     annualCashFlow := annualCashFlow;
     quarterlyShares := quarterlyShares;
     operatingMargins := operatingMargins;
     dividendYield := dividendYield;
     sharesOutstanding := sharesOutstanding;
     currentPrice := currentPrice;
     marketCap := marketCap;
     yearlyDividendYields := yearlyDividendYields |}.

End Normalizer.

(** ** SnapshotCache: closing *)


(** ** Orchestrator *)

(** The tickers [runCompoundingMachine] scans: the explicit list when it is
    not empty, else the market universe; cut to [maxTickers] when given. *)
Definition selectedTickers (options : CliOptions) (universe : list string)
  : list string :=
  let tickers :=
    match tickers options with
    | Some explicit => if (0 <? length explicit)%nat then explicit else universe
    | None => universe
    end in
  match maxTickers options with
  | Some n => take n tickers
  | None => tickers
  end.

(** What the callback of [runCompoundingMachine] does with the outcome of
    [fetchTickerSnapshot]: the state is [(rows, diagnostics)]. *)
Definition collect_row (Math_pow : Q -> Q -> Q) (options : CliOptions)
    (state : list CompounderRow * list (CompounderRow * FilterEvaluation))
    (snapshot : option TickerSnapshot)
  : list CompounderRow * list (CompounderRow * FilterEvaluation) :=
  match snapshot with
  | None => state
  | Some snapshot =>
      let row := buildRow Math_pow snapshot in
      let evaluation := evaluateCarlsonFilters row options in
      let rows := if pass evaluation then fst state ++ [row] else fst state in
      let diagnostics :=
        if showRejected options || negb (undefined_ (tickers options))
        then snd state ++ [(row, evaluation)]
        else snd state in
      (rows, diagnostics)
  end.

(** [rows.sort((a, b) => b.carlsonQualityScore - a.carlsonQualityScore)]
    followed by [rows.slice(0, options.topN)], for a [topN] that is a
    non-negative integer. *)
Definition rankTopRows (topN : nat) (rows : list CompounderRow)
  : list CompounderRow :=
  take topN
    (Array_sort (fun a b => carlsonQualityScore b ?= carlsonQualityScore a) rows).

(** The [qualified] count and the [results] of a run whose callbacks
    received the snapshots [fetched], in the order in which they completed. *)
Definition run_results (Math_pow : Q -> Q -> Q) (options : CliOptions)
    (fetched : list (option TickerSnapshot)) : nat * list CompounderRow :=
  let rows := fst (fold_left (collect_row Math_pow options) fetched ([], [])) in
  (length rows, rankTopRows (topN options) rows).

(** ** Table rendering *)

(** A string as its sequence of UTF-16 code units. *)
Definition CodeUnit := N.

(** [padEnd] without a fill string pads with the space U+0020. *)
Definition padEnd (value : list CodeUnit) (width : nat) : list CodeUnit :=
  value ++ replicate (width - length value) 32%N.

Definition pad (value : list CodeUnit) (width : nat) : list CodeUnit :=
  if (width <=? length value)%nat then take width value
  else padEnd value width.

(** ** Further reference definitions *)

(** The first successful answer among the next [attempts] answers of the data
    source, starting with answer number [next]. *)
Fixpoint first_data (answers : nat -> ApiOutcome) (next attempts : nat)
  : option TickerSnapshot :=
  match attempts with
  | O => None
  | S attempts' =>
      match answers next with
      | ApiData snapshot => Some snapshot
      | ApiError _ => first_data answers (S next) attempts'
      end
  end.

(** The number of worker calls that have started and not yet completed,
    whether by fulfilment or by rejection. *)
Definition in_flight {T} (p : @Pool T) : nat :=
  (length (invoked p) - length (settled p) - length (failed p))%nat.

(** Descending order of rows by score. *)
Definition score_ge (a b : CompounderRow) : Prop :=
  carlsonQualityScore b <= carlsonQualityScore a.

(** Ascending order of yield points by year. *)
Definition year_lt (a b : YieldYearPoint) : Prop := (year a < year b)%Z.

(** ** Further concrete inputs *)




(** The world [elapsed] milliseconds later, nothing else having happened. *)
Definition later (elapsed : Z) (w : World) : World :=
  {| clock := clock w + elapsed; db := db w; api := api w;
     api_calls := api_calls w; random := random w;
     random_calls := random_calls w; write_error := write_error w;
     writes := writes w; events := events w |}.


(** The row the callback pushes onto [rows] for the outcome of a fetch, if
    it pushes one. *)
Definition passing_row (Math_pow : Q -> Q -> Q) (options : CliOptions)
    (snapshot : option TickerSnapshot) : option CompounderRow :=
  match snapshot with
  | Some snapshot =>
      let row := buildRow Math_pow snapshot in
      if pass (evaluateCarlsonFilters row options) then Some row else None
  | None => None
  end.

(** What a [to...Points] function with loop body [point] makes of the raw
    rows [raw]: points in ascending order of date, one per date, each made
    from a raw row under that row's normalized date, and with every date of
    a usable raw row present. *)
Definition normalized_series {T} `{Dated T}
    (localeCompare : string -> string -> comparison)
    (point : RawFundamentalsPoint -> option T)
    (raw : list RawFundamentalsPoint) (out : list T) : Prop :=
  StronglySorted (date_le localeCompare) out /\
  NoDup (date <$> out) /\
  (forall p, p ∈ out -> exists row, row ∈ raw /\ point row = Some p) /\
  (forall row p, row ∈ raw -> point row = Some p -> date p ∈ date <$> out).

(** A raw cash-flow row. *)
Definition raw_cash_flow (d : RawDate) (operatingCashFlow capitalExpenditure : JsValue)
  : RawFundamentalsPoint :=
  {| raw_date := d;
     raw_totalRevenue := JsUndefined; raw_operatingRevenue := JsUndefined;
     raw_netIncome := JsUndefined; raw_netIncomeCommonStockholders := JsUndefined;
     raw_dilutedEPS := JsUndefined; raw_basicEPS := JsUndefined;
     raw_dilutedAverageShares := JsUndefined;
     raw_stockholdersEquity := JsUndefined; raw_longTermDebt := JsUndefined;
     raw_longTermDebtAndCapitalLeaseObligation := JsUndefined;
     raw_totalDebt := JsUndefined; raw_cashAndCashEquivalents := JsUndefined;
     raw_cashCashEquivalentsAndShortTermInvestments := JsUndefined;
     raw_operatingCashFlow := operatingCashFlow;
     raw_capitalExpenditure := capitalExpenditure;
     raw_freeCashFlow := JsUndefined;
     raw_ordinarySharesNumber := JsUndefined; raw_shareIssued := JsUndefined |}.

(** The ISO day of the time values used below: 1672444800000 is
    2022-12-31T00:00:00Z and 1640908800000 is 2021-12-31T00:00:00Z. *)
Definition sample_isoDay (t : Z) : string :=
  if (t <? 1672444800000)%Z then "2021-12-31" else "2022-12-31".

(** Year-end 2022 as a number of seconds, year-end 2021 as a [Date], the
    restated 2022 as a number of milliseconds, and two unusable rows. *)
Definition sample_raw_rows : list RawFundamentalsPoint :=
  [raw_cash_flow (DateNumber (JsFinite 1672444800))
     (JsNumber (JsFinite 200)) (JsNumber (JsFinite (-50)));
   raw_cash_flow (DateObject (Some 1640908800000%Z))
     (JsNumber (JsFinite 180)) (JsNumber (JsFinite (-40)));
   raw_cash_flow (DateNumber (JsFinite 1672444800000))
     (JsNumber (JsFinite 210)) (JsNumber (JsFinite (-50)));
   raw_cash_flow NoDate (JsNumber (JsFinite 1)) JsUndefined;
   raw_cash_flow (DateNumber (JsFinite 1672444800)) (JsNumber JsNaN) JsOther].

(** Thresholds below those of [default_options]. *)
Definition lenient_options (minRoic minOperatingMargin minBuybackPercent : Q)
  : CliOptions :=
  {| market := us; tickers := None; maxTickers := None; topN := 25;
     concurrency := JsFinite 4; format := text; dbPath := "sec_cache.db"; ttlDays := 7;
     minRoic := minRoic; minOperatingMargin := minOperatingMargin;
     minBuybackPercent := minBuybackPercent; showRejected := false |}.

(** An optional metric has not got worse: it was missing, or it is still
    defined and [R] relates the old value to the new one. *)
Definition no_worse (R : Q -> Q -> Prop) (before after : option Q) : Prop :=
  match before, after with
  | None, _ => True
  | Some a, Some b => R a b
  | Some _, None => False
  end.

(** * Properties *)

(** ** Comparisons *)

Lemma Qltb_lt (a b : Q) : Qltb a b = true <-> a < b.
Proof.
  unfold Qltb. rewrite Qlt_alt. destruct (a ?= b); split; congruence.
Qed.

Lemma Qltb_ge (a b : Q) : Qltb a b = false <-> b <= a.
Proof.
  unfold Qltb. rewrite Qle_alt, <- (Qcompare_antisym a b).
  destruct (a ?= b); simpl; split; congruence.
Qed.

Lemma Qleb_le (a b : Q) : Qleb a b = true <-> a <= b.
Proof.
  unfold Qleb. rewrite Qle_alt. destruct (a ?= b); split; congruence.
Qed.

Lemma Qleb_gt (a b : Q) : Qleb a b = false <-> b < a.
Proof.
  unfold Qleb. rewrite Qlt_alt, <- (Qcompare_antisym a b).
  destruct (a ?= b); simpl; split; congruence.
Qed.

Lemma Math_max_cases (a b : Q) :
  (a < b /\ Math_max a b = b) \/ (b <= a /\ Math_max a b = a).
Proof.
  unfold Math_max. destruct (Qltb a b) eqn:E.
  - left. split; [by apply Qltb_lt | done].
  - right. split; [by apply Qltb_ge | done].
Qed.

Lemma Math_min_cases (a b : Q) :
  (b < a /\ Math_min a b = b) \/ (a <= b /\ Math_min a b = a).
Proof.
  unfold Math_min. destruct (Qltb b a) eqn:E.
  - left. split; [by apply Qltb_lt | done].
  - right. split; [by apply Qltb_ge | done].
Qed.

(** [clamp] returns a value inside the interval, and the value itself when
    it already lies inside. *)
Lemma clamp_bounds (value lo hi : Q) :
  lo <= hi -> lo <= clamp value lo hi /\ clamp value lo hi <= hi.
Proof.
  intros Hlh. unfold clamp.
  destruct (Math_min_cases hi value) as [[H1 ->] | [H1 ->]];
    destruct (Math_max_cases lo value) as [[H2 E2] | [H2 E2]];
    destruct (Math_max_cases lo hi) as [[H3 E3] | [H3 E3]];
    rewrite ?E2, ?E3; split; lra.
Qed.

Lemma clamp_inside (value lo hi : Q) :
  lo <= value -> value <= hi -> clamp value lo hi == value.
Proof.
  intros Hlo Hhi. unfold clamp.
  destruct (Math_min_cases hi value) as [[H1 ->] | [H1 ->]].
  - destruct (Math_max_cases lo value) as [[H2 ->] | [H2 ->]]; lra.
  - destruct (Math_max_cases lo hi) as [[H2 ->] | [H2 ->]]; lra.
Qed.

Lemma clamp_above (value lo hi : Q) :
  lo <= hi -> hi <= value -> clamp value lo hi == hi.
Proof.
  intros Hlh Hv. unfold clamp.
  destruct (Math_min_cases hi value) as [[H1 ->] | [H1 ->]].
  - destruct (Math_max_cases lo value) as [[H2 ->] | [H2 ->]]; lra.
  - destruct (Math_max_cases lo hi) as [[H2 ->] | [H2 ->]]; lra.
Qed.

Lemma clamp_below (value lo hi : Q) :
  lo <= hi -> value <= lo -> clamp value lo hi == lo.
Proof.
  intros Hlh Hv. unfold clamp.
  destruct (Math_min_cases hi value) as [[H1 ->] | [H1 ->]].
  - destruct (Math_max_cases lo value) as [[H2 ->] | [H2 ->]]; lra.
  - destruct (Math_max_cases lo hi) as [[H2 ->] | [H2 ->]]; lra.
Qed.

(** ** Unit heuristic of the point-in-time percentages *)

(** C10. The operating-margin percent and the current dividend-yield percent
    read a raw value [<= 1] as a fraction and multiply it by 100, and return
    a raw value [> 1] unchanged; a raw value of exactly 1 becomes 100. *)
Theorem percent_unit_heuristic (snapshot : TickerSnapshot) :
  (forall v, operatingMargins snapshot = Some v ->
     (v <= 1 -> computeOperatingMarginPercent snapshot = Some (v * 100)) /\
     (1 < v -> computeOperatingMarginPercent snapshot = Some v) /\
     (v == 1 -> exists p, computeOperatingMarginPercent snapshot = Some p /\ p == 100)) /\
  (forall v, dividendYield snapshot = Some v ->
     let current := ym_currentYieldPercent (computeYieldMetrics snapshot) in
     (v <= 1 -> current = Some (v * 100)) /\
     (1 < v -> current = Some v) /\
     (v == 1 -> exists p, current = Some p /\ p == 100)).
Proof.
  split; intros v Hv; cbn; unfold computeOperatingMarginPercent; rewrite Hv;
    (split; [|split]).
  1, 4: intros Hle; apply Qleb_le in Hle; by rewrite Hle.
  1, 3: intros Hgt; apply Qleb_gt in Hgt; by rewrite Hgt.
  all: intros Heq; exists (v * 100); split; [|lra].
  all: assert (Hle : v <= 1) by lra; apply Qleb_le in Hle; by rewrite Hle.
Qed.

Lemma percent_unit_heuristic_witness :
  computeOperatingMarginPercent scenario_snapshot = Some (1 * 100) /\
  ym_currentYieldPercent (computeYieldMetrics scenario_snapshot) = Some (1 * 100).
Proof.
  destruct (percent_unit_heuristic scenario_snapshot) as [Hmargin Hyield].
  split.
  - apply (Hmargin 1 eq_refl). lra.
  - apply (Hyield 1 eq_refl). lra.
Defined.

(** ** Filter boundaries *)

(** C2. The ROIC and the operating-margin criteria pass exactly when the value
    is defined and strictly greater than the configured minimum, so a value
    equal to the minimum fails; the buyback criterion passes exactly when the
    3-year share change is defined and at most [-|minBuybackPercent|], so a
    change equal to that bound passes. *)
Theorem filter_boundaries (row : CompounderRow) (options : CliOptions) :
  let evaluation := evaluateCarlsonFilters row options in
  (roicPass evaluation = true <->
     exists r, roicPercent row = Some r /\ minRoic options < r) /\
  (forall r, roicPercent row = Some r -> r == minRoic options ->
     roicPass evaluation = false) /\
  (marginPass evaluation = true <->
     exists m, operatingMarginPercent row = Some m /\ minOperatingMargin options < m) /\
  (forall m, operatingMarginPercent row = Some m -> m == minOperatingMargin options ->
     marginPass evaluation = false) /\
  (buybackPass evaluation = true <->
     exists c, sharesChange3yPercent row = Some c
               /\ c <= - Qabs (minBuybackPercent options)) /\
  (forall c, sharesChange3yPercent row = Some c ->
     c == - Qabs (minBuybackPercent options) -> buybackPass evaluation = true).
Proof.
  cbn. repeat split.
  - destruct (roicPercent row) as [r|]; [|done].
    intros Hp. exists r. split; [done | by apply Qltb_lt].
  - intros (r & -> & Hr). by apply Qltb_lt.
  - intros r -> Heq. apply Qltb_ge. lra.
  - destruct (operatingMarginPercent row) as [m|]; [|done].
    intros Hp. exists m. split; [done | by apply Qltb_lt].
  - intros (m & -> & Hm). by apply Qltb_lt.
  - intros m -> Heq. apply Qltb_ge. lra.
  - destruct (sharesChange3yPercent row) as [c|]; [|done].
    intros Hp. exists c. split; [done | by apply Qleb_le].
  - intros (c & -> & Hc). by apply Qleb_le.
  - intros c -> Heq. apply Qleb_le. lra.
Qed.

Lemma filter_boundaries_witness :
  let evaluation := evaluateCarlsonFilters boundary_row default_options in
  roicPass evaluation = false /\
  marginPass evaluation = false /\
  buybackPass evaluation = true.
Proof.
  destruct (filter_boundaries boundary_row default_options)
    as (_ & Hroic & _ & Hmargin & _ & Hbuyback).
  split; [|split].
  - apply (Hroic 15 eq_refl). reflexivity.
  - apply (Hmargin 20 eq_refl). reflexivity.
  - apply (Hbuyback (-2) eq_refl). reflexivity.
Defined.

(** ** Free-cash-flow series *)

Lemma computeAnnualFcfSeries_step_app (values : list Q) (row : AnnualCashFlowPoint) :
  computeAnnualFcfSeries_step values row
  = values ++ computeAnnualFcfSeries_step [] row.
Proof.
  unfold computeAnnualFcfSeries_step, Number_isFinite.
  destruct (freeCashFlow row), (operatingCashFlow row), (capitalExpenditure row);
    simpl; by rewrite ?app_nil_r.
Qed.

Lemma fcfSeriesOf_acc (rows : list AnnualCashFlowPoint) (values : list Q) :
  fold_left computeAnnualFcfSeries_step rows values = values ++ fcfSeriesOf rows.
Proof.
  unfold fcfSeriesOf. revert values.
  induction rows as [|row rows IH]; intros values; simpl.
  - by rewrite app_nil_r.
  - rewrite IH, (IH (computeAnnualFcfSeries_step [] row)).
    by rewrite (computeAnnualFcfSeries_step_app values), <- app_assoc.
Qed.

Lemma fcfSeriesOf_app (rows rows' : list AnnualCashFlowPoint) :
  fcfSeriesOf (rows ++ rows') = fcfSeriesOf rows ++ fcfSeriesOf rows'.
Proof.
  unfold fcfSeriesOf at 1. by rewrite fold_left_app, fcfSeriesOf_acc.
Qed.

(** C4. A row with an explicit [freeCashFlow] contributes that value; a row
    without one but with both operating cash flow and capex contributes
    [operatingCashFlow + capitalExpenditure] when capex is negative and
    [operatingCashFlow - capitalExpenditure] otherwise, so 200 with capex -50
    and 200 with capex +50 both give 150. *)
Theorem fcf_sign_handling
    (snapshot : TickerSnapshot) (before after : list AnnualCashFlowPoint)
    (row : AnnualCashFlowPoint) :
  annualCashFlow snapshot = before ++ row :: after ->
  let contributes v :=
    computeAnnualFcfSeries snapshot = fcfSeriesOf before ++ v :: fcfSeriesOf after in
  (forall fcf, freeCashFlow row = Some fcf -> contributes fcf) /\
  (forall ocf capex,
     freeCashFlow row = None -> operatingCashFlow row = Some ocf ->
     capitalExpenditure row = Some capex ->
     (capex < 0 -> contributes (ocf + capex)) /\
     (0 <= capex -> contributes (ocf - capex)) /\
     (ocf == 200 -> capex == -50 \/ capex == 50 ->
      exists v, contributes v /\ v == 150)).
Proof.
  intros Hrows contributes. subst contributes. unfold computeAnnualFcfSeries.
  rewrite Hrows, fcfSeriesOf_app.
  change (row :: after) with ([row] ++ after). rewrite fcfSeriesOf_app.
  change (fcfSeriesOf [row]) with (computeAnnualFcfSeries_step [] row).
  unfold computeAnnualFcfSeries_step, Number_isFinite.
  split.
  - intros fcf ->. done.
  - intros ocf capex -> -> ->. repeat split.
    + intros Hneg. apply Qltb_lt in Hneg. by rewrite Hneg.
    + intros Hpos. apply Qltb_ge in Hpos. by rewrite Hpos.
    + intros Hocf [Hcapex | Hcapex].
      * assert (Hneg : capex < 0) by lra. apply Qltb_lt in Hneg. rewrite Hneg.
        exists (ocf + capex). split; [done | lra].
      * assert (Hpos : 0 <= capex) by lra. apply Qltb_ge in Hpos. rewrite Hpos.
        exists (ocf - capex). split; [done | lra].
Qed.

Lemma fcf_sign_handling_witness :
  computeAnnualFcfSeries scenario_snapshot = [200 + -50; 200 - 50].
Proof.
  pose proof (fcf_sign_handling scenario_snapshot []
                [cash_flow_year "2023-12-31" (Some 200) (Some 50) None]
                (cash_flow_year "2022-12-31" (Some 200) (Some (-50)) None)
                eq_refl) as [_ Hderived].
  destruct (Hderived 200 (-50) eq_refl eq_refl eq_refl) as [Hneg _].
  apply Hneg. reflexivity.
Defined.

(** ** Growth statistics *)

(** The counting loop of [growthStats], started in the middle of the array:
    over the indices of [values] placed after [done_], it adds the rising
    pairs of [values]. *)
Lemma growthStats_loop_counts (done_ values : list Q) (count : nat) :
  fold_left (growthStats_step (done_ ++ values))
            (seq (S (length done_)) (length values - 1)) count
  = (count + rising_pairs values)%nat.
Proof.
  revert done_ count.
  induction values as [|a values IH]; intros done_ count;
    [unfold rising_pairs; simpl; lia|].
  destruct values as [|b values]; [unfold rising_pairs; simpl; lia|].
  replace (length (a :: b :: values) - 1)%nat with (S (length (b :: values) - 1))
    by (simpl; lia).
  simpl seq. simpl fold_left.
  specialize (IH (done_ ++ [a]) (growthStats_step (done_ ++ a :: b :: values)
                                   count (S (length done_)))).
  rewrite <- app_assoc in IH. simpl in IH.
  rewrite length_app in IH. simpl in IH.
  replace (length done_ + 1)%nat with (S (length done_)) in IH by lia.
  rewrite IH. clear IH.
  unfold growthStats_step.
  replace (S (length done_) - 1)%nat with (length done_) by lia.
  rewrite (lookup_app_r done_) by lia.
  rewrite (lookup_app_r done_) by lia.
  replace (S (length done_) - length done_)%nat with 1%nat by lia.
  rewrite Nat.sub_diag. simpl.
  unfold rising_pairs, consecutive_pairs. simpl.
  destruct (Qltb a b); simpl; lia.
Qed.

Lemma growthStats_positiveCount (values : list Q) :
  fold_left (growthStats_step values) (seq 1 (length values - 1)) 0%nat
  = rising_pairs values.
Proof. exact (growthStats_loop_counts [] values 0). Qed.

(** C3. A series with fewer than two points has no intervals, no positive
    count and no CAGR.  Otherwise [intervals = length - 1], [positiveCount]
    is the number of consecutive pairs whose later value strictly exceeds the
    earlier, and [cagrPercent] is [((last/first)^(1/intervals) - 1) * 100]
    exactly when first and last are both strictly positive and undefined
    otherwise; the power is never taken of a base that is not positive. *)
Theorem growthStats_spec (Math_pow : Q -> Q -> Q) (values : list Q) :
  let stats := growthStats Math_pow values in
  ((length values < 2)%nat ->
     stats = {| positiveCount := 0; intervals := 0; cagrPercent := None |}) /\
  ((2 <= length values)%nat ->
     intervals stats = (length values - 1)%nat /\
     positiveCount stats = rising_pairs values /\
     exists first last,
       head values = Some first /\ last_elem values = Some last /\
       (0 < first /\ 0 < last ->
          cagrPercent stats
          = Some ((Math_pow (last / first) (1 / num (intervals stats)) - 1) * 100)) /\
       (~ (0 < first /\ 0 < last) -> cagrPercent stats = None)) /\
  (forall pow' : Q -> Q -> Q,
     (forall base exponent, 0 < base -> Math_pow base exponent = pow' base exponent) ->
     growthStats pow' values = stats).
Proof.
  cbn zeta. unfold growthStats. split; [|split].
  - intros Hlen. apply Nat.ltb_lt in Hlen. by rewrite Hlen.
  - intros Hlen. assert (Hge : (length values <? 2)%nat = false)
      by (apply Nat.ltb_ge; lia).
    rewrite Hge. cbn [intervals positiveCount cagrPercent].
    split; [done|]. split; [apply growthStats_positiveCount|].
    destruct values as [|first rest]; [simpl in Hlen; lia|].
    assert (is_Some ((first :: rest) !! (length (first :: rest) - 1)%nat))
      as [last Hlast] by (apply lookup_lt_is_Some; simpl; lia).
    exists first, last. unfold last_elem. rewrite Hlast.
    change ((first :: rest) !! 0%nat) with (Some first).
    assert (Hpos : (0 <? length (first :: rest) - 1)%nat = true)
      by (apply Nat.ltb_lt; simpl in *; lia).
    rewrite Hpos, andb_true_r.
    split; [done|]. split; [done|]. split.
    + intros [Hf Hl]. apply Qltb_lt in Hf, Hl. by rewrite Hf, Hl.
    + intros Hnot. destruct (Qltb 0 first) eqn:Hf; [|done].
      destruct (Qltb 0 last) eqn:Hl; [|done].
      exfalso. apply Hnot. split; by apply Qltb_lt.
  - intros pow' Hagree.
    destruct (length values <? 2)%nat; [done|]. f_equal.
    destruct (values !! 0%nat) as [first|]; [|done].
    destruct (values !! (length values - 1)%nat) as [last|]; [|done].
    destruct (Qltb 0 first) eqn:Hf; [|done].
    destruct (Qltb 0 last) eqn:Hl; [|done].
    destruct (0 <? length values - 1)%nat; [|done]. simpl.
    rewrite Hagree; [done|].
    apply Qltb_lt in Hf, Hl. apply Qlt_shift_div_l; lra.
Qed.

Lemma growthStats_spec_witness :
  growthStats Math_pow_integral [100]
  = {| positiveCount := 0; intervals := 0; cagrPercent := None |} /\
  positiveCount (growthStats Math_pow_integral [10; -5; 12; 15]) = 2%nat /\
  intervals (growthStats Math_pow_integral [10; -5; 12; 15]) = 3%nat /\
  growthStats (fun base exponent =>
                 if Qltb 0 base then Math_pow_integral base exponent else 0)
              [100; 150]
  = growthStats Math_pow_integral [100; 150].
Proof.
  split; [|split; [|split]].
  - destruct (growthStats_spec Math_pow_integral [100]) as (Hshort & _).
    apply Hshort. simpl. lia.
  - destruct (growthStats_spec Math_pow_integral [10; -5; 12; 15])
      as (_ & Hlong & _).
    destruct Hlong as (_ & Hcount & _); [simpl; lia|]. exact Hcount.
  - destruct (growthStats_spec Math_pow_integral [10; -5; 12; 15])
      as (_ & Hlong & _).
    destruct Hlong as (Hintervals & _); [simpl; lia|]. exact Hintervals.
  - destruct (growthStats_spec Math_pow_integral [100; 150]) as (_ & _ & Hbase).
    apply Hbase. intros base exponent Hbase_pos.
    apply Qltb_lt in Hbase_pos. by rewrite Hbase_pos.
Defined.

(** ** End-to-end scenario *)

Lemma buildRow_revenueGrowth (Math_pow : Q -> Q -> Q) (snapshot : TickerSnapshot) :
  revenueGrowth (buildRow Math_pow snapshot)
  = growthStats Math_pow
      (slice_last 6
         (filter_defined (fun v => Number_isFinite v && Qltb 0 v)
            (map totalRevenue (annualFinancials snapshot)))).
Proof. reflexivity. Qed.

Lemma buildRow_netIncomeGrowth (Math_pow : Q -> Q -> Q) (snapshot : TickerSnapshot) :
  netIncomeGrowth (buildRow Math_pow snapshot)
  = growthStats Math_pow
      (slice_last 6
         (filter_defined (fun v => Number_isFinite v)
            (map netIncome (annualFinancials snapshot)))).
Proof. reflexivity. Qed.

(** The required count is 80% of the intervals rounded to the nearest
    integer: 2 of 3, 3 of 4, 4 of 5. *)
Lemma requiredFromIntervals_table :
  requiredFromIntervals 3 = 2 /\ requiredFromIntervals 4 = 3 /\
  requiredFromIntervals 5 = 4.
Proof. by vm_compute. Qed.

(** C1 as stated fails: on the scenario snapshot the growth statistics are as
    claimed, but the net-income criterion is not failed. *)
Lemma scenario_net_income_not_failed :
  let row := buildRow Math_pow_integral scenario_snapshot in
  let evaluation := evaluateCarlsonFilters row default_options in
  ~ (positiveCount (revenueGrowth row) = 3%nat /\
     intervals (revenueGrowth row) = 3%nat /\
     positiveCount (netIncomeGrowth row) = 2%nat /\
     intervals (netIncomeGrowth row) = 3%nat /\
     netIncomeRequired evaluation = 3 /\
     netIncomePass evaluation = false).
Proof. vm_compute. intros (_ & _ & _ & _ & _ & Hfail). discriminate Hfail. Qed.

(** C1, amended. For a snapshot with annual revenue [100,110,121,133] and net
    income [10,-5,12,15], [buildRow] yields revenue growth 3 of 3 and net-income
    growth 2 of 3; the required count for 3 intervals is
    [max(1, round(0.8 * 3)) = 2], so both growth criteria pass. *)
Theorem scenario_growth_and_filter
    (Math_pow : Q -> Q -> Q) (snapshot : TickerSnapshot) (options : CliOptions) :
  map totalRevenue (annualFinancials snapshot)
    = [Some 100; Some 110; Some 121; Some 133] ->
  map netIncome (annualFinancials snapshot)
    = [Some 10; Some (-5); Some 12; Some 15] ->
  let row := buildRow Math_pow snapshot in
  let evaluation := evaluateCarlsonFilters row options in
  positiveCount (revenueGrowth row) = 3%nat /\
  intervals (revenueGrowth row) = 3%nat /\
  positiveCount (netIncomeGrowth row) = 2%nat /\
  intervals (netIncomeGrowth row) = 3%nat /\
  revenueRequired evaluation = 2 /\
  netIncomeRequired evaluation = 2 /\
  revenuePass evaluation = true /\
  netIncomePass evaluation = true.
Proof.
  intros Hrevenue Hincome row evaluation. subst evaluation row.
  unfold evaluateCarlsonFilters.
  cbn [revenueRequired netIncomeRequired revenuePass netIncomePass].
  rewrite buildRow_revenueGrowth, buildRow_netIncomeGrowth, Hrevenue, Hincome.
  by vm_compute.
Qed.

Lemma scenario_growth_and_filter_witness :
  let row := buildRow Math_pow_integral scenario_snapshot in
  let evaluation := evaluateCarlsonFilters row default_options in
  positiveCount (netIncomeGrowth row) = 2%nat /\
  netIncomeRequired evaluation = 2 /\
  netIncomePass evaluation = true.
Proof.
  destruct (scenario_growth_and_filter Math_pow_integral scenario_snapshot
              default_options eq_refl eq_refl)
    as (_ & _ & Hcount & _ & _ & Hrequired & _ & Hpass).
  split; [exact Hcount | split; [exact Hrequired | exact Hpass]].
Defined.

(** ** DCF growth assumption *)

Lemma last_elem_last {A} (l : list A) : last_elem l = last l.
Proof.
  unfold last_elem. destruct l as [|x l]; [done|].
  rewrite last_lookup. simpl. by rewrite Nat.sub_0_r.
Qed.

(** [slice(-3)] is the whole array when it has at most 3 elements and its
    last 3 elements otherwise. *)
Lemma slice_last_window {A} (older window : list A) :
  (length window = 3 \/ (older = [] /\ length window <= 3))%nat ->
  slice_last 3 (older ++ window) = window.
Proof.
  unfold slice_last. intros [Hlen|[-> Hlen]].
  - rewrite length_app, Hlen.
    replace (length older + 3 - 3)%nat with (length older) by lia.
    by rewrite drop_app_length.
  - simpl. by replace (length window - 3)%nat with 0%nat by lia.
Qed.

(** The projection loop computes, year by year, the projected cash flow and
    the present value of the cash flows so far. *)
Lemma dcf_years (latestFcf growth : Q) (years : nat) :
  fold_left (dcf_year growth 0.10) (seq 1 years) (0, latestFcf)
  = (present_value latestFcf growth years, projected_fcf latestFcf growth years).
Proof.
  induction years as [|years IH]; [done|].
  rewrite seq_S, fold_left_app, IH. reflexivity.
Qed.

Lemma dcfProject_value (price : option Q) (latestFcf shares growth v : Q) :
  intrinsicValuePerShare (dcfProject price latestFcf shares growth) = Some v ->
  v == intrinsic_value_as_stated latestFcf shares growth /\
  0 < v /\
  upsidePercent (dcfProject price latestFcf shares growth)
  = match price with
    | Some p => if Qltb 0 p then Some ((v / p - 1) * 100) else None
    | None => None
    end.
Proof.
  unfold dcfProject. cbn zeta. rewrite dcf_years.
  unfold intrinsic_value_as_stated.
  change (Math_max 0.0001 (0.10 - 0.025)) with (0.10 - 0.025).
  destruct (negb _ || Qleb _ 0) eqn:Hguard; [done|].
  cbn [intrinsicValuePerShare upsidePercent]. intros [= <-].
  apply orb_false_iff in Hguard as [_ Hpositive]. apply Qleb_gt in Hpositive.
  split; [reflexivity|]. by split.
Qed.

(** C5 as stated fails: on the FCF series [100, -1, -2, 150] the trailing up
    to 3 positive points are 100 and 150, whose CAGR of 50% the specification
    clamps to 20%; the code takes the last 3 points first and keeps the
    positive ones among them, the single point 150, and projects at the
    default 4%. *)
Lemma negative_points_shorten_the_window :
  dcfGrowth_as_stated Math_pow_integral [100; -1; -2; 150] == 0.20 /\
  dcfGrowth Math_pow_integral [100; -1; -2; 150] == 0.04 /\
  dcfShares scenario_snapshot = Some 1000 /\
  exists v,
    intrinsicValuePerShare
      (computeDcf Math_pow_integral scenario_snapshot [100; -1; -2; 150])
    = Some v /\
    v == intrinsic_value_as_stated 150 1000 0.04 /\
    ~ v == intrinsic_value_as_stated 150 1000 0.20.
Proof.
  split; [by vm_compute|]. split; [by vm_compute|]. split; [reflexivity|].
  eexists. split; [vm_compute; reflexivity|]. split; by vm_compute.
Qed.

(** C5, amended. The growth rate of [computeDcf] always lies in
    [-5%, 20%].  It is computed from the positive values among the last 3
    FCF points (all points when there are fewer than 3): their CAGR from the
    first to the last when at least 2 of the last 3 points are positive,
    else 4%; then clamped, so a CAGR of 50% is used as 20% and one of -30%
    as -5%.  Under the preconditions (at least 2 FCF points, latest FCF
    positive, a known positive share count) an intrinsic value that
    [computeDcf] returns is the ten-year projection at this growth rate, and
    an upside it returns is that value against the current price.  When a
    precondition fails there is no intrinsic value. *)
Theorem dcf_growth_clamped
    (Math_pow : Q -> Q -> Q) (snapshot : TickerSnapshot) (fcfSeries : list Q) :
  let growth := dcfGrowth Math_pow fcfSeries in
  (-0.05 <= growth /\ growth <= 0.20) /\
  (forall older window,
     fcfSeries = older ++ window ->
     (length window = 3 \/ (older = [] /\ length window <= 3))%nat ->
     let trailing := List.filter (fun v => Qltb 0 v) window in
     ((length trailing < 2)%nat -> growth == 0.04) /\
     ((2 <= length trailing)%nat ->
        exists first latest,
          head trailing = Some first /\ last trailing = Some latest /\
          let cagr :=
            Math_pow (latest / first) (1 / num (length trailing - 1)) - 1 in
          growth = clamp cagr (-0.05) 0.20 /\
          (-0.05 <= cagr <= 0.20 -> growth == cagr) /\
          (cagr == 0.5 -> growth == 0.20) /\
          (cagr == -0.3 -> growth == -0.05))) /\
  (forall latestFcf shares,
     (2 <= length fcfSeries)%nat ->
     last fcfSeries = Some latestFcf -> 0 < latestFcf ->
     dcfShares snapshot = Some shares -> 0 < shares ->
     (forall v,
        intrinsicValuePerShare (computeDcf Math_pow snapshot fcfSeries) = Some v ->
        v == intrinsic_value_as_stated latestFcf shares growth) /\
     (forall upside,
        upsidePercent (computeDcf Math_pow snapshot fcfSeries) = Some upside ->
        exists v price,
          intrinsicValuePerShare (computeDcf Math_pow snapshot fcfSeries) = Some v
          /\ currentPrice snapshot = Some price /\ 0 < price
          /\ upside = (v / price - 1) * 100)) /\
  ((length fcfSeries < 2)%nat
   \/ (exists latestFcf, last fcfSeries = Some latestFcf /\ latestFcf <= 0)
   \/ dcfShares snapshot = None
   \/ (exists shares, dcfShares snapshot = Some shares /\ shares <= 0) ->
   intrinsicValuePerShare (computeDcf Math_pow snapshot fcfSeries) = None).
Proof.
  cbn zeta. split; [|split; [|split]].
  - unfold dcfGrowth. apply clamp_bounds. lra.
  - intros older window -> Hwindow. unfold dcfGrowth.
    rewrite (slice_last_window older window Hwindow). unfold js_filter.
    set (trailing := List.filter (fun v => Qltb 0 v) window).
    split.
    + intros Hlen.
      assert (Hfew : (2 <=? length trailing)%nat = false)
        by (apply Nat.leb_gt; lia).
      rewrite Hfew. by vm_compute.
    + intros Hlen.
      assert (Hmany : (2 <=? length trailing)%nat = true)
        by (apply Nat.leb_le; lia).
      rewrite Hmany.
      destruct trailing as [|first rest] eqn:Htrailing; [simpl in Hlen; lia|].
      assert (is_Some ((first :: rest) !! (length (first :: rest) - 1)%nat))
        as [latest Hlatest] by (apply lookup_lt_is_Some; simpl; lia).
      exists first, latest.
      assert (Hlast : last (first :: rest) = Some latest).
      { rewrite <- last_elem_last. exact Hlatest. }
      rewrite Hlatest.
      change ((first :: rest) !! 0%nat) with (Some first). cbn zeta.
      split; [done|]. split; [done|]. split; [done|].
      set (cagr := Math_pow (latest / first)
                     (1 / num (length (first :: rest) - 1)) - 1).
      split; [|split].
      * intros [Hlo Hhi]. by apply clamp_inside.
      * intros Hcagr. apply clamp_above; lra.
      * intros Hcagr. apply clamp_below; lra.
  - intros latestFcf shares Hlen Hlast Hfcf Hshares Hpos. unfold computeDcf.
    assert (Hge : (length fcfSeries <? 2)%nat = false) by (apply Nat.ltb_ge; lia).
    rewrite Hge, last_elem_last, Hlast, Hshares.
    apply Qleb_gt in Hfcf, Hpos. rewrite Hfcf, Hpos. simpl orb. cbv iota.
    split.
    + by intros v (Hvalue & _)%dcfProject_value.
    + intros upside Hupside.
      destruct (intrinsicValuePerShare
                  (dcfProject (currentPrice snapshot) latestFcf shares
                     (dcfGrowth Math_pow fcfSeries))) as [v|] eqn:Hvalue.
      * destruct (dcfProject_value _ _ _ _ _ Hvalue) as (_ & _ & Hup).
        rewrite Hup in Hupside.
        destruct (currentPrice snapshot) as [price|]; [|done].
        destruct (Qltb 0 price) eqn:Hprice; [|done].
        apply Qltb_lt in Hprice. injection Hupside as <-.
        by exists v, price.
      * exfalso. revert Hvalue Hupside. unfold dcfProject. cbn zeta.
        destruct (fold_left _ _ _) as [pv projected].
        by destruct (negb _ || Qleb _ 0).
  - unfold computeDcf. rewrite last_elem_last. intros Hfail.
    destruct (length fcfSeries <? 2)%nat eqn:Hlen; [done|].
    destruct Hfail as [Hshort | [(latestFcf & -> & Hle) | [-> | (shares & -> & Hle)]]].
    + apply Nat.ltb_ge in Hlen. lia.
    + apply Qleb_le in Hle. rewrite Hle. by destruct (dcfShares snapshot).
    + by destruct (last fcfSeries).
    + apply Qleb_le in Hle. rewrite Hle.
      destruct (last fcfSeries); [|done]. by rewrite orb_true_r.
Qed.

Lemma dcf_growth_clamped_witness :
  dcfGrowth Math_pow_integral [-5; 100; 150] == 0.20 /\
  dcfGrowth Math_pow_integral [100; 70] == -0.05 /\
  (forall v,
     intrinsicValuePerShare
       (computeDcf Math_pow_integral scenario_snapshot [100; 150]) = Some v ->
     v == intrinsic_value_as_stated 150 1000
            (dcfGrowth Math_pow_integral [100; 150])) /\
  intrinsicValuePerShare (computeDcf Math_pow_integral scenario_snapshot [100]) = None.
Proof.
  split; [|split; [|split]].
  - destruct (dcf_growth_clamped Math_pow_integral scenario_snapshot [-5; 100; 150])
      as (_ & Hwindow & _).
    destruct (Hwindow [] [-5; 100; 150] eq_refl) as [_ Hcagr];
      [left; reflexivity|].
    destruct Hcagr as (first & latest & Hfirst & Hlatest & _ & _ & Hhigh & _);
      [simpl; lia|].
    injection Hfirst as <-. injection Hlatest as <-.
    apply Hhigh. reflexivity.
  - destruct (dcf_growth_clamped Math_pow_integral scenario_snapshot [100; 70])
      as (_ & Hwindow & _).
    destruct (Hwindow [] [100; 70] eq_refl) as [_ Hcagr];
      [right; split; [done | simpl; lia]|].
    destruct Hcagr as (first & latest & Hfirst & Hlatest & _ & _ & _ & Hlow);
      [simpl; lia|].
    injection Hfirst as <-. injection Hlatest as <-.
    apply Hlow. reflexivity.
  - destruct (dcf_growth_clamped Math_pow_integral scenario_snapshot [100; 150])
      as (_ & _ & Hproject & _).
    destruct (Hproject 150 1000) as [Hvalue _];
      [simpl; lia | reflexivity | reflexivity | reflexivity | reflexivity |].
    exact Hvalue.
  - destruct (dcf_growth_clamped Math_pow_integral scenario_snapshot [100])
      as (_ & _ & _ & Hfail).
    apply Hfail. left. simpl. lia.
Defined.

(** ** Deduplication by date *)

Lemma sort_insert_Permutation {A} (compareFn : A -> A -> comparison) (x : A) (l : list A) :
  sort_insert compareFn x l ≡ₚ x :: l.
Proof.
  induction l as [|y l IH]; simpl; [done|].
  destruct (compareFn x y); [done..|].
  rewrite IH. apply Permutation_swap.
Qed.

Lemma Array_sort_cons {A} (compareFn : A -> A -> comparison) (x : A) (l : list A) :
  Array_sort compareFn (x :: l) = sort_insert compareFn x (Array_sort compareFn l).
Proof. reflexivity. Qed.

Lemma Array_sort_Permutation {A} (compareFn : A -> A -> comparison) (l : list A) :
  Array_sort compareFn l ≡ₚ l.
Proof.
  induction l as [|x l IH]; [done|].
  by rewrite Array_sort_cons, sort_insert_Permutation, IH.
Qed.

Lemma Map_set_fresh {V} (k : string) (v : V) (m : list (string * V)) :
  k ∉ m.*1 -> Map_set k v m = m ++ [(k, v)].
Proof.
  induction m as [|[k' v'] m IH]; simpl; [done|].
  intros Hfresh. apply not_elem_of_cons in Hfresh as [Hne Hfresh].
  destruct (String.eqb_spec k k') as [->|_]; [done|]. by rewrite IH.
Qed.

Lemma Map_set_keys_present {V} (k : string) (v : V) (m : list (string * V)) :
  k ∈ m.*1 -> (Map_set k v m).*1 = m.*1.
Proof.
  induction m as [|[k' v'] m IH]; simpl; [by intros ?%elem_of_nil|].
  intros Hin. destruct (String.eqb_spec k k') as [->|Hne]; [done|].
  simpl. f_equal. apply IH. apply elem_of_cons in Hin as [?|?]; done.
Qed.

Lemma Map_set_NoDup {V} (k : string) (v : V) (m : list (string * V)) :
  NoDup m.*1 -> NoDup (Map_set k v m).*1.
Proof.
  intros Hm. destruct (decide (k ∈ m.*1)) as [Hin|Hfresh].
  - by rewrite Map_set_keys_present.
  - rewrite Map_set_fresh, fmap_app by done. simpl.
    apply NoDup_app. split; [done|]. split; [|apply NoDup_singleton].
    intros k' Hk' ->%list_elem_of_singleton. done.
Qed.

Lemma elem_of_Map_set {V} (k k0 : string) (v v0 : V) (m : list (string * V)) :
  NoDup m.*1 ->
  (k, v) ∈ Map_set k0 v0 m <-> (k = k0 /\ v = v0) \/ (k <> k0 /\ (k, v) ∈ m).
Proof.
  induction m as [|[k' v'] m IH]; simpl; intros Hm.
  - rewrite list_elem_of_singleton. split; [naive_solver|].
    intros [[-> ->]|[_ ?%elem_of_nil]]; done.
  - apply NoDup_cons in Hm as [Hk' Hm].
    destruct (String.eqb_spec k0 k') as [->|Hne].
    + rewrite !elem_of_cons. split.
      * intros [[= -> ->]|Hin]; [by left|]. right. split; [|by right].
        intros ->. apply Hk'. by apply (list_elem_of_fmap_2 fst) in Hin.
      * intros [[-> ->]|[Hne [[= -> ->]|Hin]]]; [by left|done|by right].
    + rewrite !elem_of_cons, IH by done. split.
      * intros [[= -> ->]|[[-> ->]|[Hk Hin]]].
        -- right. split; [congruence | by left].
        -- by left.
        -- right. split; [done | by right].
      * intros [[-> ->]|[Hk [[= -> ->]|Hin]]].
        -- right. by left.
        -- by left.
        -- right. right. by split.
Qed.

Lemma Map_set_Forall {V} (P : string * V -> Prop) (k : string) (v : V)
    (m : list (string * V)) :
  Forall P m -> P (k, v) -> Forall P (Map_set k v m).
Proof.
  intros Hm Hkv. induction Hm as [|[k' v'] m Hx Hm IH]; simpl.
  - by constructor.
  - destruct (String.eqb k k'); by constructor.
Qed.

Section DedupeProofs.
Context {T : Type} `{Dated T}.

(** [localeCompare] is a consistent comparator: swapping the operands flips
    the sign, and "does not compare after" is transitive. *)
Variable localeCompare : string -> string -> comparison.
Hypothesis localeCompare_antisym :
  forall a b, localeCompare a b = CompOpp (localeCompare b a).
Hypothesis localeCompare_trans :
  forall a b c,
    localeCompare a b <> Gt -> localeCompare b c <> Gt -> localeCompare a c <> Gt.

Implicit Types (rows : list T) (r : T).

Lemma localeCompare_Gt (a b : string) :
  localeCompare a b = Gt -> localeCompare b a <> Gt.
Proof. intros Hab. by rewrite localeCompare_antisym, Hab. Qed.

Lemma sort_insert_sorted r rows :
  StronglySorted (date_le localeCompare) rows ->
  StronglySorted (date_le localeCompare)
    (sort_insert (fun a b => localeCompare (date a) (date b)) r rows).
Proof.
  induction 1 as [|y l Hl IH Hy]; simpl; [by repeat constructor|].
  destruct (localeCompare (date r) (date y)) eqn:Hc.
  3: { constructor; [done|]. rewrite sort_insert_Permutation.
       constructor; [by apply localeCompare_Gt | done]. }
  all: assert (Hry : date_le localeCompare r y) by (unfold date_le; congruence).
  all: constructor; [by constructor|]; constructor; [done|].
  all: eapply Forall_impl; [exact Hy|]; intros z Hz.
  all: by eapply localeCompare_trans.
Qed.

Lemma sortByDateAsc_sorted rows :
  StronglySorted (date_le localeCompare) (sortByDateAsc localeCompare rows).
Proof.
  unfold sortByDateAsc. induction rows as [|r rows IH]; [constructor|].
  rewrite Array_sort_cons. by apply sort_insert_sorted.
Qed.

Lemma sortByDateAsc_Permutation rows : sortByDateAsc localeCompare rows ≡ₚ rows.
Proof. apply Array_sort_Permutation. Qed.

(** Sorting an array that is already in ascending order changes nothing. *)
Lemma sortByDateAsc_fixpoint rows :
  StronglySorted (date_le localeCompare) rows ->
  sortByDateAsc localeCompare rows = rows.
Proof.
  unfold sortByDateAsc. induction 1 as [|x l Hl IH Hx]; [done|].
  rewrite Array_sort_cons, IH. destruct Hx as [|y l Hxy _]; [done|]. simpl.
  unfold date_le in Hxy.
  by destruct (localeCompare (date x) (date y)).
Qed.

Lemma Map_of_rows_snoc rows r :
  Map_of_rows (rows ++ [r]) = Map_set (date r) r (Map_of_rows rows).
Proof. unfold Map_of_rows. by rewrite fold_left_app. Qed.

Lemma Map_of_rows_NoDup rows : NoDup (Map_of_rows rows).*1.
Proof.
  induction rows as [|r rows IH] using rev_ind; [constructor|].
  rewrite Map_of_rows_snoc. by apply Map_set_NoDup.
Qed.

Lemma Map_of_rows_keyed rows :
  Forall (fun e => e.1 = date e.2) (Map_of_rows rows).
Proof.
  induction rows as [|r rows IH] using rev_ind; [constructor|].
  rewrite Map_of_rows_snoc. by apply Map_set_Forall.
Qed.

Lemma Map_of_rows_keys rows :
  (Map_of_rows rows).*1 = date <$> Map_values (Map_of_rows rows).
Proof.
  unfold Map_values. induction (Map_of_rows_keyed rows) as [|[k v] m Hkv _ IH];
    [done|]. simpl in *. subst k. f_equal. exact IH.
Qed.

(** The map holds, for each date, the last row of the input with that date. *)
Lemma elem_of_Map_of_rows rows (k : string) r :
  (k, r) ∈ Map_of_rows rows <->
  exists before after,
    rows = before ++ r :: after /\ date r = k /\
    Forall (fun r' => date r' <> k) after.
Proof.
  revert k r. induction rows as [|x rows IH] using rev_ind; intros k r.
  - split; [by intros ?%elem_of_nil|].
    intros (before & after & Heq & _). by destruct before.
  - rewrite Map_of_rows_snoc, elem_of_Map_set by apply Map_of_rows_NoDup.
    rewrite IH. split.
    + intros [[-> ->]|[Hk (before & after & -> & Hd & Hafter)]].
      * exists rows, []. by repeat split.
      * exists before, (after ++ [x]). rewrite <- app_assoc. simpl.
        split; [done|]. split; [done|].
        apply Forall_app. split; [done|]. by repeat constructor.
    + intros (before & after & Heq & Hd & Hafter).
      destruct after as [|y after _] using rev_ind.
      * apply app_inj_tail in Heq as [-> ->]. by left.
      * rewrite app_comm_cons, app_assoc in Heq.
        apply app_inj_tail in Heq as [-> ->].
        apply Forall_app in Hafter as [Hafter Hx].
        apply Forall_inv in Hx. right.
        split; [intros Hk; apply Hx; by rewrite Hk|].
        by exists before, after.
Qed.

(** A list without repeated dates is stored in the map as it is. *)
Lemma Map_of_rows_unique rows :
  NoDup (date <$> rows) -> Map_of_rows rows = (fun r => (date r, r)) <$> rows.
Proof.
  induction rows as [|r rows IH] using rev_ind; [done|].
  rewrite fmap_app. intros [Hrows [Hfresh _]]%NoDup_app.
  rewrite Map_of_rows_snoc, IH, fmap_app by done.
  apply Map_set_fresh. rewrite <- list_fmap_compose.
  intros Hin. apply (Hfresh (date r)); [done|]. simpl. by left.
Qed.

Lemma dedupeByDate_Permutation rows :
  dedupeByDate localeCompare rows ≡ₚ Map_values (Map_of_rows rows).
Proof. apply sortByDateAsc_Permutation. Qed.

Lemma dedupeByDate_NoDup rows :
  NoDup (date <$> dedupeByDate localeCompare rows).
Proof.
  rewrite dedupeByDate_Permutation, <- Map_of_rows_keys. apply Map_of_rows_NoDup.
Qed.

Lemma dedupeByDate_sorted rows :
  StronglySorted (date_le localeCompare) (dedupeByDate localeCompare rows).
Proof. apply sortByDateAsc_sorted. Qed.

(** C8. For a consistent [localeCompare], [dedupeByDate] is idempotent; its
    output is in ascending order of date; no date occurs twice in it; and it
    consists of exactly the rows that are the last of their date in the
    input. *)
Theorem dedupeByDate_spec rows :
  dedupeByDate localeCompare (dedupeByDate localeCompare rows)
  = dedupeByDate localeCompare rows /\
  Sorted (date_le localeCompare) (dedupeByDate localeCompare rows) /\
  NoDup (date <$> dedupeByDate localeCompare rows) /\
  (forall r, r ∈ dedupeByDate localeCompare rows <->
     exists before after,
       rows = before ++ r :: after /\
       Forall (fun r' => date r' <> date r) after).
Proof.
  split; [|split; [|split]].
  - unfold dedupeByDate at 1. cbn zeta.
    rewrite Map_of_rows_unique by apply dedupeByDate_NoDup.
    unfold Map_values. rewrite <- list_fmap_compose.
    replace (snd ∘ (fun r : T => (date r, r))) with (@id T) by done.
    rewrite list_fmap_id. apply sortByDateAsc_fixpoint, dedupeByDate_sorted.
  - apply StronglySorted_Sorted, dedupeByDate_sorted.
  - apply dedupeByDate_NoDup.
  - intros r. rewrite dedupeByDate_Permutation. unfold Map_values.
    rewrite list_elem_of_fmap. split.
    + intros ([k v] & -> & Hin). simpl.
      pose proof Hin as Hkey.
      eapply Forall_forall in Hkey; [|apply Map_of_rows_keyed]. simpl in Hkey.
      apply elem_of_Map_of_rows in Hin as (before & after & -> & _ & Hafter).
      exists before, after. split; [done|]. by rewrite <- Hkey.
    + intros (before & after & Heq & Hafter). exists (date r, r).
      split; [done|]. apply elem_of_Map_of_rows. by exists before, after.
Qed.

End DedupeProofs.

(** The code-unit order is a consistent comparator. *)
Lemma code_unit_compare_antisym (a b : string) :
  code_unit_compare a b = CompOpp (code_unit_compare b a).
Proof. apply String.compare_antisym. Qed.

Lemma code_unit_compare_le (a b : string) :
  code_unit_compare a b <> Gt <-> String.le a b.
Proof.
  unfold code_unit_compare, String.le, String.leb.
  destruct (String.compare a b); naive_solver.
Qed.

Lemma code_unit_compare_trans (a b c : string) :
  code_unit_compare a b <> Gt -> code_unit_compare b c <> Gt ->
  code_unit_compare a c <> Gt.
Proof. rewrite !code_unit_compare_le. apply transitivity. Qed.

(** On the sample rows the restated 2022 report survives and the output is
    in date order. *)
Example dedupeByDate_sample :
  dedupeByDate code_unit_compare raw_cash_flow_rows
  = [{| cf_date := "2021-12-31"; operatingCashFlow := Some 180;
        capitalExpenditure := Some (-40); freeCashFlow := None |};
     {| cf_date := "2022-12-31"; operatingCashFlow := Some 210;
        capitalExpenditure := Some (-50); freeCashFlow := None |}].
Proof. reflexivity. Qed.

Lemma dedupeByDate_spec_witness :
  dedupeByDate code_unit_compare
    (dedupeByDate code_unit_compare raw_cash_flow_rows)
  = dedupeByDate code_unit_compare raw_cash_flow_rows /\
  {| cf_date := "2022-12-31"; operatingCashFlow := Some 210;
     capitalExpenditure := Some (-50); freeCashFlow := None |}
  ∈ dedupeByDate code_unit_compare raw_cash_flow_rows.
Proof.
  destruct (dedupeByDate_spec code_unit_compare code_unit_compare_antisym
              code_unit_compare_trans raw_cash_flow_rows)
    as (Hidem & _ & _ & Hlast).
  split; [exact Hidem|].
  apply Hlast.
  exists [{| cf_date := "2022-12-31"; operatingCashFlow := Some 200;
             capitalExpenditure := Some (-50); freeCashFlow := None |}],
         [{| cf_date := "2021-12-31"; operatingCashFlow := Some 180;
             capitalExpenditure := Some (-40); freeCashFlow := None |}].
  split; [reflexivity|]. repeat constructor. discriminate.
Defined.

(** ** Retrying fetch *)

Lemma fetchFromApi_run (requestDelayMs : Q) (ticker : string) (w : World) :
  fetchFromApi requestDelayMs ticker w
  = (match api w ticker (api_calls w) with
     | ApiData snapshot => Return snapshot
     | ApiError message => Throw message
     end,
     next_api_call (add_event (Sleep requestDelayMs) (add_event (ApiRequest ticker) w))).
Proof.
  unfold fetchFromApi, sleep, emit, api_next, mbind, Async_bind, mret, Async_ret, throw.
  simpl. by destruct (api w ticker (api_calls w)).
Qed.

(** One iteration of the retry loop. *)
Lemma fetchWithRetry_loop_unfold (requestDelayMs : Q) (maxRetries : nat)
    (ticker : string) (remaining attempt : nat) (w : World) :
  fetchWithRetry_loop requestDelayMs maxRetries ticker (S remaining) attempt w
  = let w1 := next_api_call (add_event (Sleep requestDelayMs)
                               (add_event (ApiRequest ticker) w)) in
    match api w ticker (api_calls w) with
    | ApiData snapshot => (Return (Some snapshot), w1)
    | ApiError message =>
        if (maxRetries <=? attempt)%nat
        then (Return None, add_event (ConsoleError (failure_line ticker message)) w1)
        else
          fetchWithRetry_loop requestDelayMs maxRetries ticker remaining (S attempt)
            (add_event
               (Sleep (Math_round (requestDelayMs * 2 ^ Z.of_nat attempt
                                   + random w (random_calls w) * 250)))
               (next_random w1))
    end.
Proof.
  cbn [fetchWithRetry_loop]. unfold try_catch, mbind at 1, Async_bind at 1.
  rewrite fetchFromApi_run.
  destruct (api w ticker (api_calls w)) as [snapshot|message]; [reflexivity|].
  destruct (maxRetries <=? attempt)%nat; reflexivity.
Qed.






(** ** Cache lookup *)



Lemma CompounderDataCache_get_run (ttlMs : Q) (ticker : string) (w : World) :
  CompounderDataCache_get ttlMs ticker w
  = match cache_record w ticker with
    | None => (Return None, w)
    | Some row =>
        if too_old ttlMs (clock w) row then (Return None, w)
        else
          match payload_json row with
          | ValidPayload snapshot => (Return (Some (CachedSnapshot snapshot)), w)
          | NullPayload => (Return None, w)
          | ForeignPayload currentVersion =>
              (Return (Some (CachedForeign currentVersion)), w)
          | MalformedPayload => (Throw "SyntaxError: JSON Parse error", w)
          end
    end.
Proof.
  unfold CompounderDataCache_get, cache_record, get_db, Date_now, JSON_parse,
    mbind, Async_bind, mret, Async_ret, throw.
  destruct (db w) as [table|]; [|done].
  destruct (table !! ticker) as [row|]; [|done].
  destruct (too_old ttlMs (clock w) row); [done|].
  by destruct (payload_json row).
Qed.

Lemma fetchTickerSnapshot_run
    (ttlMs requestDelayMs : Q) (maxRetries : nat) (ticker : string) (w : World) :
  fetchTickerSnapshot ttlMs requestDelayMs maxRetries ticker w
  = match CompounderDataCache_get ttlMs ticker w with
    | (Return (Some c), w') =>
        if current_version c then (Return (Some c), w')
        else fetchAndStore requestDelayMs maxRetries ticker w'
    | (Return None, w') => fetchAndStore requestDelayMs maxRetries ticker w'
    | (Throw message, w') => (Throw message, w')
    end.
Proof.
  unfold fetchTickerSnapshot, mbind at 1, Async_bind at 1.
  destruct (CompounderDataCache_get ttlMs ticker w) as [[[c|]|message] w']; [|done..].
  by destruct (current_version c).
Qed.




(** ** Worker pool *)

Section PoolProofs.
Context {T : Type} (items : list T) (rejects : nat -> bool).

Implicit Types (p : @Pool T) (rs : list Runner).

(** The four things a runner can do, with the runner array split at the
    runner that moves. *)
Lemma runner_step_cases (r : nat) p p' :
  runner_step items rejects r p = Some p' ->
  exists before after,
    (runners p = before ++ Ready :: after /\ (nextIndex p < length items)%nat /\
     p' = {| nextIndex := S (nextIndex p);
             runners := before ++ Awaiting (nextIndex p) :: after;
             invoked := invoked p ++ [(items !! nextIndex p, nextIndex p)];
             settled := settled p;
             failed := failed p |})
    \/ (runners p = before ++ Ready :: after /\ (length items <= nextIndex p)%nat /\
        p' = {| nextIndex := nextIndex p;
                runners := before ++ Finished :: after;
                invoked := invoked p;
                settled := settled p;
                failed := failed p |})
    \/ (exists current,
          runners p = before ++ Awaiting current :: after /\
          rejects current = false /\
          p' = {| nextIndex := nextIndex p;
                  runners := before ++ Ready :: after;
                  invoked := invoked p;
                  settled := settled p ++ [current];
                  failed := failed p |})
    \/ (exists current,
          runners p = before ++ Awaiting current :: after /\
          rejects current = true /\
          p' = {| nextIndex := nextIndex p;
                  runners := before ++ Rejected :: after;
                  invoked := invoked p;
                  settled := settled p;
                  failed := failed p ++ [current] |}).
Proof.
  unfold runner_step. intros Hstep.
  destruct (runners p !! r) as [state|] eqn:Hr; [|done].
  exists (take r (runners p)), (drop (S r) (runners p)).
  assert (Hlt : (r < length (runners p))%nat) by (eapply lookup_lt_Some; eauto).
  pose proof (take_drop_middle _ _ _ Hr) as Hsplit.
  destruct state as [|current| |]; [| |done|done].
  - destruct (nextIndex p <? length items)%nat eqn:Hn; injection Hstep as <-.
    + left. split; [done|]. split; [by apply Nat.ltb_lt|].
      by rewrite insert_take_drop.
    + right; left. split; [done|]. split; [by apply Nat.ltb_ge|].
      by rewrite insert_take_drop.
  - destruct (rejects current) eqn:Hcall; injection Hstep as <-.
    + right; right; right. exists current. split; [done|]. split; [done|].
      by rewrite insert_take_drop.
    + right; right; left. exists current. split; [done|]. split; [done|].
      by rewrite insert_take_drop.
Qed.

Lemma awaiting_indices_replicate_Ready (n : nat) :
  awaiting_indices (replicate n Ready) = [].
Proof. induction n as [|n IH]; [done|exact IH]. Qed.

Lemma awaiting_indices_app rs rs' :
  awaiting_indices (rs ++ rs') = awaiting_indices rs ++ awaiting_indices rs'.
Proof. apply omap_app. Qed.

Lemma rejected_replicate_Ready (n : nat) :
  List.filter is_rejected (replicate n Ready) = [].
Proof. induction n as [|n IH]; [done|exact IH]. Qed.

Lemma pool_invariant_init (n : nat) :
  pool_invariant items rejects (initial_pool n).
Proof.
  split; simpl.
  - lia.
  - done.
  - by rewrite awaiting_indices_replicate_Ready.
  - by intros ?%elem_of_replicate_inv.
  - constructor.
  - constructor.
  - by rewrite rejected_replicate_Ready.
Qed.

Lemma pool_invariant_step p p' :
  pool_invariant items rejects p -> pool_step items rejects p p' ->
  pool_invariant items rejects p'.
Proof.
  intros [Hcursor Hinvoked Hpending Hfinished Hsettled Hfailed Hrejected]
    [r Hstep].
  apply runner_step_cases in Hstep
    as (before & after
        & [(Hrs & Hlt & ->)
          |[(Hrs & Hge & ->)
           |[(current & Hrs & Hcall & ->)|(current & Hrs & Hcall & ->)]]]);
    rewrite Hrs in *;
    rewrite awaiting_indices_app in Hpending;
    rewrite List.filter_app in Hrejected;
    split; cbn [nextIndex runners invoked settled failed];
    rewrite ?awaiting_indices_app, ?List.filter_app;
    simpl in *; try done; try lia.
  - change (invoked p ++ [(items !! nextIndex p, nextIndex p)]
            = (fun i => (items !! i, i)) <$> seq 0 (S (nextIndex p))).
    by rewrite seq_S, fmap_app, Hinvoked.
  - change (0%nat :: seq 1 (nextIndex p)) with (seq 0 (S (nextIndex p))).
    rewrite seq_S. simpl. rewrite <- !Permutation_middle, Hpending.
    by rewrite app_nil_r.
  - intros Hin. exfalso. assert (nextIndex p = length items); [|lia].
    apply Hfinished. rewrite elem_of_app, elem_of_cons in *.
    destruct Hin as [?|[?|?]]; [by left|done|by right; right].
  - rewrite <- Hpending, <- !app_assoc. simpl.
    by rewrite <- !Permutation_middle.
  - intros Hin. apply Hfinished. rewrite elem_of_app, elem_of_cons in *.
    destruct Hin as [?|[?|?]]; [by left|done|by right; right].
  - apply Forall_app. split; [done|]. by repeat constructor.
  - rewrite <- Hpending, <- !app_assoc. simpl.
    by rewrite <- !Permutation_middle.
  - intros Hin. apply Hfinished. rewrite elem_of_app, elem_of_cons in *.
    destruct Hin as [?|[?|?]]; [by left|done|by right; right].
  - apply Forall_app. split; [done|]. by repeat constructor.
  - rewrite !length_app in *. simpl. lia.
Qed.

Lemma pool_reachable_invariant (p0 p : Pool) (n : nat) :
  p0 = initial_pool n ->
  rtc (pool_step items rejects) p0 p ->
  pool_invariant items rejects p /\ length (runners p) = n.
Proof.
  intros ->. revert p. apply rtc_ind_r.
  - split; [apply pool_invariant_init|]. simpl. apply length_replicate.
  - intros p p' Hp Hstep [IH Hlen].
    split; [by eapply pool_invariant_step|]. rewrite <- Hlen.
    destruct Hstep as [r Hstep].
    apply runner_step_cases in Hstep
      as (before & after
          & [(Hrs & _ & ->)
            |[(Hrs & _ & ->)
             |[(current & Hrs & _ & ->)|(current & Hrs & _ & ->)]]]);
      rewrite Hrs; simpl; by rewrite !length_app.
Qed.



End PoolProofs.




Lemma run_schedule_rtc {T} (items : list T) (rejects : nat -> bool)
    (schedule : list nat) (p p' : Pool) :
  run_schedule items rejects schedule p = Some p' ->
  rtc (pool_step items rejects) p p'.
Proof.
  revert p. induction schedule as [|r schedule IH]; intros p; simpl.
  - by intros [= ->].
  - destruct (runner_step items rejects r p) as [p1|] eqn:Hstep; [|done].
    intros Hrest. eapply rtc_l; [by exists r | by apply IH].
Qed.



(** The number of runners [mapWithConcurrency] starts. *)
Lemma mapWithConcurrency_init_runners {T} (concurrency : JsNum) (p0 : @Pool T) :
  mapWithConcurrency_init concurrency = Some p0 ->
  exists n,
    p0 = initial_pool n /\
    (concurrency <> JsNaN -> (1 <= n)%nat) /\
    (forall w : Z,
       concurrency = JsFinite (inject_Z w) -> n = Z.to_nat (Z.max 1 w)) /\
    (forall c : Q, concurrency = JsFinite c -> c <= 1 -> n = 1%nat).
Proof.
  unfold mapWithConcurrency_init.
  destruct (Array_from_length (safeConcurrency concurrency)) as [n|] eqn:Hn;
    [|done].
  intros [= <-]. exists n. split; [done|].
  assert (Hfinite : forall c, concurrency = JsFinite c ->
            1 <= Math_max 1 c /\
            n = Z.to_nat (Q_truncate (Math_max 1 c)) /\
            (1 <= Q_truncate (Math_max 1 c))%Z).
  { intros c ->. simpl in Hn.
    assert (Hone : 1 <= Math_max 1 c)
      by (destruct (Math_max_cases 1 c) as [[? ->]|[? ->]]; lra).
    assert (Hpos : (1 <= Q_truncate (Math_max 1 c))%Z).
    { unfold Q_truncate.
      assert (Hneg : Qltb (Math_max 1 c) 0 = false) by (apply Qltb_ge; lra).
      rewrite Hneg. apply (Qfloor_resp_le 1) in Hone. exact Hone. }
    split; [done|]. split; [|done].
    destruct (Q_truncate (Math_max 1 c) <=? 0)%Z eqn:Hzero;
      [apply Z.leb_le in Hzero; lia|].
    destruct (Q_truncate (Math_max 1 c) <=? 4294967295)%Z; [|done].
    by injection Hn as <-. }
  split; [|split].
  - intros Hnan. destruct concurrency as [c| |[|]]; try done.
    + destruct (Hfinite c eq_refl) as (_ & -> & ?). lia.
    + simpl in Hn. injection Hn as <-. done.
  - intros w Hw. destruct (Hfinite _ Hw) as (_ & -> & _). f_equal.
    unfold Q_truncate.
    destruct (Math_max_cases 1 (inject_Z w)) as [[Hlt ->]|[Hge ->]].
    + change 1 with (inject_Z 1) in Hlt. rewrite <- Zlt_Qlt in Hlt.
      assert (Hneg : Qltb (inject_Z w) 0 = false).
      { apply Qltb_ge. change 0 with (inject_Z 0). rewrite <- Zle_Qle. lia. }
      rewrite Hneg, Qfloor_Z. lia.
    + change 1 with (inject_Z 1) in Hge. rewrite <- Zle_Qle in Hge.
      change (Qltb 1 0) with false. cbv iota.
      change (Qfloor 1) with 1%Z. lia.
  - intros c Hc Hle. destruct (Hfinite _ Hc) as (_ & -> & _).
    destruct (Math_max_cases 1 c) as [[Hlt _]|[_ ->]]; [lra|done].
Qed.




(** * Further properties *)

(** ** Growth statistics: counts *)

Lemma rising_pairs_cons (a b : Q) (values : list Q) :
  rising_pairs (a :: b :: values)
  = ((if Qltb a b then 1 else 0) + rising_pairs (b :: values))%nat.
Proof. unfold rising_pairs, consecutive_pairs. simpl. by destruct (Qltb a b). Qed.

Lemma rising_pairs_le (values : list Q) :
  (rising_pairs values <= length values - 1)%nat.
Proof.
  induction values as [|a values IH]; [done|].
  destruct values as [|b values]; [done|].
  rewrite rising_pairs_cons. simpl in *. destruct (Qltb a b); lia.
Qed.

Lemma rising_pairs_increasing (values : list Q) :
  Sorted Qlt values -> rising_pairs values = (length values - 1)%nat.
Proof.
  induction 1 as [|a values Hsorted IH Hhead]; [done|].
  destruct Hhead as [|b values Hab]; [done|].
  rewrite rising_pairs_cons, IH. apply Qltb_lt in Hab. rewrite Hab.
  simpl. lia.
Qed.

Lemma rising_pairs_not_increasing (values : list Q) :
  Sorted (fun a b => b <= a) values -> rising_pairs values = 0%nat.
Proof.
  induction 1 as [|a values Hsorted IH Hhead]; [done|].
  destruct Hhead as [|b values Hab]; [done|].
  rewrite rising_pairs_cons, IH. apply Qltb_ge in Hab. by rewrite Hab.
Qed.

Lemma growthStats_counts (Math_pow : Q -> Q -> Q) (values : list Q) :
  positiveCount (growthStats Math_pow values) = rising_pairs values /\
  intervals (growthStats Math_pow values) = (length values - 1)%nat.
Proof.
  unfold growthStats. destruct (length values <? 2)%nat eqn:Hlen.
  - apply Nat.ltb_lt in Hlen. simpl.
    destruct values as [|a [|b values]]; simpl in *; [done|done|lia].
  - cbn [positiveCount intervals]. by rewrite growthStats_positiveCount.
Qed.

(** X1. The positive count never exceeds the number of intervals; it equals
    it on a strictly increasing series and is zero on a series that never
    rises. *)
Theorem growthStats_count_bounds (Math_pow : Q -> Q -> Q) (values : list Q) :
  let stats := growthStats Math_pow values in
  (positiveCount stats <= intervals stats)%nat /\
  (Sorted Qlt values -> positiveCount stats = intervals stats) /\
  (Sorted (fun a b => b <= a) values -> positiveCount stats = 0%nat).
Proof.
  cbn zeta. destruct (growthStats_counts Math_pow values) as [-> ->].
  split; [apply rising_pairs_le|]. split.
  - apply rising_pairs_increasing.
  - apply rising_pairs_not_increasing.
Qed.

Lemma growthStats_count_bounds_witness :
  positiveCount (growthStats Math_pow_integral [100; 110; 121; 133]) = 3%nat /\
  positiveCount (growthStats Math_pow_integral [9; 9; 4]) = 0%nat.
Proof.
  split.
  - destruct (growthStats_count_bounds Math_pow_integral [100; 110; 121; 133])
      as (_ & Hrise & _).
    rewrite Hrise; [reflexivity|]. repeat constructor.
  - destruct (growthStats_count_bounds Math_pow_integral [9; 9; 4])
      as (_ & _ & Hflat).
    apply Hflat. repeat constructor; by vm_compute.
Defined.

(** ** Rows: windows and minimum history *)

Lemma filter_defined_length (p : Q -> bool) (l : list (option Q)) :
  (length (filter_defined p l) <= length l)%nat.
Proof.
  unfold filter_defined. induction l as [|[x|] l IH]; [done| |].
  - change (length (match (if p x then Some x else None) with
                    | Some y => y :: filter_defined p l
                    | None => filter_defined p l
                    end) <= S (length l))%nat.
    unfold filter_defined. destruct (p x); simpl; lia.
  - change (length (filter_defined p l) <= S (length l))%nat.
    unfold filter_defined. lia.
Qed.

Lemma slice_last_length {A} (n : nat) (l : list A) :
  length (slice_last n l) = Nat.min n (length l).
Proof. unfold slice_last. rewrite length_drop. lia. Qed.

(** The series [buildRow] passes to [growthStats] are the last six defined
    values of a column of the annual financials. *)
Lemma buildRow_intervals (Math_pow : Q -> Q -> Q) (snapshot : TickerSnapshot) :
  let row := buildRow Math_pow snapshot in
  let years := length (annualFinancials snapshot) in
  (intervals (revenueGrowth row) <= Nat.min 5 (years - 1))%nat /\
  (intervals (netIncomeGrowth row) <= Nat.min 5 (years - 1))%nat /\
  (intervals (epsGrowth row) <= Nat.min 5 (years - 1))%nat.
Proof.
  cbn zeta. unfold buildRow.
  cbn [revenueGrowth netIncomeGrowth epsGrowth].
  repeat match goal with
         | |- context [growthStats Math_pow ?series] =>
             let Hc := fresh "Hcount" in
             let Hi := fresh "Hintervals" in
             destruct (growthStats_counts Math_pow series) as [Hc Hi];
             rewrite ?Hi; clear Hc Hi
         end.
  rewrite !slice_last_length.
  pose proof (filter_defined_length (fun v => Number_isFinite v && Qltb 0 v)
                (map totalRevenue (annualFinancials snapshot))) as Hrev.
  pose proof (filter_defined_length (fun v => Number_isFinite v)
                (map netIncome (annualFinancials snapshot))) as Hinc.
  pose proof (filter_defined_length (fun v => Number_isFinite v)
                (map (fun f => dilutedEPS f ?? basicEPS f)
                   (annualFinancials snapshot))) as Heps.
  rewrite !length_map in Hrev, Hinc, Heps.
  repeat split; lia.
Qed.

(** X2. Each growth statistic of a row looks at no more than the last six
    values of its series, so it has at most 5 intervals, and fewer intervals
    than the snapshot has fiscal years; its positive count never exceeds its
    intervals. *)
Theorem buildRow_windows (Math_pow : Q -> Q -> Q) (snapshot : TickerSnapshot) :
  let row := buildRow Math_pow snapshot in
  let years := length (annualFinancials snapshot) in
  (intervals (revenueGrowth row) <= Nat.min 5 (years - 1))%nat /\
  (intervals (netIncomeGrowth row) <= Nat.min 5 (years - 1))%nat /\
  (intervals (epsGrowth row) <= Nat.min 5 (years - 1))%nat /\
  (positiveCount (revenueGrowth row) <= intervals (revenueGrowth row))%nat /\
  (positiveCount (netIncomeGrowth row) <= intervals (netIncomeGrowth row))%nat /\
  (positiveCount (epsGrowth row) <= intervals (epsGrowth row))%nat.
Proof.
  destruct (buildRow_intervals Math_pow snapshot) as (Hrev & Hinc & Heps).
  cbn zeta in *.
  split; [exact Hrev|]. split; [exact Hinc|]. split; [exact Heps|].
  unfold buildRow. cbn [revenueGrowth netIncomeGrowth epsGrowth].
  repeat match goal with
         | |- context [growthStats Math_pow ?series] =>
             let Hc := fresh "Hcount" in
             let Hi := fresh "Hintervals" in
             destruct (growthStats_counts Math_pow series) as [Hc Hi];
             rewrite ?Hc, ?Hi; clear Hc Hi
         end.
  split; [|split]; apply rising_pairs_le.
Qed.

(** X3. A snapshot with fewer than four fiscal years is rejected whatever the
    thresholds: its revenue and net-income statistics have fewer than 3
    intervals. *)
Theorem short_history_rejected
    (Math_pow : Q -> Q -> Q) (snapshot : TickerSnapshot) (options : CliOptions) :
  (length (annualFinancials snapshot) < 4)%nat ->
  let evaluation := evaluateCarlsonFilters (buildRow Math_pow snapshot) options in
  revenuePass evaluation = false /\
  netIncomePass evaluation = false /\
  pass evaluation = false.
Proof.
  intros Hyears.
  destruct (buildRow_intervals Math_pow snapshot) as (Hrev & Hinc & _).
  cbn zeta in *. unfold evaluateCarlsonFilters.
  cbn [revenuePass netIncomePass pass].
  assert (Hr : (3 <=? intervals (revenueGrowth (buildRow Math_pow snapshot)))%nat
               = false) by (apply Nat.leb_gt; lia).
  assert (Hn : (3 <=? intervals (netIncomeGrowth (buildRow Math_pow snapshot)))%nat
               = false) by (apply Nat.leb_gt; lia).
  by rewrite Hr, Hn.
Qed.

Lemma short_history_rejected_witness :
  pass (evaluateCarlsonFilters
          (buildRow Math_pow_integral
             {| schemaVersion := 1; ticker := "NEW";
                annualFinancials :=
                  [financial_year "2021-12-31" 100 10;
                   financial_year "2022-12-31" 200 20;
                   financial_year "2023-12-31" 400 40];
                annualBalanceSheet := []; annualCashFlow := [];
                quarterlyShares := []; operatingMargins := Some 50;
                dividendYield := None; sharesOutstanding := None;
                currentPrice := None; marketCap := None;
                yearlyDividendYields := [] |})
          default_options) = false.
Proof.
  apply short_history_rejected. simpl. lia.
Defined.

(** ** Filters: required counts and necessary conditions *)

Lemma Math_round_le (v : Q) (n : Z) :
  v + (1 # 2) < inject_Z n + 1 -> Math_round v <= inject_Z n.
Proof.
  intros Hv. unfold Math_round. rewrite <- Zle_Qle.
  pose proof (Qfloor_le (v + (1 # 2))) as Hfloor.
  assert (Hlt : inject_Z (Qfloor (v + (1 # 2))) < inject_Z (n + 1)).
  { rewrite inject_Z_plus. change (inject_Z 1) with 1. lra. }
  rewrite <- Zlt_Qlt in Hlt. lia.
Qed.

Lemma requiredFromIntervals_bounds (n : nat) :
  1 <= requiredFromIntervals n /\
  ((1 <= n)%nat -> requiredFromIntervals n <= num n).
Proof.
  unfold requiredFromIntervals.
  destruct (Math_max_cases 1 (Math_round (num n * 0.8))) as [[Hlt ->]|[Hge ->]].
  - split; [lra|]. intros Hn. apply Math_round_le. unfold num.
    assert (1 <= inject_Z (Z.of_nat n)); [|lra].
    change 1 with (inject_Z 1). rewrite <- Zle_Qle. lia.
  - split; [lra|]. intros Hn. unfold num. change 1 with (inject_Z 1).
    rewrite <- Zle_Qle. lia.
Qed.

(** X4. The required count is at least 1 and, for a series with intervals, at
    most the number of intervals: a revenue or net-income series that rose in
    every one of its 3 or more intervals passes its criterion. *)
Theorem unbroken_growth_passes (row : CompounderRow) (options : CliOptions) :
  let evaluation := evaluateCarlsonFilters row options in
  1 <= revenueRequired evaluation /\
  1 <= netIncomeRequired evaluation /\
  ((3 <= intervals (revenueGrowth row))%nat ->
   positiveCount (revenueGrowth row) = intervals (revenueGrowth row) ->
   revenuePass evaluation = true) /\
  ((3 <= intervals (netIncomeGrowth row))%nat ->
   positiveCount (netIncomeGrowth row) = intervals (netIncomeGrowth row) ->
   netIncomePass evaluation = true).
Proof.
  cbn zeta. unfold evaluateCarlsonFilters.
  cbn [revenueRequired netIncomeRequired revenuePass netIncomePass].
  split; [apply requiredFromIntervals_bounds|].
  split; [apply requiredFromIntervals_bounds|].
  split; intros Hthree ->; apply andb_true_intro;
    (split; [by apply Nat.leb_le|]); apply Qleb_le;
    apply requiredFromIntervals_bounds; lia.
Qed.

Lemma unbroken_growth_passes_witness :
  revenuePass (evaluateCarlsonFilters boundary_row default_options) = true /\
  netIncomePass (evaluateCarlsonFilters boundary_row default_options) = true.
Proof.
  destruct (unbroken_growth_passes boundary_row default_options)
    as (_ & _ & Hrevenue & Hincome).
  split; [apply Hrevenue | apply Hincome]; (simpl; lia) || reflexivity.
Defined.

Lemma Qleb_proper (c a b : Q) : a == b -> Qleb c a = Qleb c b.
Proof.
  intros Hab. destruct (Qleb c b) eqn:Hb.
  - apply Qleb_le. apply Qleb_le in Hb. lra.
  - apply Qleb_gt. apply Qleb_gt in Hb. lra.
Qed.

(** X5. A row that passes has its ROIC, 3-year share change and operating
    margin defined, at least 3 revenue and 3 net-income intervals, and a share
    count that did not grow; and the buyback criterion depends only on the
    magnitude of [minBuybackPercent], not on its sign. *)
Theorem pass_necessary_conditions (row : CompounderRow) (options : CliOptions) :
  (pass (evaluateCarlsonFilters row options) = true ->
   (3 <= intervals (revenueGrowth row))%nat /\
   (3 <= intervals (netIncomeGrowth row))%nat /\
   (1 <= positiveCount (revenueGrowth row))%nat /\
   (1 <= positiveCount (netIncomeGrowth row))%nat /\
   exists roic change margin,
     roicPercent row = Some roic /\ minRoic options < roic /\
     sharesChange3yPercent row = Some change /\ change <= 0 /\
     operatingMarginPercent row = Some margin /\
     minOperatingMargin options < margin) /\
  (forall options',
     minBuybackPercent options' == - minBuybackPercent options ->
     buybackPass (evaluateCarlsonFilters row options')
     = buybackPass (evaluateCarlsonFilters row options)).
Proof.
  split.
  - unfold evaluateCarlsonFilters. cbn [pass].
    rewrite !andb_true_iff, !Nat.leb_le.
    intros [[[[[Hri Hrc] [Hni Hnc]] Hroic] Hbuy] Hmargin].
    apply Qleb_le in Hrc, Hnc.
    pose proof (requiredFromIntervals_bounds (intervals (revenueGrowth row)))
      as [Hr1 _].
    pose proof (requiredFromIntervals_bounds (intervals (netIncomeGrowth row)))
      as [Hn1 _].
    assert (Hone : forall k : nat, 1 <= num k -> (1 <= k)%nat).
    { intros k Hk. unfold num in Hk. change 1 with (inject_Z 1) in Hk.
      rewrite <- Zle_Qle in Hk. lia. }
    split; [done|]. split; [done|].
    split; [apply Hone; lra|]. split; [apply Hone; lra|].
    destruct (roicPercent row) as [roic|]; [|done].
    destruct (sharesChange3yPercent row) as [change|]; [|done].
    destruct (operatingMarginPercent row) as [margin|]; [|done].
    exists roic, change, margin.
    apply Qltb_lt in Hroic, Hmargin. apply Qleb_le in Hbuy.
    pose proof (Qabs_nonneg (minBuybackPercent options)).
    repeat split; try done. lra.
  - intros options' Hflip. unfold evaluateCarlsonFilters. cbn [buybackPass].
    destruct (sharesChange3yPercent row) as [change|]; [|done].
    apply Qleb_proper. rewrite Hflip, Qabs_opp. reflexivity.
Qed.

Lemma pass_necessary_conditions_witness :
  buybackPass
    (evaluateCarlsonFilters boundary_row
       {| market := us; tickers := None; maxTickers := None; topN := 25;
          concurrency := JsFinite 4; format := text; dbPath := "sec_cache.db";
          ttlDays := 7; minRoic := 15; minOperatingMargin := 20;
          minBuybackPercent := -2; showRejected := false |})
  = buybackPass (evaluateCarlsonFilters boundary_row default_options).
Proof.
  destruct (pass_necessary_conditions boundary_row default_options)
    as [_ Hsign].
  apply Hsign. reflexivity.
Defined.

(** ** Quality score *)

Lemma clamp_integer (k lo hi : Z) :
  (lo <= hi)%Z ->
  exists z, clamp (inject_Z k) (inject_Z lo) (inject_Z hi) = inject_Z z
            /\ (lo <= z <= hi)%Z.
Proof.
  intros Hlh. unfold clamp.
  destruct (Math_min_cases (inject_Z hi) (inject_Z k)) as [[H1 ->]|[H1 ->]].
  - destruct (Math_max_cases (inject_Z lo) (inject_Z k)) as [[H2 ->]|[H2 ->]].
    + exists k. rewrite <- Zlt_Qlt in H1, H2. split; [done|lia].
    + exists lo. split; [done|lia].
  - destruct (Math_max_cases (inject_Z lo) (inject_Z hi)) as [[H2 ->]|[H2 ->]].
    + exists hi. split; [done|lia].
    + exists lo. split; [done|lia].
Qed.

(** X6. The quality score is always an integer between 1 and 100, whatever
    the metrics and whichever of them are undefined. *)
Theorem carlson_score_range
    (revenue income eps : GrowthStats)
    (roic fcf fcfGrowth change margin : option Q) :
  exists z : Z,
    computeCarlsonScore revenue income eps roic fcf fcfGrowth change margin
    = inject_Z z
    /\ (1 <= z <= 100)%Z.
Proof.
  unfold computeCarlsonScore. cbn zeta. unfold Math_round.
  apply (clamp_integer _ 1 100). lia.
Qed.

(** ** Valuation: signs and ranges *)


Lemma Qdiv_nonneg (a b : Q) : 0 <= a -> 0 < b -> 0 <= a / b.
Proof. intros Ha Hb. apply Qle_shift_div_l; [done|lra]. Qed.










(** ** Free cash flow: magnitude of the outflow *)

Lemma fcfSeriesOf_length (rows : list AnnualCashFlowPoint) :
  (length (fcfSeriesOf rows) <= length rows)%nat.
Proof.
  induction rows as [|row rows IH] using rev_ind; [done|].
  rewrite fcfSeriesOf_app, !length_app.
  change (fcfSeriesOf [row]) with (computeAnnualFcfSeries_step [] row).
  unfold computeAnnualFcfSeries_step, Number_isFinite.
  destruct (freeCashFlow row), (operatingCashFlow row), (capitalExpenditure row);
    simpl; lia.
Qed.

(** X9. The FCF series has at most one value per cash-flow row, and the value
    derived for a row without an explicit free cash flow is the operating cash
    flow minus the magnitude of capex, under either sign convention. *)
Theorem fcf_outflow_magnitude
    (snapshot : TickerSnapshot) (before after : list AnnualCashFlowPoint)
    (row : AnnualCashFlowPoint) (ocf capex : Q) :
  annualCashFlow snapshot = before ++ row :: after ->
  freeCashFlow row = None ->
  operatingCashFlow row = Some ocf ->
  capitalExpenditure row = Some capex ->
  (length (computeAnnualFcfSeries snapshot)
   <= length (annualCashFlow snapshot))%nat /\
  exists v,
    computeAnnualFcfSeries snapshot
    = fcfSeriesOf before ++ v :: fcfSeriesOf after
    /\ v == ocf - Qabs capex.
Proof.
  intros Hrows Hfcf Hocf Hcapex. split; [apply fcfSeriesOf_length|].
  unfold computeAnnualFcfSeries. rewrite Hrows, fcfSeriesOf_app.
  change (row :: after) with ([row] ++ after). rewrite fcfSeriesOf_app.
  change (fcfSeriesOf [row]) with (computeAnnualFcfSeries_step [] row).
  unfold computeAnnualFcfSeries_step. rewrite Hfcf, Hocf, Hcapex. cbn zeta.
  destruct (Qltb capex 0) eqn:Hsign.
  - apply Qltb_lt in Hsign. exists (ocf + capex). split; [done|].
    rewrite Qabs_neg by lra. lra.
  - apply Qltb_ge in Hsign. exists (ocf - capex). split; [done|].
    rewrite Qabs_pos by lra. lra.
Qed.

Lemma fcf_outflow_magnitude_witness :
  exists v,
    computeAnnualFcfSeries scenario_snapshot = [v; 200 - 50]
    /\ v == 200 - Qabs (-50).
Proof.
  destruct (fcf_outflow_magnitude scenario_snapshot []
              [cash_flow_year "2023-12-31" (Some 200) (Some 50) None]
              (cash_flow_year "2022-12-31" (Some 200) (Some (-50)) None)
              200 (-50) eq_refl eq_refl eq_refl eq_refl)
    as (_ & v & Hseries & Hv).
  exists v. split; [exact Hseries | exact Hv].
Defined.

(** ** DCF: what a returned value tells *)

Lemma upside_sign (v price : Q) :
  0 < price -> (0 < (v / price - 1) * 100 <-> price < v).
Proof.
  intros Hprice.
  assert (Hq : price * (v / price) == v) by (apply Qmult_div_r; lra).
  set (q := v / price) in *. split; intros H; nra.
Qed.

(** X10. An intrinsic value that [computeDcf] returns is positive, and there
    were then at least 2 FCF points, a positive latest FCF and a known
    positive share count.  An upside it returns comes with an intrinsic
    value and a positive current price, and is positive exactly when the
    value exceeds the price; without an intrinsic value there is no
    upside. *)
Theorem dcf_value_positive
    (Math_pow : Q -> Q -> Q) (snapshot : TickerSnapshot) (fcfSeries : list Q) :
  let dcf := computeDcf Math_pow snapshot fcfSeries in
  (forall v,
     intrinsicValuePerShare dcf = Some v ->
     0 < v /\
     (2 <= length fcfSeries)%nat /\
     exists latestFcf shares,
       last fcfSeries = Some latestFcf /\ 0 < latestFcf /\
       dcfShares snapshot = Some shares /\ 0 < shares) /\
  (forall upside,
     upsidePercent dcf = Some upside ->
     exists v price,
       intrinsicValuePerShare dcf = Some v /\
       currentPrice snapshot = Some price /\ 0 < price /\
       upside = (v / price - 1) * 100 /\
       (0 < upside <-> price < v)) /\
  (intrinsicValuePerShare dcf = None -> upsidePercent dcf = None).
Proof.
  cbn zeta. unfold computeDcf. rewrite last_elem_last.
  destruct (length fcfSeries <? 2)%nat eqn:Hlen; [done|].
  apply Nat.ltb_ge in Hlen.
  destruct (last fcfSeries) as [latestFcf|]; [|done].
  destruct (dcfShares snapshot) as [shares|]; [|done].
  destruct (Qleb latestFcf 0) eqn:Hfcf; [done|].
  destruct (Qleb shares 0) eqn:Hshares; [done|].
  apply Qleb_gt in Hfcf, Hshares. simpl orb. cbv iota.
  set (dcf := dcfProject (currentPrice snapshot) latestFcf shares
                (dcfGrowth Math_pow fcfSeries)).
  assert (Hnone : intrinsicValuePerShare dcf = None -> upsidePercent dcf = None).
  { unfold dcf, dcfProject. cbn zeta.
    destruct (fold_left _ _ _) as [pv projected].
    by destruct (negb _ || Qleb _ 0). }
  split; [|split; [|done]].
  - intros v (_ & Hv & _)%dcfProject_value. split; [done|]. split; [done|].
    by exists latestFcf, shares.
  - intros upside Hupside.
    destruct (intrinsicValuePerShare dcf) as [v|] eqn:Hvalue;
      [|by rewrite Hnone in Hupside].
    destruct (dcfProject_value _ _ _ _ _ Hvalue) as (_ & _ & Hup).
    fold dcf in Hup. rewrite Hup in Hupside.
    destruct (currentPrice snapshot) as [price|]; [|done].
    destruct (Qltb 0 price) eqn:Hprice; [|done].
    apply Qltb_lt in Hprice. injection Hupside as <-.
    exists v, price. repeat (split; [done|]). by apply upside_sign.
Qed.

Lemma dcf_value_positive_witness :
  exists v,
    intrinsicValuePerShare
      (computeDcf Math_pow_integral scenario_snapshot [100; 150]) = Some v /\
    0 < v.
Proof.
  eexists. split; [vm_compute; reflexivity|].
  destruct (dcf_value_positive Math_pow_integral scenario_snapshot [100; 150])
    as (Hvalue & _).
  eapply Hvalue. vm_compute. reflexivity.
Defined.

(** ** Dividend yield average *)

Lemma num_S (n : nat) : num (S n) == num n + 1.
Proof.
  unfold num. rewrite Nat2Z.inj_succ, <- Z.add_1_r, inject_Z_plus.
  change (inject_Z 1) with 1. lra.
Qed.

Lemma num_pos (n : nat) : (0 < n)%nat -> 0 < num n.
Proof.
  intros Hn. unfold num. change 0 with (inject_Z 0).
  rewrite <- Zlt_Qlt. lia.
Qed.

(** Adding values that are not negative does not lower a sum. *)
Lemma fold_Qplus_nonneg (values : list Q) (acc : Q) :
  Forall (fun v => 0 <= v) values -> acc <= fold_left Qplus values acc.
Proof.
  intros Hvalues. revert acc.
  induction Hvalues as [|v values Hv _ IH]; intros acc; [simpl; lra|].
  cbn [fold_left]. specialize (IH (acc + v)). lra.
Qed.

(** X11. The 5-year average yield of [computeYieldMetrics] is defined exactly
    when some yearly yield is non-negative.  Negative yields are not counted:
    the average is never negative, and two snapshots whose non-negative
    yields are the same have the same average.  The difference to the
    current yield is defined exactly when both of its operands are. *)
Theorem yield_average_nonnegative (snapshot : TickerSnapshot) :
  let metrics := computeYieldMetrics snapshot in
  let counted s :=
    List.filter (fun y => Qleb 0 y) (map yield (yearlyDividendYields s)) in
  (is_Some (ym_avgYield5yPercent metrics) <->
     Exists (fun p => 0 <= yield p) (yearlyDividendYields snapshot)) /\
  (forall avg, ym_avgYield5yPercent metrics = Some avg -> 0 <= avg) /\
  (forall other,
     counted other = counted snapshot ->
     ym_avgYield5yPercent (computeYieldMetrics other)
     = ym_avgYield5yPercent metrics) /\
  (is_Some (ym_yieldVs5yAvgPercent metrics) <->
     is_Some (ym_currentYieldPercent metrics)
     /\ is_Some (ym_avgYield5yPercent metrics)).
Proof.
  cbn zeta. unfold computeYieldMetrics.
  cbn [ym_avgYield5yPercent ym_yieldVs5yAvgPercent ym_currentYieldPercent].
  unfold js_filter.
  set (yields := List.filter (fun x => Qleb 0 x)
                   (map yield (yearlyDividendYields snapshot))).
  assert (Hcounted : forall v, v ∈ yields <->
            exists p, p ∈ yearlyDividendYields snapshot /\ v = yield p
                      /\ 0 <= yield p).
  { intros v. unfold yields.
    rewrite list_elem_of_In, filter_In, <- list_elem_of_In, list_elem_of_fmap.
    split.
    - intros [(p & -> & Hp) Hv]. apply Qleb_le in Hv. by exists p.
    - intros (p & Hp & -> & Hv). split; [by exists p | by apply Qleb_le]. }
  split; [|split; [|split]].
  - rewrite Exists_exists. destruct (0 <? length yields)%nat eqn:Hlen.
    + apply Nat.ltb_lt in Hlen. split; [|by eexists]. intros _.
      destruct yields as [|v rest] eqn:Hyields; [simpl in Hlen; lia|].
      destruct (proj1 (Hcounted v)) as (p & Hp & _ & Hv); [left|].
      by exists p.
    + apply Nat.ltb_ge in Hlen. split; [by intros [? ?]|].
      intros (p & Hp & Hv).
      assert (Hin : yield p ∈ yields) by (apply Hcounted; by exists p).
      destruct yields; [by apply not_elem_of_nil in Hin | simpl in Hlen; lia].
  - intros avg Havg.
    destruct (0 <? length yields)%nat eqn:Hlen; [|done].
    apply Nat.ltb_lt, num_pos in Hlen. injection Havg as <-.
    pose proof (fold_Qplus_nonneg yields 0) as Hsum.
    assert (0 <= fold_left Qplus yields 0 / num (length yields)).
    { apply Qdiv_nonneg; [|done]. apply Hsum, Forall_forall. intros v Hv.
      by apply Hcounted in Hv as (p & _ & -> & Hnonneg). }
    lra.
  - intros other Hsame. by rewrite Hsame.
  - destruct (dividendYield snapshot), (0 <? length yields)%nat; split;
      try (intros [[? ?] [? ?]]); try (intros [? ?]); try done;
      try (intros _; split; by eexists); try by eexists.
Qed.

(** ** Cache: storing, reading back, closing *)

Lemma CompounderDataCache_save_run (w : World) :
  CompounderDataCache_save w
  = match db w with
    | None => (Return (), w)
    | Some _ =>
        (match write_error w (writes w) with
         | None => Return ()
         | Some message => Throw message
         end,
         next_write (add_event CacheSave w))
    end.
Proof.
  unfold CompounderDataCache_save, get_db, writeFileSync,
    mbind, Async_bind, mret, Async_ret.
  by destruct (db w).
Qed.

Lemma CompounderDataCache_set_run (ticker : string) (snapshot : TickerSnapshot)
    (w : World) :
  CompounderDataCache_set ticker snapshot w
  = match db w with
    | None => (Return (), w)
    | Some table =>
        (match write_error w (writes w) with
         | None => Return ()
         | Some message => Throw message
         end,
         next_write
           (add_event CacheSave
              (with_db (Some (<[ticker := {| payload_json := ValidPayload snapshot;
                                             fetched_at := Some (clock w) |}]>
                                table)) w)))
    end.
Proof.
  unfold CompounderDataCache_set, get_db, Date_now, put_db,
    mbind, Async_bind, mret, Async_ret.
  destruct (db w) as [table|]; [|done].
  rewrite CompounderDataCache_save_run. reflexivity.
Qed.

(** X12. A snapshot stored with [CompounderDataCache.set] is what
    [CompounderDataCache.get] returns for that ticker as long as no more than
    the TTL has elapsed, and absent afterwards; storing writes the file once
    and leaves the records of the other tickers as they were.  [set] returns
    normally exactly when that write does not throw; the record is in the
    table either way. *)
Theorem cache_round_trip
    (ttlMs : Q) (ticker : string) (snapshot : TickerSnapshot) (w : World)
    (elapsed : Z) :
  is_Some (db w) ->
  let stored := snd (CompounderDataCache_set ticker snapshot w) in
  CompounderDataCache_get ttlMs ticker (later elapsed stored)
  = (Return (if Qltb ttlMs (inject_Z elapsed) then None
             else Some (CachedSnapshot snapshot)),
     later elapsed stored) /\
  (forall other, other <> ticker ->
                 cache_record stored other = cache_record w other) /\
  events stored = events w ++ [CacheSave] /\
  (fst (CompounderDataCache_set ticker snapshot w) = Return ()
   <-> write_error w (writes w) = None).
Proof.
  intros [table Hdb]. cbn zeta.
  rewrite CompounderDataCache_set_run, Hdb. cbn [fst snd].
  split; [|split; [|split]].
  - rewrite CompounderDataCache_get_run. unfold cache_record, too_old. simpl.
    rewrite lookup_insert_eq. simpl.
    replace (clock w + elapsed - clock w)%Z with elapsed by lia.
    by destruct (Qltb ttlMs (inject_Z elapsed)).
  - intros other Hother. unfold cache_record. simpl.
    by rewrite Hdb, lookup_insert_ne.
  - done.
  - by destruct (write_error w (writes w)).
Qed.

Lemma cache_round_trip_witness :
  CompounderDataCache_get week_ms "ACME"
    (later 60000
       (snd (CompounderDataCache_set "ACME" scenario_snapshot failing_world)))
  = (Return (Some (CachedSnapshot scenario_snapshot)),
     later 60000
       (snd (CompounderDataCache_set "ACME" scenario_snapshot failing_world))).
Proof.
  destruct (cache_round_trip week_ms "ACME" scenario_snapshot failing_world 60000)
    as (Hget & _); [by eexists|].
  exact Hget.
Defined.


(** ** What a fetch returns and what it leaves alone *)

(** The retry loop returns the first successful answer among those it may
    still ask for, and touches neither the cache nor the clock. *)
Lemma fetchWithRetry_loop_result
    (requestDelayMs : Q) (maxRetries : nat) (ticker : string) :
  forall (remaining attempt : nat) (w : World),
    (attempt + remaining = maxRetries)%nat ->
    exists w',
      fetchWithRetry_loop requestDelayMs maxRetries ticker (S remaining) attempt w
      = (Return (first_data (api w ticker) (api_calls w) (S remaining)), w') /\
      db w' = db w /\ clock w' = clock w /\ api w' = api w /\
      (write_error w' = write_error w /\ writes w' = writes w) /\
      (api_calls w < api_calls w' <= api_calls w + S remaining)%nat /\
      (first_data (api w ticker) (api_calls w) (S remaining) = None ->
       api_calls w' = (api_calls w + S remaining)%nat).
Proof.
  induction remaining as [|remaining IH]; intros attempt w Hsum;
    rewrite fetchWithRetry_loop_unfold; cbn zeta; cbn [first_data];
    destruct (api w ticker (api_calls w)) as [snapshot|message] eqn:Hanswer.
  - eexists. split; [reflexivity|]. simpl. repeat split; (lia || done).
  - assert (Hlast : (maxRetries <=? attempt)%nat = true) by (apply Nat.leb_le; lia).
    rewrite Hlast. eexists. split; [reflexivity|]. simpl.
    repeat split; (lia || done).
  - eexists. split; [reflexivity|]. simpl. repeat split; (lia || done).
  - assert (Hmore : (maxRetries <=? attempt)%nat = false) by (apply Nat.leb_gt; lia).
    rewrite Hmore.
    match goal with
    | |- context [fetchWithRetry_loop _ _ _ (S remaining) (S attempt) ?w1] =>
        destruct (IH (S attempt) w1)
          as (w' & Hrun & Hdb & Hclock & Hapi & Hdisk & Hcalls & Hnone); [lia|]
    end.
    simpl in Hrun, Hdb, Hclock, Hapi, Hdisk, Hcalls, Hnone.
    exists w'. split; [exact Hrun|]. simpl.
    split; [done|]. split; [done|]. split; [done|]. split; [done|].
    split; [lia|].
    intros Hall. rewrite Hnone by done. lia.
Qed.

(** X13. [fetchWithRetry] never throws: it returns the first successful
    answer among the next [maxRetries + 1] answers of the data source, or
    absent when all of them are errors.  It makes at least one request and at
    most [maxRetries + 1], exactly that many when it returns absent, and it
    does not touch the cache. *)
Theorem fetchWithRetry_first_answer
    (requestDelayMs : Q) (maxRetries : nat) (ticker : string) (w : World) :
  exists w',
    fetchWithRetry requestDelayMs maxRetries ticker w
    = (Return (first_data (api w ticker) (api_calls w) (S maxRetries)), w') /\
    db w' = db w /\
    (api_calls w < api_calls w' <= api_calls w + S maxRetries)%nat /\
    (first_data (api w ticker) (api_calls w) (S maxRetries) = None ->
     api_calls w' = (api_calls w + S maxRetries)%nat).
Proof.
  unfold fetchWithRetry.
  destruct (fetchWithRetry_loop_result requestDelayMs maxRetries ticker
              maxRetries 0 w) as (w' & Hrun & Hdb & _ & _ & _ & Hcalls & Hnone);
    [done|].
  by exists w'.
Qed.

Lemma fetchAndStore_run
    (requestDelayMs : Q) (maxRetries : nat) (ticker : string) (w : World) :
  exists w1,
    fetchWithRetry requestDelayMs maxRetries ticker w
    = (Return (first_data (api w ticker) (api_calls w) (S maxRetries)), w1) /\
    db w1 = db w /\ clock w1 = clock w /\
    (write_error w1 = write_error w /\ writes w1 = writes w) /\
    (api_calls w < api_calls w1)%nat /\
    (first_data (api w ticker) (api_calls w) (S maxRetries) = None ->
     api_calls w1 = (api_calls w + S maxRetries)%nat) /\
    fetchAndStore requestDelayMs maxRetries ticker w
    = match first_data (api w ticker) (api_calls w) (S maxRetries) with
      | Some snapshot =>
          (match fst (CompounderDataCache_set ticker snapshot w1) with
           | Return _ => Return (Some (CachedSnapshot snapshot))
           | Throw message => Throw message
           end,
           snd (CompounderDataCache_set ticker snapshot w1))
      | None => (Return None, w1)
      end.
Proof.
  destruct (fetchWithRetry_loop_result requestDelayMs maxRetries ticker
              maxRetries 0 w)
    as (w1 & Hrun & Hdb & Hclock & _ & Hdisk & Hcalls & Hnone); [done|].
  exists w1. split; [exact Hrun|]. split; [done|]. split; [done|].
  split; [done|]. split; [lia|]. split; [done|].
  unfold fetchAndStore, mbind at 1, Async_bind at 1, fetchWithRetry.
  rewrite Hrun.
  destruct (first_data (api w ticker) (api_calls w) (S maxRetries)); [|done].
  unfold mbind, Async_bind.
  by destruct (CompounderDataCache_set ticker t w1) as [[[]|message] w2].
Qed.




(** X16. [fetchTickerSnapshot] changes no other ticker's record.  When it
    returns absent it has left the whole cache as it was and made exactly
    [maxRetries + 1] requests, all answered with an error.  It raises an
    error in two cases only: the error of the cache lookup, before anything
    is done; and the error of writing the cache file after a successful
    fetch, when the requests have been made and the new record is already in
    the table. *)
Theorem fetchTickerSnapshot_frame
    (ttlMs requestDelayMs : Q) (maxRetries : nat) (ticker : string) (w : World) :
  let run := fetchTickerSnapshot ttlMs requestDelayMs maxRetries ticker w in
  (forall other, other <> ticker ->
                 cache_record (snd run) other = cache_record w other) /\
  (fst run = Return None ->
     db (snd run) = db w /\
     api_calls (snd run) = (api_calls w + S maxRetries)%nat /\
     first_data (api w ticker) (api_calls w) (S maxRetries) = None) /\
  (forall message,
     fst run = Throw message ->
     (CompounderDataCache_get ttlMs ticker w = (Throw message, w)
      /\ snd run = w)
     \/ (exists snapshot,
           first_data (api w ticker) (api_calls w) (S maxRetries)
           = Some snapshot /\
           write_error w (writes w) = Some message /\
           (api_calls w < api_calls (snd run))%nat /\
           writes (snd run) = S (writes w) /\
           cache_record (snd run) ticker
           = Some {| payload_json := ValidPayload snapshot;
                     fetched_at := Some (clock w) |})).
Proof.
  cbn zeta. rewrite fetchTickerSnapshot_run, CompounderDataCache_get_run.
  destruct (fetchAndStore_run requestDelayMs maxRetries ticker w)
    as (w1 & _ & Hdb & Hclock & [Herror Hwrites] & Hcalls & Hnone & Hstore).
  assert (Hmiss :
    let run := fetchAndStore requestDelayMs maxRetries ticker w in
    (forall other, other <> ticker ->
                   cache_record (snd run) other = cache_record w other) /\
    (fst run = Return None ->
       db (snd run) = db w /\
       api_calls (snd run) = (api_calls w + S maxRetries)%nat /\
       first_data (api w ticker) (api_calls w) (S maxRetries) = None) /\
    (forall message,
       fst run = Throw message ->
       exists snapshot,
         first_data (api w ticker) (api_calls w) (S maxRetries)
         = Some snapshot /\
         write_error w (writes w) = Some message /\
         (api_calls w < api_calls (snd run))%nat /\
         writes (snd run) = S (writes w) /\
         cache_record (snd run) ticker
         = Some {| payload_json := ValidPayload snapshot;
                   fetched_at := Some (clock w) |})).
  { cbn zeta. rewrite Hstore.
    destruct (first_data _ _ _) as [fetched|]; cbn [fst snd].
    - rewrite CompounderDataCache_set_run, Herror, Hwrites, Hclock.
      destruct (db w1) as [table|] eqn:Hopen; cbn [fst snd].
      + split; [|split].
        * intros other Hother. unfold cache_record. simpl.
          rewrite <- Hdb. by rewrite lookup_insert_ne.
        * by destruct (write_error w (writes w)).
        * intros message Hthrow. exists fetched. split; [done|].
          destruct (write_error w (writes w)) as [error|]; [|done].
          injection Hthrow as ->. split; [done|]. simpl.
          split; [done|]. split; [by rewrite Hwrites|].
          unfold cache_record. simpl. by rewrite lookup_insert_eq.
      + split; [|done]. intros other _. unfold cache_record.
        by rewrite Hopen, <- Hdb.
    - split; [|split; [|done]].
      + intros other _. unfold cache_record. by rewrite Hdb.
      + intros _. by rewrite Hnone. }
  assert (Hrefetch :
    let run := fetchAndStore requestDelayMs maxRetries ticker w in
    forall message,
      fst run = Throw message ->
      (match cache_record w ticker with
       | Some row =>
           if too_old ttlMs (clock w) row then (Return None, w)
           else
             match payload_json row with
             | ValidPayload snapshot => (Return (Some (CachedSnapshot snapshot)), w)
             | NullPayload => (Return None, w)
             | ForeignPayload currentVersion =>
                 (Return (Some (CachedForeign currentVersion)), w)
             | MalformedPayload => (Throw "SyntaxError: JSON Parse error", w)
             end
       | None => (Return None, w)
       end = (Throw message, w) /\ snd run = w)
      \/ (exists snapshot,
            first_data (api w ticker) (api_calls w) (S maxRetries)
            = Some snapshot /\
            write_error w (writes w) = Some message /\
            (api_calls w < api_calls (snd run))%nat /\
            writes (snd run) = S (writes w) /\
            cache_record (snd run) ticker
            = Some {| payload_json := ValidPayload snapshot;
                      fetched_at := Some (clock w) |})).
  { cbn zeta. intros message Hthrow. right. by apply Hmiss. }
  destruct Hmiss as (Hothers & Habsent & _). cbn zeta in Hrefetch.
  destruct (cache_record w ticker) as [row|]; [|done].
  destruct (too_old ttlMs (clock w) row); [done|].
  destruct (payload_json row) as [cached| |currentVersion|]; [|done| |].
  - destruct (current_version (CachedSnapshot cached)); done.
  - destruct (current_version (CachedForeign currentVersion)); done.
  - cbn [fst snd]. split; [done|]. split; [done|].
    intros message [= <-]. by left.
Qed.

(** ** The pool: calls in flight *)

Lemma awaiting_indices_length (rs : list Runner) :
  (length (awaiting_indices rs) <= length rs)%nat.
Proof.
  induction rs as [|r rs IH]; [done|].
  destruct r; simpl; change (omap awaited rs) with (awaiting_indices rs); lia.
Qed.

(** X17. At every reachable state of [mapWithConcurrency], whatever the
    worker count and whichever calls reject, the calls started and not yet
    completed are those the runners are suspended on: there are never more
    of them than runners, [max(1, concurrency)] for an integer count, nor
    more than there are items; completions never outnumber calls, and no
    index completes twice. *)
Theorem pool_in_flight_bound {T} (items : list T) (rejects : nat -> bool)
    (concurrency : JsNum) (p0 p : Pool) :
  mapWithConcurrency_init concurrency = Some p0 ->
  rtc (pool_step items rejects) p0 p ->
  in_flight p = length (awaiting_indices (runners p)) /\
  (in_flight p <= length (runners p0))%nat /\
  (forall w : Z,
     concurrency = JsFinite (inject_Z w) ->
     (in_flight p <= Z.to_nat (Z.max 1 w))%nat) /\
  (in_flight p <= length items)%nat /\
  (length (settled p) + length (failed p) <= length (invoked p))%nat /\
  NoDup (settled p ++ failed p).
Proof.
  intros Hinit Hreach.
  apply mapWithConcurrency_init_runners in Hinit as (n & Hp0 & _ & Hinteger & _).
  destruct (pool_reachable_invariant items rejects p0 p n Hp0 Hreach)
    as [[Hcursor Hinvoked Hpending Hfinished _ _ _] Hlen].
  pose proof (Permutation_length Hpending) as Hcount.
  rewrite !length_app, length_seq in Hcount.
  assert (Hcalls : length (invoked p) = nextIndex p)
    by by rewrite Hinvoked, length_fmap, length_seq.
  pose proof (awaiting_indices_length (runners p)) as Hbound.
  assert (Hrunners : length (runners p0) = n)
    by (rewrite Hp0; apply length_replicate).
  unfold in_flight. rewrite Hcalls, Hrunners.
  split; [lia|]. split; [lia|].
  split; [intros w Hw; rewrite <- (Hinteger w Hw); lia|].
  split; [lia|]. split; [lia|].
  assert (Hnodup : NoDup (settled p ++ failed p ++ awaiting_indices (runners p))).
  { rewrite Hpending. apply NoDup_seq. }
  rewrite app_assoc in Hnodup. by apply NoDup_app in Hnodup as [? _].
Qed.

Lemma pool_in_flight_bound_witness :
  exists p : Pool,
    run_schedule ten_tickers (fun i => (i =? 1)%nat) [1; 0; 1; 2; 0]%nat
      (initial_pool 3)
    = Some p /\
    failed p = [1%nat] /\
    (in_flight p <= 3)%nat.
Proof.
  eexists. split; [vm_compute; reflexivity|]. split; [reflexivity|].
  destruct (pool_in_flight_bound ten_tickers (fun i => (i =? 1)%nat)
              (JsFinite 3) (initial_pool 3)
              {| nextIndex := 3;
                 runners := [Rejected; Ready; Awaiting 2];
                 invoked := (fun i => (ten_tickers !! i, i)) <$> seq 0 3;
                 settled := [0%nat];
                 failed := [1%nat] |})
    as (_ & Hbound & _).
  - reflexivity.
  - apply (run_schedule_rtc ten_tickers (fun i => (i =? 1)%nat)
             [1; 0; 1; 2; 0]%nat).
    vm_compute. reflexivity.
  - exact Hbound.
Defined.

(** ** The pool with a single runner *)

(** With one runner the calls complete in index order: the runner is either
    between calls, all calls below the cursor being fulfilled; or suspended
    on the call just below the cursor; or ended by the rejection of that
    call. *)
Lemma single_runner_invariant {T} (items : list T) (rejects : nat -> bool)
    (p : Pool) :
  rtc (pool_step items rejects) (initial_pool 1) p ->
  exists r, runners p = [r] /\
    match r with
    | Awaiting current =>
        S current = nextIndex p /\ settled p = seq 0 current /\ failed p = []
    | Rejected =>
        exists current,
          S current = nextIndex p /\ settled p = seq 0 current
          /\ failed p = [current]
    | _ => settled p = seq 0 (nextIndex p) /\ failed p = []
    end.
Proof.
  revert p. apply rtc_ind_r.
  - by exists Ready.
  - intros p p' _ [i Hstep] (r & Hrs & Hstate).
    apply runner_step_cases in Hstep
      as (before & after
          & [(Hsplit & _ & ->)
            |[(Hsplit & _ & ->)
             |[(current & Hsplit & _ & ->)|(current & Hsplit & _ & ->)]]]);
      rewrite Hrs in Hsplit;
      destruct before as [|? [|? ?]]; try discriminate Hsplit;
      injection Hsplit as -> <-; cbn [runners nextIndex settled failed].
    + exists (Awaiting (nextIndex p)). by destruct Hstate as [-> ->].
    + by exists Finished.
    + exists Ready. split; [done|]. destruct Hstate as (<- & -> & ->).
      by rewrite seq_S.
    + exists Rejected. split; [done|]. destruct Hstate as (<- & -> & ->).
      by exists current.
Qed.

(** X18. With a concurrency of 1 or less [mapWithConcurrency] is a plain
    sequential loop: at most one call is in flight, the calls complete in
    index order, and when the pool resolves they are [0, 1, ..., N-1] in that
    order. *)
Theorem sequential_pool_in_order {T} (items : list T) (rejects : nat -> bool)
    (concurrency : Q) (p0 p : Pool) :
  concurrency <= 1 ->
  mapWithConcurrency_init (JsFinite concurrency) = Some p0 ->
  rtc (pool_step items rejects) p0 p ->
  (in_flight p <= 1)%nat /\
  settled p = seq 0 (length (settled p)) /\
  (all_finished p -> settled p = seq 0 (length items)).
Proof.
  intros Hone Hinit Hreach.
  apply mapWithConcurrency_init_runners in Hinit as (n & Hp0 & _ & _ & Hsingle).
  rewrite (Hsingle concurrency eq_refl Hone) in Hp0. subst p0.
  destruct (single_runner_invariant items rejects p Hreach)
    as (r & Hrs & Hstate).
  destruct (pool_reachable_invariant items rejects _ p 1 eq_refl Hreach)
    as [[Hcursor Hinvoked Hpending Hfinished _ _ _] Hlen].
  assert (Hcalls : length (invoked p) = nextIndex p)
    by by rewrite Hinvoked, length_fmap, length_seq.
  unfold in_flight, all_finished. rewrite Hcalls, Hrs.
  destruct r as [|current| |].
  - destruct Hstate as [Hsettled ->]. rewrite Hsettled, length_seq.
    split; [simpl; lia|]. split; [done|]. by intros [=]%Forall_inv.
  - destruct Hstate as (<- & -> & ->). rewrite length_seq.
    split; [simpl; lia|]. split; [done|]. by intros [=]%Forall_inv.
  - destruct Hstate as [Hsettled ->]. rewrite Hsettled, length_seq.
    split; [simpl; lia|]. split; [done|].
    intros _. rewrite Hfinished; [done|]. rewrite Hrs. by left.
  - destruct Hstate as (current & <- & -> & ->). rewrite length_seq.
    split; [simpl; lia|]. split; [done|]. by intros [=]%Forall_inv.
Qed.

Lemma sequential_pool_in_order_witness :
  exists p : Pool,
    run_schedule ten_tickers (fun _ => false) [0; 0; 0; 0; 0]%nat (initial_pool 1)
    = Some p /\
    settled p = seq 0 (length (settled p)).
Proof.
  eexists. split; [vm_compute; reflexivity|].
  eapply (sequential_pool_in_order ten_tickers (fun _ => false) 1
            (initial_pool 1)); [lra | reflexivity |].
  apply (run_schedule_rtc ten_tickers (fun _ => false) [0; 0; 0; 0; 0]%nat).
  vm_compute. reflexivity.
Defined.

(** ** Sorting with any consistent comparator *)

Lemma sort_insert_StronglySorted {T} (compareFn : T -> T -> comparison)
    (x : T) (l : list T) :
  (forall a b, compareFn a b = Gt -> compareFn b a <> Gt) ->
  (forall a b c,
     compareFn a b <> Gt -> compareFn b c <> Gt -> compareFn a c <> Gt) ->
  StronglySorted (fun a b => compareFn a b <> Gt) l ->
  StronglySorted (fun a b => compareFn a b <> Gt) (sort_insert compareFn x l).
Proof.
  intros Hflip Htrans. induction 1 as [|y l Hl IH Hy]; simpl;
    [by repeat constructor|].
  destruct (compareFn x y) eqn:Hc.
  3: { constructor; [done|]. rewrite sort_insert_Permutation.
       constructor; [by apply Hflip | done]. }
  all: assert (Hxy : compareFn x y <> Gt) by congruence.
  all: constructor; [by constructor|]; constructor; [done|].
  all: eapply Forall_impl; [exact Hy|]; intros z Hz.
  all: by eapply Htrans.
Qed.

Lemma Array_sort_StronglySorted {T} (compareFn : T -> T -> comparison)
    (l : list T) :
  (forall a b, compareFn a b = Gt -> compareFn b a <> Gt) ->
  (forall a b c,
     compareFn a b <> Gt -> compareFn b c <> Gt -> compareFn a c <> Gt) ->
  StronglySorted (fun a b => compareFn a b <> Gt) (Array_sort compareFn l).
Proof.
  intros Hflip Htrans. induction l as [|x l IH]; [constructor|].
  rewrite Array_sort_cons. by apply sort_insert_StronglySorted.
Qed.

Lemma StronglySorted_impl {T} (R R' : T -> T -> Prop) (l : list T) :
  (forall a b, R a b -> R' a b) -> StronglySorted R l -> StronglySorted R' l.
Proof.
  intros Himpl. induction 1 as [|x l _ IH Hx]; constructor; [done|].
  eapply Forall_impl; [exact Hx | by intros; apply Himpl].
Qed.

(** A prefix and the rest of a sorted list are sorted, and every element of
    the prefix is related to every element of the rest. *)
Lemma StronglySorted_take_drop {T} (R : T -> T -> Prop) (n : nat) (l : list T) :
  StronglySorted R l ->
  StronglySorted R (take n l) /\ StronglySorted R (drop n l) /\
  (forall a b, a ∈ take n l -> b ∈ drop n l -> R a b).
Proof.
  intros Hl. rewrite <- (take_drop n l) in Hl.
  apply StronglySorted_app in Hl as (Hcross & Htake & Hdrop). done.
Qed.

(** ** The ranked results of a run *)

Lemma collect_row_fst (Math_pow : Q -> Q -> Q) (options : CliOptions)
    (state : list CompounderRow * list (CompounderRow * FilterEvaluation))
    (snapshot : option TickerSnapshot) :
  fst (collect_row Math_pow options state snapshot)
  = fst state ++ option_list (passing_row Math_pow options snapshot).
Proof.
  destruct snapshot as [snapshot|]; unfold collect_row, passing_row; cbn zeta;
    [|by rewrite app_nil_r].
  cbn [fst]. destruct (pass _); [done | by rewrite app_nil_r].
Qed.

Lemma collect_row_rows (Math_pow : Q -> Q -> Q) (options : CliOptions)
    (fetched : list (option TickerSnapshot))
    (state : list CompounderRow * list (CompounderRow * FilterEvaluation)) :
  fst (fold_left (collect_row Math_pow options) fetched state)
  = fst state ++ omap (passing_row Math_pow options) fetched.
Proof.
  revert state. induction fetched as [|o fetched IH]; intros state.
  - simpl. by rewrite app_nil_r.
  - cbn [fold_left omap list_omap]. rewrite IH, collect_row_fst.
    change (list_omap ?f ?l) with (omap f l).
    destruct (passing_row Math_pow options o); simpl;
      [by rewrite <- app_assoc | by rewrite app_nil_r].
Qed.

Lemma score_order_flip (a b : CompounderRow) :
  (carlsonQualityScore b ?= carlsonQualityScore a) = Gt ->
  (carlsonQualityScore a ?= carlsonQualityScore b) <> Gt.
Proof. rewrite <- Qgt_alt, <- Qle_alt. lra. Qed.

Lemma score_order_trans (a b c : CompounderRow) :
  (carlsonQualityScore b ?= carlsonQualityScore a) <> Gt ->
  (carlsonQualityScore c ?= carlsonQualityScore b) <> Gt ->
  (carlsonQualityScore c ?= carlsonQualityScore a) <> Gt.
Proof. rewrite <- !Qle_alt. lra. Qed.

(** X19. The results of a run, for a [topN] that is a non-negative integer:
    [qualified] counts the fetched snapshots whose row passes the filters;
    the results are the [min(topN, qualified)] best of these rows, in
    descending order of score; every result is the row of a fetched snapshot
    and passes; and a passing row that is left out scores no higher than any
    result. *)
Theorem run_results_ranked (Math_pow : Q -> Q -> Q) (options : CliOptions)
    (fetched : list (option TickerSnapshot)) :
  let passes snapshot :=
    pass (evaluateCarlsonFilters (buildRow Math_pow snapshot) options) in
  let qualified := fst (run_results Math_pow options fetched) in
  let results := snd (run_results Math_pow options fetched) in
  qualified = length (List.filter (fun o => from_option passes false o) fetched) /\
  length results = Nat.min (topN options) qualified /\
  StronglySorted score_ge results /\
  (forall row, row ∈ results ->
     exists snapshot,
       Some snapshot ∈ fetched /\ row = buildRow Math_pow snapshot /\
       passes snapshot = true) /\
  (forall snapshot,
     Some snapshot ∈ fetched -> passes snapshot = true ->
     buildRow Math_pow snapshot ∈ results \/
     forall row, row ∈ results -> score_ge row (buildRow Math_pow snapshot)).
Proof.
  cbn zeta. unfold run_results, rankTopRows. cbn [fst snd].
  rewrite collect_row_rows. cbn [fst app].
  set (passing := omap (passing_row Math_pow options) fetched).
  set (compareFn := fun a b : CompounderRow =>
                      carlsonQualityScore b ?= carlsonQualityScore a).
  assert (Hmember : forall row, row ∈ passing <->
            exists snapshot, Some snapshot ∈ fetched /\
              row = buildRow Math_pow snapshot /\
              pass (evaluateCarlsonFilters (buildRow Math_pow snapshot) options)
              = true).
  { intros row. unfold passing. rewrite list_elem_of_omap. split.
    - intros ([snapshot|] & Hin & Hrow); [|done].
      unfold passing_row in Hrow. cbn zeta in Hrow.
      destruct (pass _) eqn:Hpass; [|done]. injection Hrow as <-.
      by exists snapshot.
    - intros (snapshot & Hin & -> & Hpass). exists (Some snapshot).
      split; [done|]. unfold passing_row. cbn zeta. by rewrite Hpass. }
  assert (Hsorted : StronglySorted score_ge (Array_sort compareFn passing)).
  { eapply StronglySorted_impl;
      [|apply (Array_sort_StronglySorted compareFn passing)].
    - intros a b Hab. unfold score_ge. by apply Qle_alt.
    - intros a b. apply score_order_flip.
    - intros a b c. apply score_order_trans. }
  destruct (StronglySorted_take_drop score_ge (topN options) _ Hsorted)
    as (Htake & _ & Hcross).
  split; [|split; [|split; [|split]]].
  - unfold passing. clear. induction fetched as [|o fetched IH]; [done|].
    cbn [omap list_omap List.filter].
    change (list_omap ?f ?l) with (omap f l).
    destruct o as [snapshot|]; unfold passing_row at 1; cbn zeta;
      cbn [from_option]; [|done].
    destruct (pass _); simpl; by rewrite IH.
  - by rewrite length_take, Array_sort_Permutation.
  - exact Htake.
  - intros row Hrow. apply Hmember.
    rewrite <- (Array_sort_Permutation compareFn). by eapply subseteq_take.
  - intros snapshot Hin Hpass.
    assert (Hrow : buildRow Math_pow snapshot ∈ Array_sort compareFn passing).
    { rewrite Array_sort_Permutation. apply Hmember. by exists snapshot. }
    rewrite <- (take_drop (topN options)) in Hrow.
    apply elem_of_app in Hrow as [Hrow|Hrow]; [by left|].
    right. intros row Hresult. by apply Hcross.
Qed.

(** ** Yearly dividend yields *)

Lemma fold_left_invariant {A B} (f : B -> A -> B) (I : B -> Prop)
    (l : list A) (b : B) :
  I b -> (forall b a, a ∈ l -> I b -> I (f b a)) -> I (fold_left f l b).
Proof.
  revert b. induction l as [|a l IH]; intros b Hb Hstep; [done|].
  simpl. apply IH.
  - apply Hstep; [by left | done].
  - intros b' a' Ha'. apply Hstep. by right.
Qed.

Lemma byYear_update_keys (year : Z) (f : YearTotals -> YearTotals)
    (m : list (Z * YearTotals)) :
  NoDup m.*1 -> NoDup (byYear_update year f m).*1.
Proof.
  assert (Hkeys : forall m, (byYear_update year f m).*1
                            = if decide (year ∈ m.*1) then m.*1 else m.*1 ++ [year]).
  { clear m. induction m as [|[y totals] m IH].
    - cbn [byYear_update]. destruct (decide (year ∈ ([] : list (Z * YearTotals)).*1))
        as [Hin|_]; [by apply elem_of_nil in Hin | done].
    - cbn [byYear_update]. rewrite fmap_cons. cbn [fst].
      destruct (Z.eqb_spec y year) as [->|Hne]; rewrite fmap_cons; cbn [fst].
      + destruct (decide (year ∈ year :: m.*1)) as [_|Hout]; [done|].
        exfalso. apply Hout. by left.
      + rewrite IH. destruct (decide (year ∈ m.*1)) as [Hin|Hout];
          destruct (decide (year ∈ y :: m.*1)) as [Hin'|Hout']; try done.
        * exfalso. apply Hout'. by right.
        * apply elem_of_cons in Hin' as [?|?]; congruence. }
  intros Hm. rewrite Hkeys. destruct (decide (year ∈ m.*1)) as [Hin|Hout]; [done|].
  apply NoDup_app. split; [done|]. split; [|apply NoDup_singleton].
  by intros y Hy ->%list_elem_of_singleton.
Qed.

Lemma byYear_update_Forall (P : Z * YearTotals -> Prop) (year : Z)
    (f : YearTotals -> YearTotals) (m : list (Z * YearTotals)) :
  Forall P m ->
  (forall totals, P (year, totals) -> P (year, f totals)) ->
  P (year, f {| closeSum := 0; closeCount := 0; divSum := 0 |}) ->
  Forall P (byYear_update year f m).
Proof.
  intros Hm Hf Hnew. induction Hm as [|[y totals] m Hx Hm IH]; simpl.
  - by constructor.
  - destruct (Z.eqb_spec y year) as [->|Hne]; constructor; auto.
Qed.

(** The second loop keeps the order of the map and at most one point per
    entry. *)
Lemma yield_step_fold (P : Z * YearTotals -> Prop) (R : YieldYearPoint -> Prop)
    (m : list (Z * YearTotals)) (acc : list YieldYearPoint) :
  (forall y totals,
     P (y, totals) -> closeCount totals <> 0%nat ->
     0 < closeSum totals / num (closeCount totals) ->
     R {| year := y;
          yield := divSum totals / (closeSum totals / num (closeCount totals)) |}) ->
  NoDup ((year <$> acc) ++ m.*1) -> Forall R acc -> Forall P m ->
  NoDup (year <$> fold_left yield_step m acc)
  /\ Forall R (fold_left yield_step m acc).
Proof.
  intros HR. revert acc.
  induction m as [|[y totals] m IH]; intros acc Hkeys Hacc Hm.
  - simpl in *. by rewrite app_nil_r in Hkeys.
  - apply Forall_cons in Hm as [Hentry Hm]. cbn [fold_left].
    assert (Hskip : NoDup ((year <$> acc) ++ m.*1)).
    { simpl in Hkeys. apply NoDup_app in Hkeys as (Hl & Hdisj & Hr).
      apply NoDup_cons in Hr as [_ Hr]. apply NoDup_app.
      split; [done|]. split; [|done].
      intros k Hk Hk'. apply (Hdisj k Hk). by right. }
    assert (Hstep : yield_step acc (y, totals)
                    = if (closeCount totals =? 0)%nat then acc
                      else if Qleb (closeSum totals / num (closeCount totals)) 0
                           then acc
                           else acc ++ [{| year := y;
                                           yield := divSum totals
                                                    / (closeSum totals
                                                       / num (closeCount totals)) |}])
      by reflexivity.
    rewrite Hstep. clear Hstep.
    destruct (closeCount totals =? 0)%nat eqn:Hcount; [by apply IH|].
    apply Nat.eqb_neq in Hcount.
    destruct (Qleb (closeSum totals / num (closeCount totals)) 0) eqn:Havg;
      [by apply IH|].
    apply Qleb_gt in Havg. apply IH; [|by apply Forall_app; split; auto|done].
    rewrite fmap_app, <- app_assoc. exact Hkeys.
Qed.

Lemma year_order_flip (a b : YieldYearPoint) :
  (year a ?= year b)%Z = Gt -> (year b ?= year a)%Z <> Gt.
Proof.
  intros Hab Hba. apply Z.compare_gt_iff in Hab, Hba. lia.
Qed.

Lemma year_order_trans (a b c : YieldYearPoint) :
  (year a ?= year b)%Z <> Gt -> (year b ?= year c)%Z <> Gt ->
  (year a ?= year c)%Z <> Gt.
Proof.
  intros Hab Hbc Hac. apply Z.compare_gt_iff in Hac.
  apply Z.compare_ngt_iff in Hab, Hbc. lia.
Qed.

(** A list in ascending order without repeated keys is in strictly ascending
    order. *)
Lemma StronglySorted_strict (l : list YieldYearPoint) :
  StronglySorted (fun a b => (year a ?= year b)%Z <> Gt) l ->
  NoDup (year <$> l) -> StronglySorted year_lt l.
Proof.
  induction 1 as [|x l _ IH Hx]; [constructor|].
  rewrite fmap_cons. intros [Hfresh Hl]%NoDup_cons.
  constructor; [by apply IH|].
  apply Forall_forall. intros z Hz.
  assert (Hle : (year x ?= year z)%Z <> Gt)
    by (eapply Forall_forall in Hx; eauto).
  apply Z.compare_ngt_iff in Hle. unfold year_lt.
  assert (year x <> year z).
  { intros Heq. apply Hfresh. rewrite Heq. by apply list_elem_of_fmap_2. }
  lia.
Qed.

(** X20. [computeYearlyDividendYields] returns at most 5 points, in strictly
    ascending order of year, so no year occurs twice; every point belongs to
    the UTC year of some observation with a valid date; and when no
    observation has a negative dividend no yield is negative. *)
Theorem yearly_yields_shape (getUTCFullYear : Z -> Z)
    (history : list HistoricalPoint) :
  let result := computeYearlyDividendYields getUTCFullYear history in
  (length result <= 5)%nat /\
  StronglySorted year_lt result /\
  (forall p, p ∈ result ->
     exists item t,
       item ∈ history /\ hp_date item = DateObject (Some t) /\
       getUTCFullYear t = year p) /\
  ((forall item d, item ∈ history -> toNumber (hp_dividends item) = Some d ->
                   0 <= d) ->
   forall p, p ∈ result -> 0 <= yield p).
Proof.
  cbn zeta. unfold computeYearlyDividendYields. cbn zeta.
  set (byYear := fold_left (byYear_step getUTCFullYear) history []).
  set (dated := fun y : Z =>
         exists item t, item ∈ history /\ hp_date item = DateObject (Some t) /\
                        getUTCFullYear t = y).
  set (paid := forall item d, item ∈ history ->
                 toNumber (hp_dividends item) = Some d -> 0 <= d).
  set (P := fun e : Z * YearTotals => dated e.1 /\ (paid -> 0 <= divSum e.2)).
  set (R := fun p : YieldYearPoint => dated (year p) /\ (paid -> 0 <= yield p)).
  assert (Hmap : NoDup byYear.*1 /\ Forall P byYear).
  { unfold byYear. apply fold_left_invariant; [split; constructor|].
    intros m item Hitem [Hkeys Hentries]. unfold byYear_step.
    destruct (hp_date item) as [|[t|]| |] eqn:Hdate; try done.
    split; [by apply byYear_update_keys|].
    assert (Hdiv : paid -> 0 <= default 0 (toNumber (hp_dividends item))).
    { intros Hpaid. destruct (toNumber (hp_dividends item)) as [d|] eqn:Hd;
        simpl; [by eapply Hpaid | lra]. }
    assert (Hadd : forall totals,
              (paid -> 0 <= divSum totals) ->
              paid ->
              0 <= divSum (add_observation (toNumber (hp_close item))
                             (default 0 (toNumber (hp_dividends item))) totals)).
    { intros totals Htotals Hpaid. specialize (Htotals Hpaid).
      specialize (Hdiv Hpaid). unfold add_observation.
      destruct (toNumber (hp_close item)) as [close|]; cbn [divSum]; [|lra].
      destruct (Qltb 0 close); cbn [divSum]; lra. }
    apply byYear_update_Forall; [done| |].
    - intros totals [Hyear Htotals]. split; [done|]. by apply Hadd.
    - split; [by exists item, t|]. apply Hadd. simpl. lra. }
  destruct Hmap as [Hkeys Hentries].
  destruct (yield_step_fold P R byYear []) as [Hyears Hpoints];
    [|done|constructor|done|].
  { intros y totals [Hyear Htotals] Hcount Havg. split; [done|].
    intros Hpaid. cbn [yield]. apply Qdiv_nonneg; [by apply Htotals | done]. }
  set (points := fold_left yield_step byYear []) in *.
  set (compareFn := fun a b : YieldYearPoint => (year a ?= year b)%Z).
  assert (Hsorted : StronglySorted year_lt (Array_sort compareFn points)).
  { apply StronglySorted_strict.
    - apply (Array_sort_StronglySorted compareFn points).
      + intros a b. apply year_order_flip.
      + intros a b c. apply year_order_trans.
    - by rewrite Array_sort_Permutation. }
  assert (Hall : Forall R (slice_last 5 (Array_sort compareFn points))).
  { unfold slice_last. apply Forall_drop. by rewrite Array_sort_Permutation. }
  split; [rewrite slice_last_length; lia|]. split; [|split].
  - unfold slice_last.
    by destruct (StronglySorted_take_drop year_lt
                   (length (Array_sort compareFn points) - 5)
                   (Array_sort compareFn points) Hsorted) as (_ & ? & _).
  - intros p Hp. eapply Forall_forall in Hall as [Hyear _]; eauto.
  - intros Hpaid p Hp. eapply Forall_forall in Hall as [_ Hyield]; eauto.
Qed.

(** ** Normalized series *)

Lemma collect_points_omap {P} (point : RawFundamentalsPoint -> option P)
    (raw : list RawFundamentalsPoint) :
  collect_points point raw = omap point raw.
Proof.
  unfold collect_points.
  enough (Hacc : forall acc,
            fold_left (fun points row =>
                         match point row with
                         | Some p => points ++ [p]
                         | None => points
                         end) raw acc
            = acc ++ omap point raw) by apply (Hacc []).
  induction raw as [|row raw IH]; intros acc; simpl; [by rewrite app_nil_r|].
  rewrite IH. destruct (point row); [by rewrite <- app_assoc | done].
Qed.

Section NormalizerProofs.
Context {T : Type} `{Dated T}.

Variable localeCompare : string -> string -> comparison.
Hypothesis localeCompare_antisym :
  forall a b, localeCompare a b = CompOpp (localeCompare b a).
Hypothesis localeCompare_trans :
  forall a b c,
    localeCompare a b <> Gt -> localeCompare b c <> Gt -> localeCompare a c <> Gt.

Lemma dedupeByDate_members (rows : list T) (r : T) :
  r ∈ dedupeByDate localeCompare rows -> r ∈ rows.
Proof.
  rewrite dedupeByDate_Permutation. unfold Map_values.
  intros ([k v] & -> & Hin)%list_elem_of_fmap.
  apply elem_of_Map_of_rows in Hin as (before & after & -> & _).
  apply elem_of_app. right. by left.
Qed.

Lemma Map_of_rows_dates (rows : list T) (r : T) :
  r ∈ rows -> date r ∈ (Map_of_rows rows).*1.
Proof.
  induction rows as [|x rows IH] using rev_ind; [by intros ?%elem_of_nil|].
  rewrite Map_of_rows_snoc. intros Hin.
  destruct (decide (date x ∈ (Map_of_rows rows).*1)) as [Hold|Hnew].
  - rewrite Map_set_keys_present by done.
    apply elem_of_app in Hin as [Hin|Hx%list_elem_of_singleton];
      [auto | by subst r].
  - rewrite Map_set_fresh, fmap_app by done. apply elem_of_app.
    apply elem_of_app in Hin as [Hin|Hx%list_elem_of_singleton];
      [left; auto | right; subst r; by left].
Qed.

Lemma dedupeByDate_dates (rows : list T) (r : T) :
  r ∈ rows -> date r ∈ date <$> dedupeByDate localeCompare rows.
Proof.
  intros Hin. rewrite dedupeByDate_Permutation, <- Map_of_rows_keys.
  by apply Map_of_rows_dates.
Qed.

Lemma normalized_series_intro (point : RawFundamentalsPoint -> option T)
    (raw : list RawFundamentalsPoint) :
  normalized_series localeCompare point raw
    (dedupeByDate localeCompare (collect_points point raw)).
Proof.
  rewrite collect_points_omap. split; [|split; [|split]].
  - by apply dedupeByDate_sorted.
  - apply dedupeByDate_NoDup.
  - intros p Hp%dedupeByDate_members. by apply list_elem_of_omap in Hp.
  - intros row p Hrow Hp. apply dedupeByDate_dates.
    apply list_elem_of_omap. by exists row.
Qed.

End NormalizerProofs.

Section PointProofs.

Variable isoDay : Z -> string.
Variable Date_parse : string -> option Z.

Lemma row_date_Some (row : RawFundamentalsPoint) (d : string) :
  row_date isoDay Date_parse row = Some d ->
  normalizeDate isoDay Date_parse (raw_date row) = Some d /\ d <> "".
Proof.
  unfold row_date.
  destruct (normalizeDate isoDay Date_parse (raw_date row)) as [d'|]; [|done].
  destruct (String.eqb_spec d' ""); [done|]. by intros [= <-].
Qed.

Lemma financial_point_Some (row : RawFundamentalsPoint) (p : AnnualFinancialPoint) :
  financial_point isoDay Date_parse row = Some p ->
  row_date isoDay Date_parse row = Some (af_date p) /\
  (is_Some (totalRevenue p) \/ is_Some (netIncome p) \/ is_Some (dilutedEPS p)
   \/ is_Some (basicEPS p) \/ is_Some (dilutedAverageShares p)).
Proof.
  unfold financial_point. destruct (row_date isoDay Date_parse row); [|done].
  cbn zeta.
  destruct (toNumber (raw_totalRevenue row) ?? toNumber (raw_operatingRevenue row)),
    (toNumber (raw_netIncomeCommonStockholders row) ?? toNumber (raw_netIncome row)),
    (toNumber (raw_dilutedEPS row)), (toNumber (raw_basicEPS row)),
    (toNumber (raw_dilutedAverageShares row));
    simpl; intros [= <-]; simpl; (split; [done|]); eauto 6.
Qed.

Lemma balance_sheet_point_Some (row : RawFundamentalsPoint)
    (p : AnnualBalanceSheetPoint) :
  balance_sheet_point isoDay Date_parse row = Some p ->
  row_date isoDay Date_parse row = Some (bs_date p) /\
  (is_Some (stockholdersEquity p) \/ is_Some (longTermDebt p)
   \/ is_Some (longTermDebtAndCapitalLeaseObligation p) \/ is_Some (totalDebt p)
   \/ is_Some (cashAndCashEquivalents p)
   \/ is_Some (cashCashEquivalentsAndShortTermInvestments p)).
Proof.
  unfold balance_sheet_point. destruct (row_date isoDay Date_parse row); [|done].
  cbn zeta.
  destruct (toNumber (raw_stockholdersEquity row)),
    (toNumber (raw_longTermDebt row)),
    (toNumber (raw_longTermDebtAndCapitalLeaseObligation row)),
    (toNumber (raw_totalDebt row)), (toNumber (raw_cashAndCashEquivalents row)),
    (toNumber (raw_cashCashEquivalentsAndShortTermInvestments row));
    simpl; intros [= <-]; simpl; (split; [done|]); eauto 7.
Qed.

Lemma cash_flow_point_Some (row : RawFundamentalsPoint) (p : AnnualCashFlowPoint) :
  cash_flow_point isoDay Date_parse row = Some p ->
  row_date isoDay Date_parse row = Some (cf_date p) /\
  (is_Some (operatingCashFlow p) \/ is_Some (capitalExpenditure p)
   \/ is_Some (freeCashFlow p)).
Proof.
  unfold cash_flow_point. destruct (row_date isoDay Date_parse row); [|done].
  cbn zeta.
  destruct (toNumber (raw_operatingCashFlow row)),
    (toNumber (raw_capitalExpenditure row)), (toNumber (raw_freeCashFlow row));
    simpl; intros [= <-]; simpl; (split; [done|]); eauto 6.
Qed.

Lemma quarterly_shares_point_Some (row : RawFundamentalsPoint)
    (p : QuarterlySharesPoint) :
  quarterly_shares_point isoDay Date_parse row = Some p ->
  row_date isoDay Date_parse row = Some (qs_date p) /\
  (is_Some (ordinarySharesNumber p) \/ is_Some (shareIssued p)).
Proof.
  unfold quarterly_shares_point. destruct (row_date isoDay Date_parse row); [|done].
  cbn zeta.
  destruct (toNumber (raw_ordinarySharesNumber row)),
    (toNumber (raw_shareIssued row));
    simpl; intros [= <-]; simpl; (split; [done|]); eauto 6.
Qed.

End PointProofs.

(** X21. For a consistent [localeCompare], each of the four [to...Points]
    functions returns its points in ascending order of date with no date
    twice; every point is made from a raw row, carries that row's normalized
    date, which is not empty, and has at least one of its values defined;
    and the date of every raw row that yields a point is present. *)
Theorem normalized_points
    (isoDay : Z -> string) (Date_parse : string -> option Z)
    (localeCompare : string -> string -> comparison)
    (raw : list RawFundamentalsPoint) :
  (forall a b, localeCompare a b = CompOpp (localeCompare b a)) ->
  (forall a b c,
     localeCompare a b <> Gt -> localeCompare b c <> Gt ->
     localeCompare a c <> Gt) ->
  (normalized_series localeCompare (financial_point isoDay Date_parse) raw
     (toAnnualFinancialPoints isoDay Date_parse localeCompare raw) /\
   normalized_series localeCompare (balance_sheet_point isoDay Date_parse) raw
     (toAnnualBalanceSheetPoints isoDay Date_parse localeCompare raw) /\
   normalized_series localeCompare (cash_flow_point isoDay Date_parse) raw
     (toAnnualCashFlowPoints isoDay Date_parse localeCompare raw) /\
   normalized_series localeCompare (quarterly_shares_point isoDay Date_parse) raw
     (toQuarterlySharesPoints isoDay Date_parse localeCompare raw)) /\
  (forall row p,
     financial_point isoDay Date_parse row = Some p ->
     normalizeDate isoDay Date_parse (raw_date row) = Some (af_date p) /\
     af_date p <> "" /\
     (is_Some (totalRevenue p) \/ is_Some (netIncome p) \/ is_Some (dilutedEPS p)
      \/ is_Some (basicEPS p) \/ is_Some (dilutedAverageShares p))) /\
  (forall row p,
     balance_sheet_point isoDay Date_parse row = Some p ->
     normalizeDate isoDay Date_parse (raw_date row) = Some (bs_date p) /\
     bs_date p <> "" /\
     (is_Some (stockholdersEquity p) \/ is_Some (longTermDebt p)
      \/ is_Some (longTermDebtAndCapitalLeaseObligation p)
      \/ is_Some (totalDebt p) \/ is_Some (cashAndCashEquivalents p)
      \/ is_Some (cashCashEquivalentsAndShortTermInvestments p))) /\
  (forall row p,
     cash_flow_point isoDay Date_parse row = Some p ->
     normalizeDate isoDay Date_parse (raw_date row) = Some (cf_date p) /\
     cf_date p <> "" /\
     (is_Some (operatingCashFlow p) \/ is_Some (capitalExpenditure p)
      \/ is_Some (freeCashFlow p))) /\
  (forall row p,
     quarterly_shares_point isoDay Date_parse row = Some p ->
     normalizeDate isoDay Date_parse (raw_date row) = Some (qs_date p) /\
     qs_date p <> "" /\
     (is_Some (ordinarySharesNumber p) \/ is_Some (shareIssued p))).
Proof.
  intros Hantisym Htrans. split; [|split; [|split; [|split]]].
  - repeat split; by apply normalized_series_intro.
  - intros row p [Hdate Hvalue]%financial_point_Some.
    apply row_date_Some in Hdate as [? ?]. done.
  - intros row p [Hdate Hvalue]%balance_sheet_point_Some.
    apply row_date_Some in Hdate as [? ?]. done.
  - intros row p [Hdate Hvalue]%cash_flow_point_Some.
    apply row_date_Some in Hdate as [? ?]. done.
  - intros row p [Hdate Hvalue]%quarterly_shares_point_Some.
    apply row_date_Some in Hdate as [? ?]. done.
Qed.

Lemma normalized_points_witness :
  toAnnualCashFlowPoints sample_isoDay (fun _ => None) code_unit_compare
    sample_raw_rows
  = [{| cf_date := "2021-12-31"; operatingCashFlow := Some 180;
        capitalExpenditure := Some (-40); freeCashFlow := None |};
     {| cf_date := "2022-12-31"; operatingCashFlow := Some 210;
        capitalExpenditure := Some (-50); freeCashFlow := None |}] /\
  NoDup (date <$> toAnnualCashFlowPoints sample_isoDay (fun _ => None)
                    code_unit_compare sample_raw_rows).
Proof.
  split; [by vm_compute|].
  destruct (normalized_points sample_isoDay (fun _ => None) code_unit_compare
              sample_raw_rows code_unit_compare_antisym code_unit_compare_trans)
    as ((_ & _ & (_ & Hunique & _) & _) & _).
  exact Hunique.
Defined.

(** ** The snapshot of a fetch *)

(** X22. The snapshot [fetchFromApi] builds carries the current schema
    version and the requested ticker; for a consistent [localeCompare] each of
    its four series is in ascending order of date with no date twice; it has
    at most 5 yearly yields; and its current price is the regular market
    price when that is a finite number, the price of the financial data
    otherwise. *)
Theorem fetched_snapshot_shape
    (isoDay : Z -> string) (Date_parse : string -> option Z)
    (getUTCFullYear : Z -> Z)
    (localeCompare : string -> string -> comparison)
    (symbol : string) (quoteSummary : QuoteSummarySubset)
    (annualFinancialsRaw annualBalanceSheetRaw annualCashFlowRaw
     quarterlyBalanceSheetRaw : list RawFundamentalsPoint)
    (history : list HistoricalPoint) :
  (forall a b, localeCompare a b = CompOpp (localeCompare b a)) ->
  (forall a b c,
     localeCompare a b <> Gt -> localeCompare b c <> Gt ->
     localeCompare a c <> Gt) ->
  let snapshot :=
    fetchFromApi_snapshot isoDay Date_parse getUTCFullYear localeCompare symbol
      quoteSummary annualFinancialsRaw annualBalanceSheetRaw annualCashFlowRaw
      quarterlyBalanceSheetRaw history in
  schemaVersion snapshot = 1%Z /\ ticker snapshot = symbol /\
  (StronglySorted (date_le localeCompare) (annualFinancials snapshot)
   /\ NoDup (date <$> annualFinancials snapshot)) /\
  (StronglySorted (date_le localeCompare) (annualBalanceSheet snapshot)
   /\ NoDup (date <$> annualBalanceSheet snapshot)) /\
  (StronglySorted (date_le localeCompare) (annualCashFlow snapshot)
   /\ NoDup (date <$> annualCashFlow snapshot)) /\
  (StronglySorted (date_le localeCompare) (quarterlyShares snapshot)
   /\ NoDup (date <$> quarterlyShares snapshot)) /\
  (length (yearlyDividendYields snapshot) <= 5)%nat /\
  currentPrice snapshot
  = match price_regularMarketPrice quoteSummary with
    | JsNumber (JsFinite v) => Some v
    | _ => toNumber (financialData_currentPrice quoteSummary)
    end.
Proof.
  intros Hantisym Htrans. cbn zeta. unfold fetchFromApi_snapshot.
  cbn [schemaVersion ticker annualFinancials annualBalanceSheet annualCashFlow
       quarterlyShares yearlyDividendYields currentPrice].
  split; [done|]. split; [done|].
  split; [split; [by apply dedupeByDate_sorted | apply dedupeByDate_NoDup]|].
  split; [split; [by apply dedupeByDate_sorted | apply dedupeByDate_NoDup]|].
  split; [split; [by apply dedupeByDate_sorted | apply dedupeByDate_NoDup]|].
  split; [split; [by apply dedupeByDate_sorted | apply dedupeByDate_NoDup]|].
  split.
  - unfold computeYearlyDividendYields. cbn zeta.
    rewrite slice_last_length. lia.
  - by destruct (price_regularMarketPrice quoteSummary) as [|[v| |]|].
Qed.

Lemma fetched_snapshot_shape_witness :
  NoDup (date <$> annualCashFlow
           (fetchFromApi_snapshot sample_isoDay (fun _ => None) (fun _ => 2022%Z)
              code_unit_compare "ACME"
              {| financialData_operatingMargins := JsNumber (JsFinite 0.25);
                 financialData_currentPrice := JsNumber (JsFinite 10);
                 defaultKeyStatistics_sharesOutstanding := JsNumber (JsFinite 1000);
                 summaryDetail_dividendYield := JsUndefined;
                 summaryDetail_marketCap := JsOther;
                 price_regularMarketPrice := JsNumber JsNaN |}
              [] [] sample_raw_rows [] [])).
Proof.
  destruct (fetched_snapshot_shape sample_isoDay (fun _ => None)
              (fun _ => 2022%Z) code_unit_compare "ACME"
              {| financialData_operatingMargins := JsNumber (JsFinite 0.25);
                 financialData_currentPrice := JsNumber (JsFinite 10);
                 defaultKeyStatistics_sharesOutstanding := JsNumber (JsFinite 1000);
                 summaryDetail_dividendYield := JsUndefined;
                 summaryDetail_marketCap := JsOther;
                 price_regularMarketPrice := JsNumber JsNaN |}
              [] [] sample_raw_rows [] []
              code_unit_compare_antisym code_unit_compare_trans)
    as (_ & _ & _ & _ & (_ & Hunique) & _).
  exact Hunique.
Defined.

(** ** Dates *)

(** X23. [normalizeDate] returns the ISO day of a time value or nothing.  A
    missing date, an invalid [Date], the numbers 0 and NaN, the infinities and
    the empty string give nothing; a number of seconds above 1e9 and up to
    1e12 gives the same day as the same instant in milliseconds; and a number
    gives a day only when the instant, in milliseconds, lies within
    8.64e15 of the epoch. *)
Theorem normalizeDate_cases
    (isoDay : Z -> string) (Date_parse : string -> option Z) :
  let normalize := normalizeDate isoDay Date_parse in
  (forall value day, normalize value = Some day -> exists t, day = isoDay t) /\
  normalize NoDate = None /\
  normalize (DateObject None) = None /\
  normalize (DateString "") = None /\
  normalize (DateNumber JsNaN) = None /\
  (forall negative, normalize (DateNumber (JsInfinity negative)) = None) /\
  (forall v, v == 0 -> normalize (DateNumber (JsFinite v)) = None) /\
  (forall seconds,
     1000000000 < seconds -> seconds <= 1000000000000 ->
     normalize (DateNumber (JsFinite seconds))
     = normalize (DateNumber (JsFinite (seconds * 1000)))) /\
  (forall v day,
     normalize (DateNumber (JsFinite v)) = Some day ->
     Qabs (if Qltb 1000000000000 v then v else v * 1000) <= 8640000000000000).
Proof.
  cbn zeta. split; [|repeat split].
  - intros value day. unfold normalizeDate.
    destruct value as [|[t|]|n|text]; try done.
    + intros [= <-]. by exists t.
    + destruct (JsNum_falsy n); [done|].
      destruct (Date_of_millis _) as [t|]; [|done]. intros [= <-]. by exists t.
    + destruct (String.eqb text ""); [done|].
      destruct (Date_parse text) as [t|]; [|done]. intros [= <-]. by exists t.
  - by intros [|].
  - intros v Hv. unfold normalizeDate, JsNum_falsy.
    apply Qeq_bool_iff in Hv. by rewrite Hv.
  - intros seconds Hlo Hhi. unfold normalizeDate, JsNum_falsy, JsNum_gt.
    assert (Hnonzero : Qeq_bool seconds 0 = false).
    { apply not_true_is_false. intros Heq%Qeq_bool_iff. lra. }
    assert (Hnonzero' : Qeq_bool (seconds * 1000) 0 = false).
    { apply not_true_is_false. intros Heq%Qeq_bool_iff. lra. }
    assert (Hsmall : Qltb 1000000000000 seconds = false) by by apply Qltb_ge.
    assert (Hlarge : Qltb 1000000000000 (seconds * 1000) = true)
      by (apply Qltb_lt; lra).
    by rewrite Hnonzero, Hnonzero', Hsmall, Hlarge.
  - intros v day. unfold normalizeDate, JsNum_gt, JsNum_scale.
    destruct (JsNum_falsy (JsFinite v)); [done|].
    destruct (Qltb 1000000000000 v); unfold Date_of_millis.
    + destruct (Qltb 8640000000000000 (Qabs v)) eqn:Hrange; [done|].
      intros _. by apply Qltb_ge.
    + destruct (Qltb 8640000000000000 (Qabs (v * 1000))) eqn:Hrange; [done|].
      intros _. by apply Qltb_ge.
Qed.

(** ** Table cells *)

(** X24. [pad] returns exactly [width] code units: the value cut to [width]
    when it is at least that long, else the value followed by as many
    spaces (U+0020) as are missing.  The value survives up to the width, what
    follows it is spaces only, and padding twice to the same width is padding
    once. *)
Theorem pad_width (value : list CodeUnit) (width : nat) :
  length (pad value width) = width /\
  pad value width = take width value ++ replicate (width - length value) 32%N /\
  take (length value) (pad value width) = take width value /\
  drop (length value) (pad value width)
  = replicate (width - length value) 32%N /\
  (forall i unit,
     (length value <= i)%nat -> pad value width !! i = Some unit ->
     unit = 32%N) /\
  pad (pad value width) width = pad value width.
Proof.
  assert (Hlength : forall v, length (pad v width) = width).
  { intros v. unfold pad, padEnd. destruct (width <=? length v)%nat eqn:Hw.
    - apply Nat.leb_le in Hw. rewrite length_take. lia.
    - apply Nat.leb_gt in Hw. rewrite length_app, length_replicate. lia. }
  assert (Hshape : pad value width
                   = take width value ++ replicate (width - length value) 32%N).
  { unfold pad, padEnd. destruct (width <=? length value)%nat eqn:Hw.
    - apply Nat.leb_le in Hw.
      replace (width - length value)%nat with 0%nat by lia.
      by rewrite app_nil_r.
    - apply Nat.leb_gt in Hw. by rewrite take_ge by lia. }
  assert (Hfill : drop (length value) (pad value width)
                  = replicate (width - length value) 32%N).
  { unfold pad, padEnd. destruct (width <=? length value)%nat eqn:Hw.
    - apply Nat.leb_le in Hw.
      replace (width - length value)%nat with 0%nat by lia.
      apply drop_ge. rewrite length_take. lia.
    - by rewrite drop_app_length. }
  split; [apply Hlength|]. split; [exact Hshape|].
  split; [|split; [exact Hfill|split]].
  - unfold pad, padEnd. destruct (width <=? length value)%nat eqn:Hw.
    + apply Nat.leb_le in Hw. rewrite take_take. f_equal. lia.
    + apply Nat.leb_gt in Hw.
      rewrite take_app_length, take_ge by lia. done.
  - intros i unit Hi Hunit.
    assert (Hlookup : drop (length value) (pad value width)
                        !! (i - length value)%nat = Some unit).
    { rewrite lookup_drop, <- Hunit. f_equal. lia. }
    rewrite Hfill in Hlookup.
    by apply lookup_replicate in Hlookup as [-> _].
  - unfold pad at 1. rewrite Hlength, Nat.leb_refl.
    apply take_ge. rewrite Hlength. lia.
Qed.

(** ** The scanned universe and the diagnostics *)

(** X25. The tickers a run scans are a prefix of the explicit list when one
    is given and not empty, and of the market universe otherwise, an empty
    explicit list counting as none; with [maxTickers] a non-negative integer
    there are [min(maxTickers, available)] of them. *)
Theorem selectedTickers_prefix (options : CliOptions) (universe : list string) :
  let available :=
    match tickers options with
    | Some (t :: explicit) => t :: explicit
    | _ => universe
    end in
  selectedTickers options universe `prefix_of` available /\
  length (selectedTickers options universe)
  = match maxTickers options with
    | Some n => Nat.min n (length available)
    | None => length available
    end.
Proof.
  cbn zeta. unfold selectedTickers.
  destruct (tickers options) as [[|t explicit]|]; cbn [length Nat.ltb Nat.leb];
    destruct (maxTickers options) as [n|]; split;
    first [apply prefix_take | apply length_take | done
          | by rewrite length_take].
Qed.

Lemma collect_row_snd (Math_pow : Q -> Q -> Q) (options : CliOptions)
    (state : list CompounderRow * list (CompounderRow * FilterEvaluation))
    (snapshot : option TickerSnapshot) :
  snd (collect_row Math_pow options state snapshot)
  = snd state
    ++ match snapshot with
       | Some snapshot =>
           if showRejected options || negb (undefined_ (tickers options))
           then [(buildRow Math_pow snapshot,
                  evaluateCarlsonFilters (buildRow Math_pow snapshot) options)]
           else []
       | None => []
       end.
Proof.
  destruct snapshot as [snapshot|]; unfold collect_row; cbn zeta; cbn [snd];
    [|by rewrite app_nil_r].
  destruct (showRejected options || negb (undefined_ (tickers options)));
    [done | by rewrite app_nil_r].
Qed.

(** X26. The diagnostics of a run are all or nothing: with [--show-rejected]
    or an explicit ticker list there is one entry per fetched snapshot, in
    completion order, holding its row and the evaluation of that row, and the
    passing rows are the rows of the entries that pass; otherwise there are
    none.  So the filter applied to the diagnostics before they are printed
    as JSON never removes an entry. *)
Theorem diagnostics_all_or_nothing (Math_pow : Q -> Q -> Q) (options : CliOptions)
    (fetched : list (option TickerSnapshot)) :
  let state := fold_left (collect_row Math_pow options) fetched ([], []) in
  let requested := showRejected options || negb (undefined_ (tickers options)) in
  snd state
  = (if requested
     then (fun snapshot =>
             (buildRow Math_pow snapshot,
              evaluateCarlsonFilters (buildRow Math_pow snapshot) options))
          <$> omap id fetched
     else []) /\
  (requested = true ->
   fst state = fst <$> List.filter (fun d => pass (snd d)) (snd state)) /\
  List.filter (fun d => requested || pass (snd d)) (snd state) = snd state.
Proof.
  cbn zeta.
  set (requested := showRejected options || negb (undefined_ (tickers options))).
  set (entry := fun snapshot =>
         (buildRow Math_pow snapshot,
          evaluateCarlsonFilters (buildRow Math_pow snapshot) options)).
  assert (Hdiagnostics : forall state,
            snd (fold_left (collect_row Math_pow options) fetched state)
            = snd state ++ (if requested then entry <$> omap id fetched else [])).
  { induction fetched as [|o fetched IH]; intros state.
    - simpl. destruct requested; by rewrite app_nil_r.
    - cbn [fold_left]. rewrite IH, collect_row_snd. fold requested.
      rewrite <- app_assoc. f_equal.
      destruct o as [snapshot|]; destruct requested; done. }
  rewrite Hdiagnostics, collect_row_rows. cbn [fst snd app].
  split; [done|]. split.
  - intros ->. clear. induction fetched as [|[snapshot|] fetched IH];
      [done| |exact IH].
    cbn [omap list_omap id]. change (list_omap ?f ?l) with (omap f l).
    rewrite fmap_cons. cbn [List.filter].
    change (entry snapshot).2
      with (evaluateCarlsonFilters (buildRow Math_pow snapshot) options).
    unfold passing_row at 1. cbn zeta.
    destruct (pass _); [|exact IH].
    rewrite fmap_cons. by rewrite IH.
  - clear Hdiagnostics. destruct requested; [|done]. cbn [orb].
    induction (entry <$> omap id fetched) as [|d l IH]; [done|].
    cbn [List.filter]. by rewrite IH.
Qed.

(** ** Thresholds *)

(** X27. The two consistency criteria do not depend on the options, and
    lowering the thresholds never rejects a row: a row that passes keeps
    passing when [minRoic] and [minOperatingMargin] are not raised and the
    magnitude of [minBuybackPercent] is not raised. *)
Theorem filters_monotone (row : CompounderRow) (options options' : CliOptions) :
  minRoic options' <= minRoic options ->
  minOperatingMargin options' <= minOperatingMargin options ->
  Qabs (minBuybackPercent options') <= Qabs (minBuybackPercent options) ->
  revenuePass (evaluateCarlsonFilters row options')
  = revenuePass (evaluateCarlsonFilters row options) /\
  netIncomePass (evaluateCarlsonFilters row options')
  = netIncomePass (evaluateCarlsonFilters row options) /\
  (pass (evaluateCarlsonFilters row options) = true ->
   pass (evaluateCarlsonFilters row options') = true).
Proof.
  intros Hroic Hmargin Hbuyback. split; [done|]. split; [done|].
  unfold evaluateCarlsonFilters. cbn [pass]. rewrite !andb_true_iff.
  intros [[[[Hrevenue Hincome] Hr] Hb] Hm].
  split; [split; [split; [by split|]|]|].
  - destruct (roicPercent row) as [roic|]; [|done].
    apply Qltb_lt. apply Qltb_lt in Hr. lra.
  - destruct (sharesChange3yPercent row) as [change|]; [|done].
    apply Qleb_le. apply Qleb_le in Hb. lra.
  - destruct (operatingMarginPercent row) as [margin|]; [|done].
    apply Qltb_lt. apply Qltb_lt in Hm. lra.
Qed.

Lemma filters_monotone_witness :
  pass (evaluateCarlsonFilters boundary_row (lenient_options 5 5 (-1))) = true.
Proof.
  destruct (filters_monotone boundary_row (lenient_options 10 10 2)
              (lenient_options 5 5 (-1))) as (_ & _ & Hpass);
    [by vm_compute..|].
  apply Hpass. reflexivity.
Defined.

(** ** Quality score: monotonicity *)

Lemma clamp_monotone (a b lo hi : Q) :
  a <= b -> clamp a lo hi <= clamp b lo hi.
Proof.
  intros Hab. unfold clamp.
  destruct (Math_min_cases hi a) as [[Ha ->]|[Ha ->]];
    destruct (Math_min_cases hi b) as [[Hb ->]|[Hb ->]];
    destruct (Math_max_cases lo a) as [[Ha' Ea]|[Ha' Ea]];
    destruct (Math_max_cases lo b) as [[Hb' Eb]|[Hb' Eb]];
    destruct (Math_max_cases lo hi) as [[Hh Eh]|[Hh Eh]];
    rewrite ?Ea, ?Eb, ?Eh; lra.
Qed.

Lemma Math_round_monotone (a b : Q) : a <= b -> Math_round a <= Math_round b.
Proof.
  intros Hab. unfold Math_round. rewrite <- Zle_Qle.
  apply Qfloor_resp_le. lra.
Qed.

(** Adding the points of an optional metric keeps the order of two scores
    when the metric has not got worse. *)
Lemma add_points_monotone (R : Q -> Q -> Prop) (f : Q -> Q) (weight s s' : Q)
    (before after : option Q) :
  (forall a b, R a b -> f a <= f b) -> 0 <= weight ->
  s <= s' -> no_worse R before after ->
  match before with
  | Some x => s + clamp (f x) 0 1 * weight
  | None => s
  end
  <= match after with
     | Some x => s' + clamp (f x) 0 1 * weight
     | None => s'
     end.
Proof.
  intros Hf Hweight Hs Horder.
  destruct before as [a|], after as [b|]; simpl in Horder; try done.
  - pose proof (clamp_monotone (f a) (f b) 0 1 (Hf a b Horder)). nra.
  - destruct (clamp_bounds (f b) 0 1) as [Hlo _]; [lra|]. nra.
Qed.

(** X28. The quality score never falls when a metric improves, the other
    metrics being the same, defined or not: it is non-decreasing in ROIC,
    latest FCF, FCF growth and operating margin and non-increasing in the
    3-year share change, and a metric that is defined never scores below the
    same metric missing. *)
Theorem carlson_score_monotone
    (revenue income eps : GrowthStats)
    (roic roic' fcf fcf' growth growth' change change' margin margin'
     : option Q) :
  no_worse Qle roic roic' ->
  no_worse Qle fcf fcf' ->
  no_worse Qle growth growth' ->
  no_worse (fun before after => after <= before) change change' ->
  no_worse Qle margin margin' ->
  computeCarlsonScore revenue income eps roic fcf growth change margin
  <= computeCarlsonScore revenue income eps roic' fcf' growth' change' margin'.
Proof.
  intros Hroic Hfcf Hgrowth Hchange Hmargin.
  unfold computeCarlsonScore. cbn zeta.
  assert (Hdiv : forall a b c, 0 < c -> a <= b -> a / c <= b / c).
  { intros a b c Hc Hle. apply Qle_shift_div_l; [done|].
    unfold Qdiv. rewrite <- Qmult_assoc, (Qmult_comm (/ c)), Qmult_inv_r by lra.
    lra. }
  apply clamp_monotone, Math_round_monotone.
  apply (add_points_monotone Qle (fun m => (m - 10) / 20) 10);
    [intros a b Hab; apply Hdiv; lra | lra | | done].
  apply (add_points_monotone (fun before after => after <= before)
           (fun c => - c / 8) 10);
    [intros a b Hab; apply Hdiv; lra | lra | | done].
  apply (add_points_monotone Qle (fun g => (g + 5) / 20) 5);
    [intros a b Hab; apply Hdiv; lra | lra | | done].
  assert (Hbase :
    match roic with
    | Some r =>
        0 + normalizedGrowthScore revenue 20 + normalizedGrowthScore income 20
        + normalizedGrowthScore eps 10 + clamp ((r - 5) / 20) 0 1 * 20
    | None =>
        0 + normalizedGrowthScore revenue 20 + normalizedGrowthScore income 20
        + normalizedGrowthScore eps 10
    end
    <= match roic' with
       | Some r =>
           0 + normalizedGrowthScore revenue 20 + normalizedGrowthScore income 20
           + normalizedGrowthScore eps 10 + clamp ((r - 5) / 20) 0 1 * 20
       | None =>
           0 + normalizedGrowthScore revenue 20 + normalizedGrowthScore income 20
           + normalizedGrowthScore eps 10
       end).
  { apply (add_points_monotone Qle (fun r => (r - 5) / 20) 20);
      [intros a b Hab; apply Hdiv; lra | lra | lra | done]. }
  destruct fcf as [f|], fcf' as [f'|]; simpl in Hfcf; try done.
  - destruct (Qltb 0 f) eqn:Hpos.
    + apply Qltb_lt in Hpos.
      assert (Hpos' : Qltb 0 f' = true) by (apply Qltb_lt; lra).
      rewrite Hpos'. lra.
    + destruct (Qltb 0 f'); lra.
  - destruct (Qltb 0 f'); lra.
Qed.

Lemma carlson_score_monotone_witness :
  computeCarlsonScore (revenueGrowth boundary_row) (netIncomeGrowth boundary_row)
    (epsGrowth boundary_row) (Some 15) None (Some 0) None (Some 20)
  <= computeCarlsonScore (revenueGrowth boundary_row)
       (netIncomeGrowth boundary_row) (epsGrowth boundary_row)
       (Some 25) (Some 40) (Some 10) None (Some 30).
Proof.
  apply (carlson_score_monotone (revenueGrowth boundary_row)
           (netIncomeGrowth boundary_row) (epsGrowth boundary_row)
           (Some 15) (Some 25) None (Some 40) (Some 0) (Some 10) None None
           (Some 20) (Some 30)); by vm_compute.
Defined.
